(** * mnist-lstm: the training loop, its reporting helpers and the
      confusion matrix of [lstm_vision/functions.py], embedded in Rocq.

    The embedding follows the Python source function by function.

    - Python exceptions are the [Raise] branch of [result].
    - A Python [float] (and a tensor entry) is an [fl]: a rational, the two
      infinities, or NaN.  Comparisons and the special values follow
      IEEE 754; finite arithmetic is exact (rounding and signed zeros are
      not modelled), except for the division that normalizes the
      confusion matrix, which rounds to single precision as the float32
      tensor does.
    - Tensors live in a heap indexed by locations, so that
      [model.state_dict()] aliases the live parameters, the optimizer
      writes them in place, and [deepcopy] allocates fresh tensors.
    - The network, the loss functions and the optimizer update are external
      collaborators: they are the variables of [Section Engine]. *)

From Stdlib Require Import QArith Qcanon Qround Qpower Lqa Ascii.
From stdpp Require Import base numbers gmap strings list fin_maps pretty.

Local Open Scope Z_scope.
Local Open Scope nat_scope.

(** ** Exceptions and results *)

Inductive exn : Type :=
  | AssertionError (msg : string)
  | ZeroDivisionError
  | UnboundLocalError (name : string)
  | KeyError (key : string)
  | IndexError
  | RuntimeError (msg : string).

Inductive result (A : Type) : Type :=
  | Ok (a : A)
  | Raise (e : exn).
Arguments Ok {A} a.
Arguments Raise {A} e.

Global Instance result_ret : MRet result := λ A a, Ok a.
Global Instance result_bind : MBind result := λ A B k r,
  match r with
  | Ok a => k a
  | Raise e => Raise e
  end.

Definition assert (b : bool) (msg : string) : result unit :=
  if b then Ok tt else Raise (AssertionError msg).

Definition is_ok {A : Type} (r : result A) : bool :=
  match r with Ok _ => true | Raise _ => false end.

(** ** Floats *)

Inductive fl : Type :=
  | Fin (q : Qc)
  | PInf
  | NInf
  | NaN.

Global Instance fl_eq_dec : EqDecision fl.
Proof. solve_decision. Defined.

Definition Qc_ltb (a b : Qc) : bool := bool_decide (a < b)%Qc.
Definition Qc_eqb (a b : Qc) : bool := bool_decide (a = b).

(** [x < y] on floats: false as soon as one side is NaN. *)
Definition fl_ltb (x y : fl) : bool :=
  match x, y with
  | NaN, _ | _, NaN => false
  | Fin a, Fin b => Qc_ltb a b
  | NInf, (Fin _ | PInf) => true
  | Fin _, PInf => true
  | _, _ => false
  end.

(** [x <= y] on floats: false as soon as one side is NaN. *)
Definition fl_leb (x y : fl) : bool :=
  match x, y with
  | NaN, _ | _, NaN => false
  | Fin a, Fin b => negb (Qc_ltb b a)
  | NInf, _ => true
  | _, PInf => true
  | _, _ => false
  end.

Definition fl_add (x y : fl) : fl :=
  match x, y with
  | NaN, _ | _, NaN => NaN
  | PInf, NInf | NInf, PInf => NaN
  | PInf, _ | _, PInf => PInf
  | NInf, _ | _, NInf => NInf
  | Fin a, Fin b => Fin (a + b)%Qc
  end.

Definition fl_sub (x y : fl) : fl :=
  match x, y with
  | NaN, _ | _, NaN => NaN
  | PInf, PInf | NInf, NInf => NaN
  | PInf, _ | _, NInf => PInf
  | NInf, _ | _, PInf => NInf
  | Fin a, Fin b => Fin (a - b)%Qc
  end.

Definition fl_mul (x y : fl) : fl :=
  match x, y with
  | NaN, _ | _, NaN => NaN
  | Fin a, Fin b => Fin (a * b)%Qc
  | Fin a, PInf | PInf, Fin a =>
      if Qc_eqb a 0 then NaN else if Qc_ltb a 0 then NInf else PInf
  | Fin a, NInf | NInf, Fin a =>
      if Qc_eqb a 0 then NaN else if Qc_ltb a 0 then PInf else NInf
  | PInf, PInf | NInf, NInf => PInf
  | PInf, NInf | NInf, PInf => NInf
  end.

(** Float division as numpy and torch perform it: a zero divisor gives an
    infinity or NaN, it does not raise. *)
Definition fl_div (x y : fl) : fl :=
  match x, y with
  | NaN, _ | _, NaN => NaN
  | Fin a, Fin b =>
      if Qc_eqb b 0 then
        if Qc_eqb a 0 then NaN else if Qc_ltb a 0 then NInf else PInf
      else Fin (a / b)%Qc
  | Fin _, (PInf | NInf) => Fin 0%Qc
  | PInf, Fin b => if Qc_ltb b 0 then NInf else PInf
  | NInf, Fin b => if Qc_ltb b 0 then PInf else NInf
  | (PInf | NInf), (PInf | NInf) => NaN
  end.

Definition fl_of_Z (z : Z) : fl := Fin (Qc_of_Z z).
Definition fl_of_nat (n : nat) : fl := fl_of_Z (Z.of_nat n).

(** Python's [a / b] on two ints: raises on a zero divisor. *)
Definition py_truediv (a b : nat) : result fl :=
  if decide (b = 0) then Raise ZeroDivisionError
  else Ok (fl_div (fl_of_nat a) (fl_of_nat b)).

(** [np.sum(xs, axis=0)] on a list of floats; [0.0] on the empty list. *)
Definition np_sum (xs : list fl) : fl := foldl fl_add (Fin 0%Qc) xs.

(** ** Single precision

    The confusion matrix is a float32 tensor and its rows are divided in
    place: every quotient is rounded to the nearest binary32 number, ties
    to even, with the gradual underflow and the overflow to infinity of
    IEEE 754. *)

Definition pow2 (z : Z) : Q := (2 ^ z)%Q.

(** The nearest integer, the even one on a tie. *)
Definition round_half_even (x : Q) : Z :=
  let f := Qfloor x in
  match (x - inject_Z f ?= 1 # 2)%Q with
  | Lt => f
  | Gt => (f + 1)%Z
  | Eq => if Z.even f then f else (f + 1)%Z
  end.

(** The exponent [e] of a positive rational: [2^e <= a < 2^(e+1)]. *)
Definition binary_exponent (a : Q) : Z :=
  let e0 := (Z.log2 (Qnum a) - Z.log2 (Z.pos (Qden a)))%Z in
  if Qle_bool (pow2 e0) a then e0 else (e0 - 1)%Z.

(** A positive rational rounded to binary32: 24 significant bits, the
    exponent not below -126; [None] when the result overflows. *)
Definition f32_round_pos (a : Q) : option Q :=
  let e := Z.max (binary_exponent a) (-126) in
  let ulp := pow2 (e - 23) in
  let r := (inject_Z (round_half_even (a / ulp)) * ulp)%Q in
  if Qle_bool (pow2 128) r then None else Some r.

Definition f32_round (x : fl) : fl :=
  match x with
  | Fin q =>
      match (q ?= 0)%Q with
      | Eq => x
      | Gt =>
          match f32_round_pos q with
          | Some r => Fin (Q2Qc r)
          | None => PInf
          end
      | Lt =>
          match f32_round_pos (- q) with
          | Some r => Fin (Q2Qc (- r))
          | None => NInf
          end
      end
  | _ => x
  end.

(** The division of two float32 tensor entries. *)
Definition f32_div (x y : fl) : fl := f32_round (fl_div x y).

(** ** Console output

    What is printed is kept as a structured event; the text layout of
    [format_line] and of the f-strings is not modelled. *)

Record batch_line : Type := BatchLine {
  bl_mode : string;
  bl_epoch : nat;
  bl_current_samples : nat;
  bl_total_samples : nat;
  bl_percentage : fl;
  bl_loss : fl;
  bl_runtime : fl
}.

Record epoch_line : Type := EpochLine {
  el_epoch : nat;
  el_runtime : fl;
  el_train_loss : fl;
  el_val_loss : fl;
  el_train_acc : fl;
  el_val_acc : fl
}.

(** ** Command-line options ([TrainOptions]) *)

Record Namespace : Type := {
  compile_mode : option string;
  dropout_rate : fl;
  freq_output__train : Z;
  freq_output__val : Z;
  num_workers : Z;
  pin_memory : bool;
  saving_path : string;
  seed_number : option Z;
  hidden_size : Z;
  num_layers : Z;
  channels_img : Z;
  learning_rate : fl;
  num_epochs : Z;
  batch_size : Z;
  loading_path : option string;
  bidirectional : bool;
  train_split : fl;
  use_amp : bool
}.

Inductive event : Type :=
  | PrintArgs (args : Namespace)
  | PrintBatch (l : batch_line)
  | PrintEpoch (l : epoch_line)
  | PrintMatrix (m : list (list fl))
  | PrintText (s : string).

(** The values [parser.parse_args()] yields when no flag is given. *)
Definition TrainOptions_defaults : Namespace := {|
  compile_mode := None;
  dropout_rate := Fin 0%Qc;
  freq_output__train := 1%Z;
  freq_output__val := 1%Z;
  num_workers := 0%Z;
  pin_memory := false;
  saving_path := "";
  seed_number := None;
  hidden_size := 256%Z;
  num_layers := 3%Z;
  channels_img := 1%Z;
  learning_rate := Fin (Q2Qc (1 # 10000));
  num_epochs := 10%Z;
  batch_size := 1024%Z;
  loading_path := None;
  bidirectional := false;
  train_split := Fin (Q2Qc (5 # 6));
  use_amp := false
|}.

Definition valid_compile_modes : list (option string) :=
  [None; Some "default"; Some "reduce-overhead"; Some "max-autotune"]%string.

(** [check_args]: four assertions in the order of the source, then the
    namespace is printed. *)
Definition check_args (args : Namespace) (out : list event)
  : result (list event) :=
  _ ← assert (bool_decide (compile_mode args ∈ valid_compile_modes))
        "not a valid compile mode";
  _ ← (if pin_memory args
       then assert (bool_decide (0 < num_workers args)%Z)
              "With pinned memory, num_workers > 0 should be chosen"
       else Ok tt);
  _ ← assert (fl_ltb (fl_of_Z 0) (dropout_rate args)
              && fl_ltb (dropout_rate args) (fl_of_Z 1))
        "dropout_rate should be chosen between 0 and 1";
  _ ← assert (fl_ltb (fl_of_Z 0) (train_split args)
              && fl_ltb (train_split args) (fl_of_Z 1))
        "train_split should be chosen between 0 and 1";
  Ok (out ++ [PrintArgs args]).

(** ** The heap of tensors and the world

    [loc] is the identity of a tensor object.  [next_loc] is the allocation
    counter; [ticks] counts the readings of [perf_counter] and [draws] the
    permutations drawn by shuffling loaders. *)

Definition loc : Type := nat.

(** A state dict: parameter names bound to tensor objects, in order. *)
Definition state_dict : Type := list (string * loc).

Fixpoint assoc {V : Type} (k : string) (d : list (string * V)) : option V :=
  match d with
  | [] => None
  | (k', v) :: d => if decide (k = k') then Some v else assoc k d
  end.

Definition locs_of (d : state_dict) : list loc := d.*2.

Fixpoint for_each {A S : Type} (xs : list A) (body : A → S → result S)
    (s : S) : result S :=
  match xs with
  | [] => Ok s
  | x :: xs => s' ← body x s; for_each xs body s'
  end.

Definition enumerate {A : Type} (xs : list A) : list (nat * A) :=
  zip (seq 0 (length xs)) xs.

Fixpoint chunks_fuel {A : Type} (fuel : nat) (n : nat) (xs : list A)
    : list (list A) :=
  match fuel, xs with
  | 0, _ | _, [] => []
  | S fuel, _ => take n xs :: chunks_fuel fuel n (drop n xs)
  end.

(** Consecutive batches of [n] samples, the last one possibly shorter. *)
Definition chunks {A : Type} (n : nat) (xs : list A) : list (list A) :=
  chunks_fuel (length xs) n xs.

Definition ascii_lower (c : ascii) : ascii :=
  let n := nat_of_ascii c in
  if bool_decide (65 ≤ n ≤ 90) then ascii_of_nat (n + 32) else c.

Fixpoint lower (s : string) : string :=
  match s with
  | EmptyString => EmptyString
  | String c s => String (ascii_lower c) (lower s)
  end.

(** ** The external collaborators

    What the numeric library and the network provide.  A [sample] is an
    image with its label and a batch is a list of samples; [forward] is
    [model(images)] on the current parameter values, in training or in
    evaluation mode; [amp_step] is the effect of [optimizer.zero_grad()],
    [scaler.scale(loss).backward()], [scaler.step(optimizer)] and
    [scaler.update()] on the values of the optimizer's parameters, of its
    state entries and of the scaler.  [perf_counter_at n] is the [n]-th
    reading of the clock and [randperm n] the [n]-th permutation drawn. *)

Class Torch : Type := {
  tensor : Type;
  tensor_inhabited :: Inhabited tensor;
  shape : tensor → list nat;
  sample : Type;
  label : sample → nat;
  logits : Type;
  grad_scaler : Type;
  GradScaler : bool → grad_scaler;
  forward : bool → list tensor → list sample → logits;
  cce_mean : logits → list sample → fl;
  cce_sum : logits → list sample → fl;
  argmax : logits → list nat;
  amp_step : bool → grad_scaler → logits → list sample →
             list tensor → list (string * tensor) →
             list tensor * list (string * tensor) * grad_scaler;
  perf_counter_at : nat → fl;
  randperm : nat → list sample → list sample;
  randperm_length : ∀ n xs, length (randperm n xs) = length xs
}.

(** ** The training engine *)

Section Engine.
Context {T : Torch}.

Record world : Type := World {
  heap : gmap loc tensor;
  next_loc : loc;
  stdout : list event;
  ticks : nat;
  draws : nat
}.

Definition print (e : event) (w : world) : world :=
  World (heap w) (next_loc w) (stdout w ++ [e]) (ticks w) (draws w).

Definition perf_counter (w : world) : fl * world :=
  (perf_counter_at (ticks w),
   World (heap w) (next_loc w) (stdout w) (S (ticks w)) (draws w)).

(** A new tensor object holding [v]. *)
Definition alloc (v : tensor) (w : world) : loc * world :=
  (next_loc w,
   World (<[next_loc w := v]> (heap w)) (S (next_loc w)) (stdout w)
     (ticks w) (draws w)).

(** An in-place write to the tensor object [l]. *)
Definition store (l : loc) (v : tensor) (w : world) : world :=
  World (<[l := v]> (heap w)) (next_loc w) (stdout w) (ticks w) (draws w).

Definition load (w : world) (l : loc) : tensor := heap w !!! l.

(** The values a state dict shows in the world [w]. *)
Definition values (w : world) (d : state_dict) : list (string * tensor) :=
  prod_map id (load w) <$> d.

Definition store_all (ls : list loc) (vs : list tensor) (w : world) : world :=
  foldl (λ w lv, store lv.1 lv.2 w) w (zip ls vs).

(** [copy.deepcopy] of a state dict: every entry gets a new tensor object
    holding the current value of the original. *)
Fixpoint deepcopy (d : state_dict) (w : world) : state_dict * world :=
  match d with
  | [] => ([], w)
  | (k, l) :: d =>
      let '(l', w) := alloc (load w l) w in
      let '(d', w) := deepcopy d w in
      ((k, l') :: d', w)
  end.

(** *** Model and optimizer objects *)

Record nn_Module : Type := {
  parameters : state_dict;
  training : bool
}.

Definition set_training (b : bool) (m : nn_Module) : nn_Module :=
  {| parameters := parameters m; training := b |}.

(** [model.state_dict()]: the entries are the live parameter tensors. *)
Definition model_state_dict (m : nn_Module) : state_dict := parameters m.

Definition call_model (m : nn_Module) (b : list sample) (w : world) : logits :=
  forward (training m) (load w <$> locs_of (parameters m)) b.

(** [param_groups]: the parameter tensors the optimizer updates; the
    hyperparameters of the groups belong to the update rule. *)
Record Optimizer : Type := {
  param_groups : list loc;
  state : state_dict
}.

(** [optimizer.state_dict()]: the entries are the live state tensors. *)
Definition optimizer_state_dict (o : Optimizer) : state_dict := state o.

(** The new state values are written in place where the entry exists; an
    entry that appears (the first step creates the moment estimates) is a
    new tensor object. *)
Fixpoint write_state (new : list (string * tensor)) (st : state_dict)
    (w : world) : state_dict * world :=
  match new with
  | [] => (st, w)
  | (k, v) :: new =>
      match assoc k st with
      | Some l => write_state new st (store l v w)
      | None =>
          let '(l, w) := alloc v w in
          write_state new (st ++ [(k, l)]) w
      end
  end.

Definition optimizer_step (use_amp : bool) (sc : grad_scaler) (out : logits)
    (b : list sample) (o : Optimizer) (w : world)
    : Optimizer * grad_scaler * world :=
  let '(ps, st, sc') :=
    amp_step use_amp sc out b (load w <$> param_groups o)
      (values w (state o)) in
  let w := store_all (param_groups o) ps w in
  let '(st', w) := write_state st (state o) w in
  ({| param_groups := param_groups o; state := st' |}, sc', w).

(** *** Data loaders *)

Record DataLoader : Type := {
  dl_dataset : list sample;
  dl_batch_size : positive;
  dl_shuffle : bool
}.

(** [len(loader)]: the number of batches, the last one possibly partial. *)
Definition len_loader (ld : DataLoader) : nat :=
  (length (dl_dataset ld) + Pos.to_nat (dl_batch_size ld) - 1)
    `div` Pos.to_nat (dl_batch_size ld).

(** One pass over the loader: the batches, in a fresh random order when
    the loader shuffles. *)
Definition iter_loader (ld : DataLoader) (w : world)
    : list (list sample) * world :=
  if dl_shuffle ld then
    (chunks (Pos.to_nat (dl_batch_size ld))
       (randperm (draws w) (dl_dataset ld)),
     World (heap w) (next_loc w) (stdout w) (ticks w) (S (draws w)))
  else (chunks (Pos.to_nat (dl_batch_size ld)) (dl_dataset ld), w).

(** *** Progress lines *)

Definition format_line (mode : string) (epoch current_samples
    total_samples : nat) (percentage loss runtime : fl)
    : result batch_line :=
  _ ← assert (bool_decide (lower mode ∈ ["train"; "val"]%string))
        "mode";
  Ok (BatchLine mode epoch current_samples total_samples percentage loss
        runtime).

(** [print__batch_info]; [frequency] is a Python int, and [%] by zero
    raises. *)
Definition print__batch_info (mode : string) (batch_idx : nat)
    (loader : DataLoader) (epoch : nat) (t_0 : fl) (loss : fl)
    (frequency : Z) (w : world) : result world :=
  _ ← assert (bool_decide (lower mode ∈ ["train"; "val"]%string))
        "mode";
  if decide (frequency = 0%Z) then Raise ZeroDivisionError
  else if decide ((Z.of_nat batch_idx `mod` frequency)%Z = 0%Z) then
    let current_samples :=
      if decide (Z.of_nat batch_idx = (Z.of_nat (len_loader loader) - 1)%Z)
      then length (dl_dataset loader)
      else (batch_idx + 1) * Pos.to_nat (dl_batch_size loader) in
    let total_samples := length (dl_dataset loader) in
    prog_perc ← py_truediv (100 * current_samples) total_samples;
    let '(now, w) := perf_counter w in
    let runtime := fl_sub now t_0 in
    formatted_line ← format_line mode epoch current_samples total_samples
                       prog_perc loss runtime;
    Ok (print (PrintBatch formatted_line) w)
  else Ok w.

(** *** One epoch *)

(** [(max_indices == labels).sum()] *)
Definition num_hits (out : logits) (b : list sample) : nat :=
  length (filter (λ pt, pt.1 = pt.2) (zip (argmax out) (label <$> b))).

(** [output.shape[0]] *)
Definition num_rows (out : logits) : nat := length (argmax out).

(** The objects the caller passes in and the loop mutates. *)
Record objs : Type := Objs {
  model : nn_Module;
  optimizer : Optimizer;
  scaler : grad_scaler
}.

(** The per-epoch accumulators of one loader. *)
Record tally : Type := Tally {
  loss_perEpoch : list fl;
  num_correct : nat;
  num_samples : nat
}.

Definition tally0 : tally := Tally [] 0 0.

(** The body of the loop over [train_loader]. *)
Definition train_batch (use_amp : bool) (train_loader : DataLoader)
    (epoch : nat) (t0 : fl) (freq_output__train : Z)
    (ib : nat * list sample) (s : objs * tally * world)
    : result (objs * tally * world) :=
  let '(batch_idx, b) := ib in
  let '(o, tl, w) := s in
  let m := set_training true (model o) in
  let output := call_model m b w in
  let loss := cce_mean output b in
  let '(opt, sc, w) := optimizer_step use_amp (scaler o) output b
                         (optimizer o) w in
  let trainingLoss_perEpoch := loss_perEpoch tl ++ [cce_sum output b] in
  let m := set_training false m in
  let tl := Tally trainingLoss_perEpoch
              (num_correct tl + num_hits output b)
              (num_samples tl + num_rows output) in
  w ← print__batch_info "train" batch_idx train_loader epoch t0 loss
        freq_output__train w;
  Ok (Objs m opt sc, tl, w).

(** The body of the loop over [val_loader]. *)
Definition val_batch (m : nn_Module) (val_loader : DataLoader)
    (epoch : nat) (t0 : fl) (freq_output__val : Z)
    (ib : nat * list sample) (s : tally * world) : result (tally * world) :=
  let '(val_batch_idx, b) := ib in
  let '(tl, w) := s in
  let val_output := call_model m b w in
  let val_loss := cce_sum val_output b in
  let tl := Tally (loss_perEpoch tl ++ [val_loss])
              (num_correct tl + num_hits val_output b)
              (num_samples tl + num_rows val_output) in
  w ← print__batch_info "val" val_batch_idx val_loader epoch t0
        (cce_mean val_output b) freq_output__val w;
  Ok (tl, w).

(** The locals of [train_and_validate] that live across epochs;
    [checkpoint] is [None] while the name is unbound. *)
Record frame : Type := Frame {
  objects : objs;
  train_losses : list fl;
  val_losses : list fl;
  train_accs : list fl;
  val_accs : list fl;
  min_val_loss : fl;
  checkpoint : option (gmap string state_dict)
}.

Definition list_index (xs : list fl) (i : nat) : result fl :=
  match xs !! i with
  | Some x => Ok x
  | None => Raise IndexError
  end.

(** The checkpoint update at the end of an epoch. *)
Definition select_checkpoint (o : objs) (val_loss_epoch : fl)
    (min_val_loss : fl) (checkpoint : option (gmap string state_dict))
    (w : world) : fl * option (gmap string state_dict) * world :=
  if fl_ltb val_loss_epoch min_val_loss then
    let '(sd, w) := deepcopy (model_state_dict (model o)) w in
    let '(od, w) := deepcopy (optimizer_state_dict (optimizer o)) w in
    (val_loss_epoch,
     Some (<["optimizer" := od]> {["state_dict" := sd]}),
     w)
  else (min_val_loss, checkpoint, w).

(** The body of [for epoch in range(num_epochs)]. *)
Definition epoch_body (use_amp : bool) (train_loader val_loader : DataLoader)
    (freq_output__train freq_output__val : Z) (epoch : nat)
    (s : frame * world) : result (frame * world) :=
  let '(f, w) := s in
  let '(t0, w) := perf_counter w in
  let '(train_batches, w) := iter_loader train_loader w in
  '(o, tr, w) ← for_each (enumerate train_batches)
                  (train_batch use_amp train_loader epoch t0
                     freq_output__train)
                  (objects f, tally0, w);
  let m := set_training false (model o) in
  let '(val_batches, w) := iter_loader val_loader w in
  '(va, w) ← for_each (enumerate val_batches)
               (val_batch m val_loader epoch t0 freq_output__val)
               (tally0, w);
  let train_losses :=
    train_losses f ++
      [fl_div (np_sum (loss_perEpoch tr))
         (fl_of_nat (length (dl_dataset train_loader)))] in
  let val_losses :=
    val_losses f ++
      [fl_div (np_sum (loss_perEpoch va))
         (fl_of_nat (length (dl_dataset val_loader)))] in
  let o := Objs m (optimizer o) (scaler o) in
  val_loss_epoch ← list_index val_losses epoch;
  let '(min_val_loss, checkpoint, w) :=
    select_checkpoint o val_loss_epoch (min_val_loss f) (checkpoint f) w in
  train_acc ← py_truediv (num_correct tr) (num_samples tr);
  let train_accs := train_accs f ++ [train_acc] in
  val_acc ← py_truediv (num_correct va) (num_samples va);
  let val_accs := val_accs f ++ [val_acc] in
  let '(now, w) := perf_counter w in
  train_loss_epoch ← list_index train_losses epoch;
  val_loss_epoch' ← list_index val_losses epoch;
  train_acc_epoch ← list_index train_accs epoch;
  val_acc_epoch ← list_index val_accs epoch;
  let w := print (PrintEpoch (EpochLine epoch (fl_sub now t0)
                    train_loss_epoch val_loss_epoch'
                    (fl_mul (fl_of_Z 100) train_acc_epoch)
                    (fl_mul (fl_of_Z 100) val_acc_epoch))) w in
  let o := Objs (set_training true m) (optimizer o) (scaler o) in
  Ok (Frame o train_losses val_losses train_accs val_accs min_val_loss
        checkpoint, w).

(** The state before the first epoch. *)
Definition frame0 (m : nn_Module) (opt : Optimizer) (use_amp : bool)
    : frame :=
  Frame (Objs m opt (GradScaler use_amp)) [] [] [] [] PInf None.

(** The loop over the first [n] epochs. *)
Definition run_epochs (use_amp : bool) (train_loader val_loader : DataLoader)
    (freq_output__train freq_output__val : Z) (n : nat)
    (s : frame * world) : result (frame * world) :=
  for_each (seq 0 n)
    (epoch_body use_amp train_loader val_loader freq_output__train
       freq_output__val) s.

(** [start_timer]: the clock reading when training starts (garbage
    collection and the CUDA calls are not modelled). *)
Definition start_timer (w : world) : fl * world := perf_counter w.

(** What [train_and_validate] returns, with the objects it mutated. *)
Record outcome : Type := Outcome {
  start_time : fl;
  best_checkpoint : gmap string state_dict;
  out_train_losses : list fl;
  out_val_losses : list fl;
  out_train_accs : list fl;
  out_val_accs : list fl;
  out_objects : objs
}.

(** [train_and_validate]; reading the unbound [checkpoint] in the
    [return] raises. *)
Definition train_and_validate (m : nn_Module) (opt : Optimizer)
    (num_epochs : Z) (use_amp : bool) (train_loader val_loader : DataLoader)
    (freq_output__train freq_output__val : Z) (w : world)
    : result (outcome * world) :=
  let '(start, w) := start_timer w in
  '(f, w) ← run_epochs use_amp train_loader val_loader freq_output__train
              freq_output__val (Z.to_nat num_epochs)
              (frame0 m opt use_amp, w);
  match checkpoint f with
  | None => Raise (UnboundLocalError "checkpoint")
  | Some ck =>
      Ok (Outcome start ck (train_losses f) (val_losses f) (train_accs f)
            (val_accs f) (objects f), w)
  end.

End Engine.

(** ** Checkpoint restoration *)

Section Checkpoints.
Context {T : Torch}.

(** [model.load_state_dict(sd)], strict: the names must be those of the
    model and the sizes must agree; the values are copied in place into
    the parameter tensors, in order. *)
Definition copy_param (sd : state_dict) (kl : string * loc) (w : world)
    : result world :=
  match assoc kl.1 sd with
  | None => Raise (RuntimeError "Missing key(s) in state_dict")
  | Some src =>
      if decide (shape (load w src) = shape (load w kl.2))
      then Ok (store kl.2 (load w src) w)
      else Raise (RuntimeError "size mismatch")
  end.

Definition load_state_dict (m : nn_Module) (sd : state_dict) (w : world)
    : result world :=
  if bool_decide (sd.*1 ⊆ (parameters m).*1) then
    for_each (parameters m) (copy_param sd) w
  else Raise (RuntimeError "Unexpected key(s) in state_dict").

(** [optimizer.load_state_dict(sd)]: the entries of the given state
    dict become the optimizer's state.  They are the tensor objects of
    the state dict themselves: the method copies the dictionary, not the
    tensors, and casting a tensor to the type and device it already has
    returns the same object.  A state dict of this model holds the state
    entries only, not the parameter groups that the method compares
    with the optimizer's: the definition covers the state dicts with
    the groups of the optimizer, those [train_and_validate] saves for
    it, and not the [ValueError] the method raises on other groups. *)
Definition optimizer_load_state_dict (o : Optimizer) (sd : state_dict)
    (w : world) : Optimizer * world :=
  ({| param_groups := param_groups o; state := sd |}, w).

Definition getitem (ck : gmap string state_dict) (k : string)
    : result state_dict :=
  match ck !! k with
  | Some d => Ok d
  | None => Raise (KeyError k)
  end.

(** [load_checkpoint(model, checkpoint, optimizer=None)].  The Python
    function returns nothing and changes the optimizer object in place;
    the second component of the result is that object as it is after
    the call, [None] when no optimizer was passed. *)
Definition load_checkpoint (m : nn_Module) (ck : gmap string state_dict)
    (opt : option Optimizer) (w : world)
    : result (option Optimizer * world) :=
  sd ← getitem ck "state_dict";
  w ← load_state_dict m sd w;
  '(opt, w) ← match opt with
             | Some o =>
                 od ← getitem ck "optimizer";
                 let '(o, w) := optimizer_load_state_dict o od w in
                 Ok (Some o, w)
             | None => Ok (None, w)
             end;
  Ok (opt, print (PrintText "=> Checkpoint loaded.") w).

End Checkpoints.

(** ** The confusion matrix *)

(** [confusion_matrix[t, p] += 1]; an index outside the matrix raises. *)
Definition bump (cm : list (list fl)) (tp : nat * nat)
    : result (list (list fl)) :=
  match cm !! tp.1 with
  | None => Raise IndexError
  | Some row =>
      match row !! tp.2 with
      | None => Raise IndexError
      | Some x => Ok (<[tp.1 := <[tp.2 := fl_add x (fl_of_Z 1)]> row]> cm)
      end
  end.

(** One iteration of the normalization loop: the row sum, then the row
    divided by it in place; the division is that of the float32 tensor,
    which rounds and never raises.  The sum adds counts, which float32
    holds exactly up to [2^24]. *)
Definition normalize_row (i : nat) (cm : list (list fl))
    : result (list (list fl)) :=
  match cm !! i with
  | None => Raise IndexError
  | Some row =>
      let total_sums := foldl fl_add (fl_of_Z 0) row in
      Ok (<[i := (λ x, f32_div x total_sums) <$> row]> cm)
  end.

(** The accumulator after the pass over the pairs (true class, predicted
    class), starting from [torch.zeros(num_classes, num_classes)]. *)
Definition accumulate (num_classes : nat) (pairs : list (nat * nat))
    : result (list (list fl)) :=
  for_each pairs (λ tp cm, bump cm tp)
    (replicate num_classes (replicate num_classes (fl_of_Z 0))).

(** The accumulation, then the normalization of every row. *)
Definition confusion_of_pairs (num_classes : nat)
    (pairs : list (nat * nat)) : result (list (list fl)) :=
  cm ← accumulate num_classes pairs;
  for_each (seq 0 num_classes) normalize_row cm.

Section Evaluation.
Context {T : Torch}.

(** The pairs [zip(classes.view(-1), preds.view(-1))] of all batches. *)
Definition evaluated_pairs (m : nn_Module) (batches : list (list sample))
    (w : world) : list (nat * nat) :=
  batches ≫= λ b, zip (label <$> b) (argmax (call_model m b w)).

(** [produce_and_print_confusion_matrix]; the plot is not modelled. *)
Definition produce_and_print_confusion_matrix (num_classes : nat)
    (test_loader : DataLoader) (m : nn_Module) (w : world)
    : result (list (list fl) * nn_Module * world) :=
  let m := set_training false m in
  let '(batches, w) := iter_loader test_loader w in
  confusion_matrix ← confusion_of_pairs num_classes
                       (evaluated_pairs m batches w);
  Ok (confusion_matrix, m, print (PrintMatrix confusion_matrix) w).

End Evaluation.

(** ** The accuracy check

    [check_accuracy] of [lstm_vision/functions.py].  The text of the
    line it prints is built as the f-string builds it; [format_2f] is the
    rendering of a float by the format [:.2f], which is Python's. *)



Section AccuracyCheck.
Context {T : Torch}.
Variable format_2f : fl → string.




End AccuracyCheck.

(** ** The first version of the helpers

    [load_checkpoint] of [src/functions.py], which takes the optimizer as
    a required argument and announces the loading before it starts. *)

Module Legacy.
Section Legacy.
Context {T : Torch}.

Definition load_checkpoint (m : nn_Module) (optimizer : Optimizer)
    (checkpoint : gmap string state_dict) (w : world)
    : result (Optimizer * world) :=
  let w :=
    print (PrintText "=> Loading checkpoints for critic and generator models")
      w in
  sd ← getitem checkpoint "state_dict";
  w ← load_state_dict m sd w;
  od ← getitem checkpoint "optimizer";
  Ok (optimizer_load_state_dict optimizer od w).

End Legacy.
End Legacy.

(** ** A small concrete backend

    One integer weight, raised by one at every optimizer step; the loss of
    a batch depends on the weight only, through [loss_of]; a sample is a
    feature with its label, and the predicted class is 1 when feature
    times weight is positive. *)

Module Toy.

Definition predict (wt : Z) (s : Z * nat) : nat :=
  if bool_decide (0 < s.1 * wt)%Z then 1 else 0.

Program Definition backend (loss_of : Z → fl) : Torch := {|
  tensor := Z;
  shape := λ _, [];
  sample := Z * nat;
  label := snd;
  logits := Z * list nat;
  grad_scaler := unit;
  GradScaler := λ _, tt;
  forward := λ _ ps b, (hd 0%Z ps, predict (hd 0%Z ps) <$> b);
  cce_mean := λ out _, loss_of out.1;
  cce_sum := λ out b, fl_mul (loss_of out.1) (fl_of_nat (length b));
  argmax := snd;
  amp_step := λ _ sc _ _ ps st,
    (Z.succ <$> ps,
     [("step"%string, (default 0 (assoc "step" st) + 1)%Z)],
     sc);
  perf_counter_at := fl_of_nat;
  randperm := λ n xs, if Nat.odd n then reverse xs else xs
|}.
Next Obligation.
  intros _ n xs. simpl. destruct (Nat.odd n); [apply length_reverse | done].
Qed.

(** The loss is the distance of the weight to 3. *)
Definition distance_loss (wt : Z) : fl := fl_of_Z (Z.abs (wt - 3)).

(** A loss that is NaN while the weight is 2. *)
Definition nan_loss (wt : Z) : fl :=
  if bool_decide (wt = 2%Z) then NaN else fl_of_Z 1.

(** A loss that is infinite whatever the weight. *)
Definition inf_loss (wt : Z) : fl := PInf.

(** One parameter tensor at location 0, holding 0; no optimizer state
    yet. *)
Definition world0 (loss_of : Z → fl) : world (T := backend loss_of) :=
  World (T := backend loss_of) {[ 0 := 0%Z ]} 1 [] 0 0.

Definition net (loss_of : Z → fl) : nn_Module :=
  {| parameters := [("weight"%string, 0)]; training := true |}.

Definition adam (loss_of : Z → fl) : Optimizer :=
  {| param_groups := [0]; state := [] |}.

Definition train_set (loss_of : Z → fl) : DataLoader (T := backend loss_of) :=
  {| dl_dataset := [(1%Z, 1); ((-1)%Z, 0)] : list (@sample (backend loss_of));
     dl_batch_size := 1%positive; dl_shuffle := true |}.

Definition val_set (loss_of : Z → fl) : DataLoader (T := backend loss_of) :=
  {| dl_dataset := [(2%Z, 1); ((-3)%Z, 0); (5%Z, 1)]
                   : list (@sample (backend loss_of));
     dl_batch_size := 2%positive; dl_shuffle := false |}.

(** The run of [n] epochs on these data, printing every batch. *)
Abbreviation run loss_of n :=
  (train_and_validate (T := backend loss_of) (net loss_of) (adam loss_of) n
     false (train_set loss_of) (val_set loss_of) 1%Z 1%Z (world0 loss_of)).

(** The state after [n] epochs of that run. *)
Abbreviation epochs loss_of n :=
  (run_epochs (T := backend loss_of) false (train_set loss_of)
     (val_set loss_of) 1%Z 1%Z n
     (frame0 (T := backend loss_of) (net loss_of) (adam loss_of) false,
      (perf_counter (T := backend loss_of) (world0 loss_of)).2)).

(** A world for restoring a checkpoint: the weight at location 0, the
    step counter of the optimizer at location 1, and a saved weight at
    location 5. *)
Definition restore_world (loss_of : Z → fl) : world (T := backend loss_of) :=
  World (T := backend loss_of)
    (<[5 := 42%Z]> (<[1 := 7%Z]> {[ 0 := 0%Z ]})) 6 [] 0 0.

Definition adam_stepped (loss_of : Z → fl) : Optimizer :=
  {| param_groups := [0]; state := [("step"%string, 1)] |}.

(** A checkpoint file content without the "optimizer" entry. *)
Definition saved : gmap string state_dict :=
  {[ "state_dict"%string := [("weight"%string, 5)] ]}.



End Toy.

(** ** Vocabulary of the statements *)

(** The states in which a loop finds itself when it starts on each of
    its items. *)
Fixpoint scan {A St : Type} (xs : list A) (body : A → St → result St)
    (s : St) : list St :=
  match xs with
  | [] => []
  | x :: xs =>
      s :: match body x s with
           | Ok s' => scan xs body s'
           | Raise _ => []
           end
  end.

(** A float that is a number. *)
Definition finite (x : fl) : Prop := ∃ q, x = Fin q.

(** The number of evaluated samples of true class [t] predicted [p]. *)
Definition count_cell (pairs : list (nat * nat)) (t p : nat) : nat :=
  length (filter (λ tp, tp = (t, p)) pairs).

(** The sum of the counts of row [t] of a matrix with [n] columns. *)
Definition row_total (pairs : list (nat * nat)) (n t : nat) : nat :=
  sum_list (count_cell pairs t <$> seq 0 n).

(** The cells of a matrix are the counts of the pairs [pre]. *)
Definition counts_of (n : nat) (pre : list (nat * nat))
    (cm : list (list fl)) : Prop :=
  cm = (λ t, (λ p, fl_of_nat (count_cell pre t p)) <$> seq 0 n) <$> seq 0 n.

(** Row [t] of the counts, each cell divided by the row total in single
    precision. *)
Definition normalized_row (n : nat) (pairs : list (nat * nat)) (t : nat)
    : list fl :=
  (λ p, f32_div (fl_of_nat (count_cell pairs t p))
          (fl_of_nat (row_total pairs n t))) <$> seq 0 n.




Section Vocabulary.
Context {T : Torch}.

(** All four metric sequences have length [k]. *)
Definition metrics_length (f : frame) (k : nat) : Prop :=
  length (train_losses f) = k ∧ length (val_losses f) = k
  ∧ length (train_accs f) = k ∧ length (val_accs f) = k.

(** [f'] has exactly one more entry than [f] in each metric sequence. *)
Definition one_entry_appended (f f' : frame) : Prop :=
  (∃ x, train_losses f' = train_losses f ++ [x])
  ∧ (∃ x, val_losses f' = val_losses f ++ [x])
  ∧ (∃ x, train_accs f' = train_accs f ++ [x])
  ∧ (∃ x, val_accs f' = val_accs f ++ [x]).

(** The tensor objects reachable from the model and the optimizer. *)
Definition live (o : objs) : list loc :=
  locs_of (parameters (model o)) ++ param_groups (optimizer o)
  ++ locs_of (state (optimizer o)).

(** Every live tensor object has been allocated. *)
Definition allocated (o : objs) (w : world) : Prop :=
  ∀ l, l ∈ live o → l < next_loc w.

(** From [w] to [w'] nothing was deallocated and no object below [n]
    that satisfies [P] was written. *)
Definition keeps (P : loc → Prop) (n : nat) (w w' : world) : Prop :=
  next_loc w ≤ next_loc w'
  ∧ ∀ l, P l → l < n → heap w' !! l = heap w !! l.

(** The live objects are allocated, and those satisfying [P] were
    allocated at [n] or later. *)
Definition inv (P : loc → Prop) (n : nat) (o : objs) (w : world) : Prop :=
  n ≤ next_loc w ∧ ∀ l, l ∈ live o → l < next_loc w ∧ (P l → n ≤ l).

(** The tensor objects a checkpoint holds. *)
Definition held (ck : gmap string state_dict) (l : loc) : Prop :=
  ∃ k d, ck !! k = Some d ∧ l ∈ locs_of d.

(** The checkpoint bound in [f], if any, holds allocated objects that
    are not live. *)
Definition checkpoint_separate (f : frame) (w : world) : Prop :=
  ∀ ck l, checkpoint f = Some ck → held ck l →
    l < next_loc w ∧ l ∉ live (objects f).

(** Read in the world [w], the checkpoint [ck] shows the values that the
    state dicts of the model and of the optimizer of [o] showed in the
    world [w_at]. *)
Definition is_snapshot (ck : gmap string state_dict) (w : world) (o : objs)
    (w_at : world) : Prop :=
  ∃ sd od,
    ck = <["optimizer" := od]> {["state_dict" := sd]}
    ∧ values w sd = values w_at (model_state_dict (model o))
    ∧ values w od = values w_at (optimizer_state_dict (optimizer o)).

(** The checkpoint update of an epoch whose validation loss is [v],
    between the frame [f] before the epoch and the frame [f'] and world
    [w'] after it: a capture (fresh objects showing the live values)
    exactly when [v] is strictly below the running minimum. *)
Definition checkpoint_step (f : frame) (v : fl) (f' : frame) (w' : world)
    : Prop :=
  (fl_ltb v (min_val_loss f) = true ∧ min_val_loss f' = v
   ∧ ∃ c, checkpoint f' = Some c
          ∧ is_snapshot c w' (objects f') w'
          ∧ ∀ l, held c l → l < next_loc w' ∧ l ∉ live (objects f'))
  ∨ (fl_ltb v (min_val_loss f) = false
     ∧ min_val_loss f' = min_val_loss f
     ∧ checkpoint f' = checkpoint f).

(** The captured loss is below or equal to the loss of every epoch. *)
Definition captured_below_all (f : frame) : Prop :=
  ∀ e' v', val_losses f !! e' = Some v' →
           fl_leb (min_val_loss f) v' = true.

(** What the loop knows about its checkpoint after [k] epochs, [run j]
    being the state after [j] epochs: either nothing was captured and no
    validation loss was below the initial infinity, or the checkpoint is
    the snapshot taken at the end of an epoch [e] whose validation loss
    [v] is the running minimum: no epoch has a loss strictly below [v],
    and no earlier epoch has a loss below or equal to [v]. *)
Definition tracking (run : nat → result (frame * world)) (k : nat)
    (f : frame) (w : world) : Prop :=
  match checkpoint f with
  | None =>
      min_val_loss f = PInf
      ∧ ∀ e' v', val_losses f !! e' = Some v' → fl_ltb v' PInf = false
  | Some ck =>
      ∃ e v fe we,
        e < k ∧ val_losses f !! e = Some v ∧ min_val_loss f = v
        ∧ fl_ltb v PInf = true
        ∧ (∀ e' v', val_losses f !! e' = Some v' → fl_ltb v' v = false)
        ∧ (∀ e' v', e' < e → val_losses f !! e' = Some v' →
                    fl_leb v' v = false)
        ∧ run (S e) = Ok (fe, we)
        ∧ is_snapshot ck w (objects fe) we
  end.

End Vocabulary.

(** ** Further vocabulary *)

(** The configurations [check_args] lets through. *)
Definition valid_args (args : Namespace) : Prop :=
  compile_mode args ∈ valid_compile_modes
  ∧ (pin_memory args = true → (0 < num_workers args)%Z)
  ∧ (∃ q, dropout_rate args = Fin q ∧ (0 < q)%Qc ∧ (q < 1)%Qc)
  ∧ (∃ q, train_split args = Fin q ∧ (0 < q)%Qc ∧ (q < 1)%Qc).

(** A float between 0 and [hi]. *)
Definition between_0_and (hi : Z) (x : fl) : Prop :=
  fl_leb (fl_of_Z 0) x = true ∧ fl_leb x (fl_of_Z hi) = true.

Section FurtherVocabulary.
Context {T : Torch}.

(** The objects [o] are the objects [o0] after training steps: the same
    parameter tensors and parameter groups, and an optimizer state that
    kept its entries and may have gained new ones. *)
Definition trained_from (o0 o : objs) : Prop :=
  parameters (model o) = parameters (model o0)
  ∧ param_groups (optimizer o) = param_groups (optimizer o0)
  ∧ state (optimizer o0) `prefix_of` state (optimizer o).

(** The validation loss of a network whose parameters hold the values
    [params], over the batches [batches] of a set of [n] samples. *)
Definition validation_loss_of (params : list tensor)
    (batches : list (list sample)) (n : nat) : fl :=
  fl_div (np_sum ((λ b, cce_sum (forward false params b) b) <$> batches))
    (fl_of_nat n).

End FurtherVocabulary.

(** The number of batch indices below [n] on the stride of
    [frequency]. *)
Definition strides (frequency : Z) (n : nat) : nat :=
  length (filter (λ i, (Z.of_nat i `mod` frequency)%Z = 0%Z) (seq 0 n)).

Section ConsoleVocabulary.
Context {T : Torch}.

(** What epoch [k] prints: the progress lines of the training batches on
    the stride, those of the validation batches, then one summary line
    that shows entry [k] of the four metric sequences, the accuracies in
    per cent. *)
Definition epoch_log (train_loader val_loader : DataLoader)
    (freq_output__train freq_output__val : Z) (k : nat)
    (tlosses vlosses taccs vaccs : list fl) (log : list event) : Prop :=
  ∃ tlines vlines line,
    log = (PrintBatch <$> tlines) ++ (PrintBatch <$> vlines)
          ++ [PrintEpoch line]
    ∧ length tlines = strides freq_output__train (len_loader train_loader)
    ∧ Forall (λ l, bl_mode l = "train"%string ∧ bl_epoch l = k) tlines
    ∧ length vlines = strides freq_output__val (len_loader val_loader)
    ∧ Forall (λ l, bl_mode l = "val"%string ∧ bl_epoch l = k) vlines
    ∧ el_epoch line = k
    ∧ tlosses !! k = Some (el_train_loss line)
    ∧ vlosses !! k = Some (el_val_loss line)
    ∧ (fl_mul (fl_of_Z 100) <$> taccs) !! k = Some (el_train_acc line)
    ∧ (fl_mul (fl_of_Z 100) <$> vaccs) !! k = Some (el_val_acc line).

End ConsoleVocabulary.

(** ** Further concrete data *)

Module ToyReport.


(** A valid configuration: the defaults with a dropout rate of 1/2. *)
Definition args : Namespace := {|
  compile_mode := None; dropout_rate := Fin (Q2Qc (1 # 2));
  freq_output__train := 1%Z; freq_output__val := 1%Z;
  num_workers := 0%Z; pin_memory := false; saving_path := "";
  seed_number := None; hidden_size := 256%Z; num_layers := 3%Z;
  channels_img := 1%Z; learning_rate := Fin (Q2Qc (1 # 10000));
  num_epochs := 10%Z; batch_size := 1024%Z; loading_path := None;
  bidirectional := false; train_split := Fin (Q2Qc (5 # 6));
  use_amp := false
|}.

(** A checkpoint file content with both entries: the saved weight at
    location 5 and the saved step counter at location 1. *)
Definition saved_both : gmap string state_dict :=
  <["optimizer"%string := [("step"%string, 1)] ]>
    {[ "state_dict"%string := [("weight"%string, 5)] ]}.

End ToyReport.

(** * Properties *)

(** ** Order on floats *)

Lemma Qc_ltb_lt a b : Qc_ltb a b = true ↔ (a < b)%Qc.
Proof. unfold Qc_ltb. apply bool_decide_eq_true. Qed.

Lemma Qc_ltb_ge a b : Qc_ltb a b = false ↔ (b ≤ a)%Qc.
Proof.
  unfold Qc_ltb. rewrite bool_decide_eq_false. split.
  - apply Qcnot_lt_le.
  - apply Qcle_not_lt.
Qed.

Lemma fl_ltb_irrefl x : fl_ltb x x = false.
Proof.
  destruct x; simpl; try done. apply Qc_ltb_ge. apply Qcle_refl.
Qed.

Lemma fl_ltb_trans x y z :
  fl_ltb x y = true → fl_ltb y z = true → fl_ltb x z = true.
Proof.
  destruct x, y, z; simpl; try done.
  rewrite !Qc_ltb_lt. apply Qclt_trans.
Qed.

Lemma fl_leb_ltb_trans x y z :
  fl_leb x y = true → fl_ltb y z = true → fl_ltb x z = true.
Proof.
  destruct x, y, z; simpl; try done.
  rewrite negb_true_iff, Qc_ltb_ge, !Qc_ltb_lt. apply Qcle_lt_trans.
Qed.

(** Away from NaN the order is total. *)
Lemma fl_leb_total x y :
  x ≠ NaN → y ≠ NaN → fl_ltb x y = false → fl_leb y x = true.
Proof.
  destruct x, y; simpl; try done. intros _ _ ->. done.
Qed.

Lemma fl_ltb_PInf x y : fl_ltb x y = true → fl_ltb x PInf = true.
Proof. by destruct x, y. Qed.

Lemma fl_ltb_not_nan x y : fl_ltb x y = true → x ≠ NaN ∧ y ≠ NaN.
Proof. by destruct x, y. Qed.

(** ** The result monad and loops *)

Lemma bind_Ok {A B : Type} (k : A → result B) (r : result A) (b : B) :
  r ≫= k = Ok b → ∃ a, r = Ok a ∧ k a = Ok b.
Proof. destruct r as [a|e]; [eauto | discriminate]. Qed.

Ltac inv_bind H :=
  let a := fresh "a" in
  let Ha := fresh "Hb" in
  apply bind_Ok in H as (a & Ha & H).

Lemma for_each_app {A St : Type} (body : A → St → result St) xs ys s :
  for_each (xs ++ ys) body s = for_each xs body s ≫= for_each ys body.
Proof.
  revert s. induction xs as [|x xs IH]; intros s; simpl; [done|].
  destruct (body x s) as [s'|e]; simpl; [apply IH | done].
Qed.

(** An invariant of the body is an invariant of the loop. *)
Lemma for_each_inv {A St : Type} (I : St → Prop) (body : A → St → result St)
    xs s s' :
  (∀ x t t', x ∈ xs → I t → body x t = Ok t' → I t') →
  I s → for_each xs body s = Ok s' → I s'.
Proof.
  revert s. induction xs as [|x xs IH]; intros s Hbody Hs H; simpl in H.
  - by inversion H; subst.
  - inv_bind H. eapply IH; [| |exact H].
    + intros y t t' Hy. apply Hbody. by right.
    + eapply Hbody; [by left | exact Hs | exact Hb].
Qed.

(** A loop that succeeds on [n] epochs succeeds on every prefix. *)
Lemma for_each_seq_prefix {St : Type} (body : nat → St → result St) n k s s' :
  k ≤ n → for_each (seq 0 n) body s = Ok s' →
  ∃ t, for_each (seq 0 k) body s = Ok t
       ∧ for_each (seq k (n - k)) body t = Ok s'.
Proof.
  intros Hk H. replace n with (k + (n - k)) in H at 1 by lia.
  rewrite seq_app, for_each_app in H. inv_bind H. eauto.
Qed.

Lemma for_each_seq_S {St : Type} (body : nat → St → result St) i n s :
  for_each (seq i (S n)) body s = for_each (seq i n) body s ≫= body (i + n).
Proof.
  rewrite seq_S, for_each_app. destruct (for_each (seq i n) body s); simpl; [|done].
  by destruct (body (i + n) a).
Qed.

Lemma for_each_seq_ind {St : Type} (I : nat → St → Prop)
    (body : nat → St → result St) i n s s' :
  I i s →
  (∀ k t t', i ≤ k < i + n → I k t → body k t = Ok t' → I (S k) t') →
  for_each (seq i n) body s = Ok s' → I (i + n) s'.
Proof.
  revert s'. induction n as [|n IH]; intros s' Hs Hstep H.
  - simpl in H. inversion H; subst. by rewrite Nat.add_0_r.
  - rewrite for_each_seq_S in H. inv_bind H.
    rewrite Nat.add_succ_r. eapply Hstep; [lia| |exact H].
    apply IH; [done| |done]. intros k t t' Hk. apply Hstep. lia.
Qed.

(** ** The epoch loop *)

Section EngineFacts.
Context {T : Torch}.

Implicit Types (w : world) (f : frame) (o : objs) (d : state_dict).

Arguments epoch_body : simpl never.
Arguments train_batch : simpl never.
Arguments val_batch : simpl never.
Arguments print__batch_info : simpl never.
Arguments select_checkpoint : simpl never.
Arguments optimizer_step : simpl never.
Arguments iter_loader : simpl never.

Lemma list_index_Ok (xs : list fl) i x :
  list_index xs i = Ok x → xs !! i = Some x.
Proof. unfold list_index. destruct (xs !! i); congruence. Qed.

(** What a completed epoch did, step by step. *)
Lemma epoch_body_inv ua tl vl ft fv e f w f' w' :
  epoch_body ua tl vl ft fv e (f, w) = Ok (f', w') →
  ∃ o tr w3 va w5 v tacc vacc,
    let t0 := (perf_counter w).1 in
    let tb := (iter_loader tl (perf_counter w).2).1 in
    let w2 := (iter_loader tl (perf_counter w).2).2 in
    let m := set_training false (model o) in
    let vb := (iter_loader vl w3).1 in
    let w4 := (iter_loader vl w3).2 in
    let sel := select_checkpoint (Objs m (optimizer o) (scaler o)) v
                 (min_val_loss f) (checkpoint f) w5 in
    let tls := train_losses f ++
                 [fl_div (np_sum (loss_perEpoch tr))
                    (fl_of_nat (length (dl_dataset tl)))] in
    let vls := val_losses f ++
                 [fl_div (np_sum (loss_perEpoch va))
                    (fl_of_nat (length (dl_dataset vl)))] in
    for_each (enumerate tb) (train_batch ua tl e t0 ft)
      (objects f, tally0, w2) = Ok (o, tr, w3)
    ∧ for_each (enumerate vb) (val_batch m vl e t0 fv) (tally0, w4)
      = Ok (va, w5)
    ∧ vls !! e = Some v
    ∧ py_truediv (num_correct tr) (num_samples tr) = Ok tacc
    ∧ py_truediv (num_correct va) (num_samples va) = Ok vacc
    ∧ f' = Frame (Objs (set_training true m) (optimizer o) (scaler o))
             tls vls (train_accs f ++ [tacc]) (val_accs f ++ [vacc])
             sel.1.1 sel.1.2
    ∧ heap w' = heap sel.2 ∧ next_loc w' = next_loc sel.2.
Proof.
  unfold epoch_body. intros H.
  destruct (perf_counter w) as [t0 w1] eqn:E1.
  destruct (iter_loader tl w1) as [tb w2] eqn:E2.
  inv_bind H. destruct a as [[o tr] w3].
  destruct (iter_loader vl w3) as [vb w4] eqn:E3.
  inv_bind H. destruct a as [va w5].
  inv_bind H. rename a into v. apply list_index_Ok in Hb1.
  destruct (select_checkpoint _ v _ _ w5) as [[minv ck] w6] eqn:E4.
  inv_bind H. rename a into tacc.
  inv_bind H. rename a into vacc.
  destruct (perf_counter w6) as [now w7] eqn:E5.
  do 4 inv_bind H.
  inversion H; subst f' w'; clear H.
  exists o, tr, w3, va, w5, v, tacc, vacc. simpl.
  rewrite E2, E3, E4. simpl.
  inversion E5; subst now w7; simpl.
  repeat split; done.
Qed.

(** *** Writes and allocations leave other objects alone *)

Lemma keeps_refl P n w : keeps P n w w.
Proof. by split. Qed.

Lemma keeps_trans P n w1 w2 w3 :
  keeps P n w1 w2 → keeps P n w2 w3 → keeps P n w1 w3.
Proof.
  intros [H1 H1'] [H2 H2']. split; [lia|].
  intros l HP Hl. by rewrite H2', H1'.
Qed.

Lemma keeps_same_heap P n w w' :
  heap w' = heap w → next_loc w' = next_loc w → keeps P n w w'.
Proof. intros Hh Hn. split; [lia|]. intros. by rewrite Hh. Qed.

Lemma store_keeps P n l v w : (P l → n ≤ l) → keeps P n w (store l v w).
Proof.
  intros Hl. split; [done|]. intros l' HP Hl'. simpl.
  apply lookup_insert_ne. intros ->. specialize (Hl HP). lia.
Qed.

Lemma alloc_keeps P n v w : n ≤ next_loc w → keeps P n w (alloc v w).2.
Proof.
  intros Hn. split; simpl; [lia|]. intros l HP Hl.
  apply lookup_insert_ne. lia.
Qed.

Lemma keeps_load P n w w' l :
  keeps P n w w' → P l → l < n → load w' l = load w l.
Proof.
  intros [_ H] HP Hl. unfold load.
  by rewrite !lookup_total_alt, H.
Qed.

Lemma keeps_values P n w w' d :
  keeps P n w w' → (∀ l, l ∈ locs_of d → P l ∧ l < n) →
  values w' d = values w d.
Proof.
  intros Hk Hd. unfold values. apply list_fmap_ext.
  intros i [k l] Hi. unfold prod_map; simpl. f_equal.
  destruct (Hd l) as [HP Hl].
  - unfold locs_of. apply list_elem_of_fmap. exists (k, l).
    split; [done|]. by eapply list_elem_of_lookup_2.
  - by eapply keeps_load.
Qed.

Lemma store_all_keeps P n ls vs w :
  (∀ l, l ∈ ls → P l → n ≤ l) → keeps P n w (store_all ls vs w).
Proof.
  unfold store_all. revert vs w.
  induction ls as [|l ls IH]; intros vs w Hls; destruct vs as [|v vs];
    simpl; try apply keeps_refl.
  eapply keeps_trans; [apply store_keeps | apply IH].
  - apply Hls. by left.
  - intros l' Hl'. apply Hls. by right.
Qed.

Lemma store_all_next_loc ls vs w :
  next_loc (store_all ls vs w) = next_loc w.
Proof.
  unfold store_all. revert vs w.
  induction ls as [|l ls IH]; intros vs w; destruct vs as [|v vs];
    simpl; try done.
  by rewrite IH.
Qed.

Lemma assoc_locs_of k d l : assoc k d = Some l → l ∈ locs_of d.
Proof.
  induction d as [|[k' l'] d IH]; simpl; [done|].
  destruct (decide (k = k')).
  - intros [= ->]. by left.
  - intros H. right. by apply IH.
Qed.

(** The optimizer's state after a step: the old entries, then objects
    allocated by the step. *)
Lemma write_state_keeps P n new st w st' w' :
  n ≤ next_loc w →
  (∀ l, l ∈ locs_of st → l < next_loc w ∧ (P l → n ≤ l)) →
  write_state new st w = (st', w') →
  keeps P n w w'
  ∧ ∀ l, l ∈ locs_of st' → l < next_loc w' ∧ (P l → n ≤ l).
Proof.
  revert st w. induction new as [|[k v] new IH]; intros st w Hn Hst H;
    simpl in H.
  - inversion H; subst. split; [apply keeps_refl | done].
  - destruct (assoc k st) as [l|] eqn:Ek.
    + apply assoc_locs_of in Ek. destruct (Hst l Ek) as [Hl HlP].
      apply IH in H as [H1 H2]; [|done|done].
      split; [|done]. eapply keeps_trans; [by apply store_keeps | done].
    + apply IH in H as [H1 H2]; simpl; [| lia |].
      * split; [|done].
        eapply keeps_trans; [by apply (alloc_keeps P n v w) | done].
      * intros l. unfold locs_of. rewrite fmap_app, elem_of_app.
        intros [Hl | Hl].
        -- destruct (Hst l Hl). split; [lia | done].
        -- apply list_elem_of_singleton in Hl. simpl in Hl. subst l.
           split; [lia | intros _; lia].
Qed.

Lemma optimizer_step_keeps P n ua sc out b opt w opt' sc' w' :
  n ≤ next_loc w →
  (∀ l, l ∈ param_groups opt ++ locs_of (state opt) →
        l < next_loc w ∧ (P l → n ≤ l)) →
  optimizer_step ua sc out b opt w = (opt', sc', w') →
  keeps P n w w'
  ∧ param_groups opt' = param_groups opt
  ∧ ∀ l, l ∈ locs_of (state opt') → l < next_loc w' ∧ (P l → n ≤ l).
Proof.
  intros Hn Hlive H. unfold optimizer_step in H.
  destruct (amp_step _ _ _ _ _ _) as [[ps st] sc''].
  destruct (write_state _ _ _) as [st' w''] eqn:Ew.
  inversion H; subst; clear H. simpl.
  apply (write_state_keeps P n) in Ew as [H1 H2].
  - split; [|done]. eapply keeps_trans; [|exact H1].
    apply store_all_keeps. intros l Hl. apply Hlive.
    rewrite elem_of_app. by left.
  - by rewrite store_all_next_loc.
  - intros l Hl. rewrite store_all_next_loc. apply Hlive.
    rewrite elem_of_app. by right.
Qed.

Lemma keeps_weaken (P Q : loc → Prop) n n' w w' :
  keeps P n w w' → (∀ l, Q l → P l) → n' ≤ n → keeps Q n' w w'.
Proof.
  intros [H1 H2] HQ Hn. split; [done|]. intros l Hl Hlt.
  apply H2; [auto | lia].
Qed.

Lemma inv_weaken P n o w w' :
  inv P n o w → next_loc w ≤ next_loc w' → inv P n o w'.
Proof.
  intros [Hn Hl] Hle. split; [lia|]. intros l Hlive.
  destruct (Hl l Hlive). split; [lia | done].
Qed.

Lemma print__batch_info_heap mode i ld e t0 loss fr w w' :
  print__batch_info mode i ld e t0 loss fr w = Ok w' →
  heap w' = heap w ∧ next_loc w' = next_loc w.
Proof.
  unfold print__batch_info. intros H. inv_bind H.
  destruct (decide (fr = 0%Z)); [discriminate|].
  destruct (decide _); [|by inversion H].
  inv_bind H. simpl in H. inv_bind H. by inversion H.
Qed.

(** A training batch writes only live objects and objects it creates. *)
Lemma train_batch_keeps P n ua tl e t0 ft ib o tr w o' tr' w' :
  inv P n o w →
  train_batch ua tl e t0 ft ib (o, tr, w) = Ok (o', tr', w') →
  inv P n o' w' ∧ keeps P n w w'.
Proof.
  intros [Hn Hlive] H. unfold train_batch in H. destruct ib as [i b].
  destruct (optimizer_step _ _ _ _ _ _) as [[opt sc] w1] eqn:Eo.
  inv_bind H. inversion H; subst; clear H.
  apply print__batch_info_heap in Hb as [Hh Hnl].
  apply (optimizer_step_keeps P n) in Eo as (Hk & Hpg & Hst); [|done|].
  - split.
    + split; [destruct Hk; lia|]. unfold live; simpl.
      intros l. rewrite !elem_of_app. intros [Hl | [Hl | Hl]].
      * destruct (Hlive l) as [? ?].
        { unfold live. rewrite !elem_of_app. by left. }
        split; [destruct Hk; lia | done].
      * rewrite Hpg in Hl. destruct (Hlive l) as [? ?].
        { unfold live. rewrite !elem_of_app. right. by left. }
        split; [destruct Hk; lia | done].
      * rewrite Hnl. by apply Hst.
    + eapply keeps_trans; [exact Hk | by apply keeps_same_heap].
  - intros l Hl. apply Hlive. unfold live. rewrite elem_of_app. by right.
Qed.

Lemma train_loop_keeps P n ua tl e t0 ft bs o tr w o' tr' w' :
  inv P n o w →
  for_each bs (train_batch ua tl e t0 ft) (o, tr, w) = Ok (o', tr', w') →
  inv P n o' w' ∧ keeps P n w w'.
Proof.
  intros Hinv H.
  refine (for_each_inv (λ s, inv P n s.1.1 s.2 ∧ keeps P n w s.2)
            _ _ _ _ _ _ H); simpl.
  - intros ib [[o1 tr1] w1] [[o2 tr2] w2] _ [Hi Hk] Hstep; simpl in *.
    apply (train_batch_keeps P n) in Hstep as [Hi' Hk']; [|done].
    split; [done | by eapply keeps_trans].
  - split; [done | apply keeps_refl].
Qed.

Lemma val_batch_heap m vl e t0 fv ib tr w tr' w' :
  val_batch m vl e t0 fv ib (tr, w) = Ok (tr', w') →
  heap w' = heap w ∧ next_loc w' = next_loc w.
Proof.
  unfold val_batch. destruct ib as [i b]. intros H. inv_bind H.
  inversion H; subst. by eapply print__batch_info_heap.
Qed.

(** Validation writes no tensor. *)
Lemma val_loop_heap m vl e t0 fv bs tr w tr' w' :
  for_each bs (val_batch m vl e t0 fv) (tr, w) = Ok (tr', w') →
  heap w' = heap w ∧ next_loc w' = next_loc w.
Proof.
  intros H.
  refine (for_each_inv (λ s, heap s.2 = heap w ∧ next_loc s.2 = next_loc w)
            _ _ _ _ _ _ H); simpl; [|done].
  intros ib [tr1 w1] [tr2 w2] _ [Hh Hn] Hstep; simpl in *.
  apply val_batch_heap in Hstep as [-> ->]. done.
Qed.

Lemma iter_loader_heap ld w :
  heap (iter_loader ld w).2 = heap w
  ∧ next_loc (iter_loader ld w).2 = next_loc w.
Proof. unfold iter_loader. by destruct (dl_shuffle ld). Qed.

(** [deepcopy] creates objects only; the copy shows the values of the
    original. *)
Lemma deepcopy_spec d w d' w' :
  (∀ l, l ∈ locs_of d → l < next_loc w) →
  deepcopy d w = (d', w') →
  keeps (λ _, True) (next_loc w) w w'
  ∧ values w' d' = values w d
  ∧ d'.*1 = d.*1
  ∧ ∀ l, l ∈ locs_of d' → next_loc w ≤ l < next_loc w'.
Proof.
  revert w d' w'. induction d as [|[k l] d IH]; intros w d' w' Hd H;
    simpl in H.
  - inversion H; subst. split; [apply keeps_refl|]. do 2 (split; [done|]).
    intros l Hl. by apply elem_of_nil in Hl.
  - destruct (deepcopy d _) as [d'' w''] eqn:Ed.
    inversion H; subst; clear H.
    apply IH in Ed as (Hk & Hv & Hkeys & Hlocs); simpl in *.
    + assert (keeps (λ _, True) (next_loc w) w w') as Hk'.
      { eapply keeps_trans; [by apply (alloc_keeps _ _ (load w l) w)|].
        eapply keeps_weaken; [exact Hk | done | simpl; lia]. }
      split; [done|]. split; [|split].
      * unfold values in *. simpl. f_equal.
        -- unfold prod_map; simpl. f_equal.
           rewrite (keeps_load _ _ _ _ _ Hk I); [|lia].
           unfold load at 1; simpl. by rewrite lookup_total_insert_eq.
        -- rewrite Hv. apply list_fmap_ext. intros i [k' l'] Hi.
           unfold prod_map; simpl. f_equal. unfold load at 1; simpl.
           rewrite lookup_total_insert_ne; [done|].
           assert (l' < next_loc w); [|lia]. apply Hd. right.
           unfold locs_of. apply list_elem_of_fmap. exists (k', l').
           split; [done | by eapply list_elem_of_lookup_2].
      * by f_equal.
      * intros l'. unfold locs_of; simpl. intros Hl'.
        apply elem_of_cons in Hl' as [-> | Hl'].
        -- destruct Hk. simpl in *. lia.
        -- apply Hlocs in Hl'. lia.
    + intros l' Hl'. simpl. assert (l' < next_loc w); [|lia].
      apply Hd. by right.
Qed.

Lemma held_checkpoint sd od l :
  held (<["optimizer" := od]> {["state_dict" := sd]}) l
  ↔ l ∈ locs_of sd ∨ l ∈ locs_of od.
Proof.
  unfold held. split.
  - intros (k & d & Hk & Hl).
    destruct (decide (k = "optimizer")) as [->|Hne].
    + rewrite lookup_insert_eq in Hk. inversion Hk; subst. by right.
    + rewrite lookup_insert_ne in Hk by done.
      apply lookup_singleton_Some in Hk as [_ <-]. by left.
  - intros [Hl | Hl].
    + exists "state_dict", sd. split; [|done].
      rewrite lookup_insert_ne by done. apply lookup_singleton_eq.
    + exists "optimizer", od. split; [|done]. apply lookup_insert_eq.
Qed.

(** The checkpoint update: on a strict improvement, fresh copies showing
    the live values; otherwise nothing changes. *)
Lemma select_checkpoint_spec o v minv ck w minv' ck' w' :
  allocated o w →
  select_checkpoint o v minv ck w = (minv', ck', w') →
  keeps (λ _, True) (next_loc w) w w'
  ∧ ((fl_ltb v minv = true ∧ minv' = v
      ∧ ∃ c, ck' = Some c ∧ is_snapshot c w' o w'
             ∧ ∀ l, held c l → next_loc w ≤ l < next_loc w')
     ∨ (fl_ltb v minv = false ∧ minv' = minv ∧ ck' = ck ∧ w' = w)).
Proof.
  intros Halloc H. unfold select_checkpoint in H.
  destruct (fl_ltb v minv) eqn:Elt.
  - destruct (deepcopy (model_state_dict _) w) as [sd w1] eqn:E1.
    destruct (deepcopy (optimizer_state_dict _) w1) as [od w2] eqn:E2.
    inversion H; subst; clear H.
    apply deepcopy_spec in E1 as (Hk1 & Hv1 & _ & Hl1).
    2:{ intros l Hl. apply Halloc. unfold live. rewrite !elem_of_app.
        by left. }
    apply deepcopy_spec in E2 as (Hk2 & Hv2 & _ & Hl2).
    2:{ intros l Hl. destruct Hk1 as [Hle _].
        assert (l < next_loc w); [|lia]. apply Halloc. unfold live.
        rewrite !elem_of_app. right. by right. }
    assert (keeps (λ _, True) (next_loc w) w w') as Hk.
    { eapply keeps_trans; [exact Hk1|].
      eapply keeps_weaken; [exact Hk2 | done | by destruct Hk1]. }
    split; [done|]. left. split; [done|]. split; [done|].
    eexists. split; [done|]. split.
    + exists sd, od. split; [done|]. split.
      * rewrite (keeps_values _ _ _ _ _ Hk2).
        2:{ intros l Hl. split; [done|]. apply Hl1 in Hl. lia. }
        rewrite Hv1. symmetry. apply (keeps_values _ _ _ _ _ Hk).
        intros l Hl. split; [done|]. apply Halloc. unfold live.
        rewrite !elem_of_app. by left.
      * rewrite Hv2. rewrite (keeps_values _ _ _ _ _ Hk1).
        2:{ intros l Hl. split; [done|]. apply Halloc. unfold live.
            rewrite !elem_of_app. right. by right. }
        symmetry. apply (keeps_values _ _ _ _ _ Hk).
        intros l Hl. split; [done|]. apply Halloc. unfold live.
        rewrite !elem_of_app. right. by right.
    + intros l Hl. apply held_checkpoint in Hl as [Hl | Hl].
      * apply Hl1 in Hl. destruct Hk2. lia.
      * apply Hl2 in Hl. destruct Hk1. lia.
  - inversion H; subst. split; [apply keeps_refl|]. right. done.
Qed.

Lemma values_same_heap w w' d : heap w' = heap w → values w' d = values w d.
Proof. intros H. unfold values, load. by rewrite H. Qed.

Lemma inv_transfer P n o o' w w' :
  live o' = live o → next_loc w' = next_loc w →
  inv P n o w → inv P n o' w'.
Proof. unfold inv. intros -> ->. done. Qed.

Lemma allocated_inv o w : allocated o w ↔ inv (λ _, False) 0 o w.
Proof.
  unfold allocated, inv. split.
  - intros H. split; [lia|]. intros l Hl. split; [by apply H | done].
  - intros [_ H] l Hl. by apply H.
Qed.

(** One completed epoch: which objects it may have written, and what it
    did to the running minimum and to the checkpoint. *)
Lemma epoch_body_spec ua tl vl ft fv e f w f' w' :
  allocated (objects f) w →
  epoch_body ua tl vl ft fv e (f, w) = Ok (f', w') →
  (∀ P n, inv P n (objects f) w →
          inv P n (objects f') w' ∧ keeps P n w w')
  ∧ ∃ v, val_losses f' !! e = Some v ∧ checkpoint_step f v f' w'.
Proof.
  unfold checkpoint_step.
  intros Halloc H. apply epoch_body_inv in H
    as (o & tr & w3 & va & w5 & v & tacc & vacc & H); simpl in H.
  destruct H as (Htrain & Hval & Hv & _ & _ & -> & Hh' & Hn').
  destruct (iter_loader_heap tl
              (World (heap w) (next_loc w) (stdout w) (S (ticks w))
                 (draws w))) as [Hh2 Hn2]; simpl in Hh2, Hn2.
  destruct (iter_loader_heap vl w3) as [Hh4 Hn4].
  apply val_loop_heap in Hval as [Hh5 Hn5].
  destruct (select_checkpoint _ v _ _ w5) as [[minv ck] w6] eqn:Esel.
  simpl in *.
  assert (∀ P n, inv P n (objects f) w →
            inv P n o w3 ∧ keeps P n w w3) as Hframe.
  { intros P n Hinv.
    apply (train_loop_keeps P n) in Htrain as [Hi Hk].
    - split; [done|]. eapply keeps_trans; [|exact Hk].
      by apply keeps_same_heap.
    - eapply inv_transfer; [done | exact Hn2 | done]. }
  assert (allocated
            (Objs (set_training false (model o)) (optimizer o) (scaler o))
            w5) as Halloc5.
  { apply allocated_inv.
    destruct (Hframe (λ _, False) 0) as [Hi _]; [by apply allocated_inv|].
    eapply inv_transfer; [done | | exact Hi]. by rewrite Hn5, Hn4. }
  apply select_checkpoint_spec in Esel as [Hk6 Hcases]; [|done].
  split.
  - intros P n Hinv. destruct (Hframe P n Hinv) as [Hi Hk].
    assert (keeps P n w3 w') as Hk'.
    { eapply keeps_trans.
      - apply (keeps_same_heap P n w3 w5); [by rewrite Hh5, Hh4 | by rewrite Hn5, Hn4].
      - eapply keeps_trans.
        + eapply keeps_weaken; [exact Hk6 | done |].
          rewrite Hn5, Hn4. by destruct Hi.
        + by apply keeps_same_heap. }
    split; [|by eapply keeps_trans].
    eapply inv_transfer; [| reflexivity |].
    + reflexivity.
    + eapply inv_weaken; [exact Hi | by destruct Hk'].
  - exists v. split; [done|].
    destruct Hcases as [(Hlt & -> & c & -> & Hsnap & Hheld)
                       | (Hlt & -> & -> & ->)].
    + left. split; [done|]. split; [done|]. exists c. split; [done|]. split.
      * destruct Hsnap as (sd & od & -> & Hsd & Hod). exists sd, od.
        split; [done|]. simpl in *.
        by rewrite !(values_same_heap w6 w').
      * intros l Hl. apply Hheld in Hl. split; [lia|].
        intros Hlive. apply Halloc5 in Hlive. lia.
    + right. done.
Qed.

Lemma epoch_body_appends ua tl vl ft fv e f w f' w' :
  epoch_body ua tl vl ft fv e (f, w) = Ok (f', w') → one_entry_appended f f'.
Proof.
  intros H. apply epoch_body_inv in H
    as (o & tr & w3 & va & w5 & v & tacc & vacc & H); simpl in H.
  destruct H as (_ & _ & _ & _ & _ & -> & _). repeat split; simpl; eauto.
Qed.

Lemma one_entry_appended_length f f' k :
  one_entry_appended f f' → metrics_length f k → metrics_length f' (S k).
Proof.
  intros ([a Ha] & [b Hb] & [c Hc] & [d Hd]) (H1 & H2 & H3 & H4).
  unfold metrics_length. rewrite Ha, Hb, Hc, Hd, !length_app; simpl. lia.
Qed.

Lemma run_epochs_lengths ua tl vl ft fv n m opt w f w' :
  run_epochs ua tl vl ft fv n (frame0 m opt ua, w) = Ok (f, w') →
  metrics_length f n.
Proof.
  intros H. unfold run_epochs in H.
  refine (for_each_seq_ind (λ k s, metrics_length s.1 k) _ 0 n _ _ _ _ H).
  - by repeat split.
  - intros k [f1 w1] [f2 w2] _ Hk Hbody. simpl in *.
    eapply one_entry_appended_length; [|done]. by eapply epoch_body_appends.
Qed.

Lemma tracking_min run k f w :
  tracking run k f w →
  ∀ e' v', val_losses f !! e' = Some v' →
           fl_ltb v' (min_val_loss f) = false.
Proof.
  unfold tracking. destruct (checkpoint f) as [ck|].
  - intros (e & v & fe & we & _ & _ & -> & _ & H & _). done.
  - intros [-> H]. done.
Qed.

Lemma is_snapshot_keeps ck w w' o w_at :
  keeps (held ck) (next_loc w) w w' →
  (∀ l, held ck l → l < next_loc w) →
  is_snapshot ck w o w_at → is_snapshot ck w' o w_at.
Proof.
  intros Hk Hheld (sd & od & -> & Hsd & Hod). exists sd, od.
  split; [done|]. rewrite <- Hsd, <- Hod.
  split; eapply keeps_values; try exact Hk; intros l Hl.
  - assert (held (<["optimizer":=od]> {["state_dict":=sd]}) l) as Hh.
    { apply held_checkpoint. by left. }
    split; [done | by apply Hheld].
  - assert (held (<["optimizer":=od]> {["state_dict":=sd]}) l) as Hh.
    { apply held_checkpoint. by right. }
    split; [done | by apply Hheld].
Qed.

(** The invariant of the epoch loop. *)
Lemma run_epochs_tracking ua tl vl ft fv m opt w0 n f w :
  allocated (Objs m opt (GradScaler ua)) w0 →
  run_epochs ua tl vl ft fv n (frame0 m opt ua, w0) = Ok (f, w) →
  metrics_length f n
  ∧ allocated (objects f) w
  ∧ checkpoint_separate f w
  ∧ tracking (λ j, run_epochs ua tl vl ft fv j (frame0 m opt ua, w0)) n f w.
Proof.
  intros Halloc0 H.
  set (run := λ j, run_epochs ua tl vl ft fv j (frame0 m opt ua, w0)).
  cut (run n = Ok (f, w) ∧ metrics_length f n ∧ allocated (objects f) w
       ∧ checkpoint_separate f w ∧ tracking run n f w); [tauto|].
  unfold run_epochs in H.
  refine (for_each_seq_ind
            (λ k s, run k = Ok s ∧ metrics_length s.1 k
                    ∧ allocated (objects s.1) s.2
                    ∧ checkpoint_separate s.1 s.2
                    ∧ tracking run k s.1 s.2) _ 0 n _ (f, w) _ _ H).
  - split; [done|]. split; [by repeat split|]. split; [done|].
    split; [intros ck l [=] | by split].
  - clear H f w. intros k [f w] [f' w'] _ (Hrun & Hlen & Halloc & Hsep & Htr)
      Hbody. simpl in *.
    assert (run (S k) = Ok (f', w')) as Hrun'.
    { unfold run, run_epochs. rewrite for_each_seq_S. simpl.
      fold (run_epochs ua tl vl ft fv k (frame0 m opt ua, w0)).
      fold (run k). by rewrite Hrun. }
    pose proof (epoch_body_appends _ _ _ _ _ _ _ _ _ _ Hbody) as Happ.
    pose proof (one_entry_appended_length _ _ _ Happ Hlen) as Hlen'.
    destruct Happ as (_ & [x Hx] & _).
    destruct (epoch_body_spec _ _ _ _ _ _ _ _ _ _ Halloc Hbody)
      as (Hframe & v & Hv & Hcases).
    assert (x = v) as ->.
    { rewrite Hx in Hv. destruct Hlen as (_ & Hl & _).
      rewrite lookup_app_r in Hv by lia.
      rewrite Hl, Nat.sub_diag in Hv. by inversion Hv. }
    assert (∀ e' v', val_losses f' !! e' = Some v' →
              (e' < k ∧ val_losses f !! e' = Some v') ∨ (e' = k ∧ v' = v))
      as Hsplit.
    { intros e' v' He'. rewrite Hx in He'. destruct Hlen as (_ & Hl & _).
      destruct (decide (e' < k)).
      - left. by rewrite lookup_app_l in He' by lia.
      - right. assert (e' < S k).
        { apply lookup_lt_Some in He'. rewrite length_app in He'.
          simpl in He'. lia. }
        assert (e' = k) as -> by lia. split; [done|].
        rewrite Hx in Hv. rewrite Hv in He'. by inversion He'. }
    assert (allocated (objects f') w') as Halloc'.
    { apply allocated_inv. apply Hframe. by apply allocated_inv. }
    split; [done|]. split; [done|]. split; [done|].
    pose proof (tracking_min _ _ _ _ Htr) as Hmin.
    unfold checkpoint_step in Hcases.
    destruct Hcases as [(Hlt & Hm & c & Hc & Hsnap & Hheld)
                       | (Hlt & Hm & Hc)].
    + (* a strict improvement: the checkpoint is taken now *)
      split.
      * intros ck l Hck Hl. rewrite Hc in Hck. inversion Hck; subst ck.
        by apply Hheld.
      * unfold tracking. rewrite Hc. exists k, v, f', w'.
        split; [lia|]. split; [done|]. split; [done|].
        split; [by eapply fl_ltb_PInf|]. split; [|split].
        -- intros e' v' He'. destruct (Hsplit e' v' He') as [[_ Hold]|[_ ->]].
           ++ destruct (fl_ltb v' v) eqn:E; [|done].
              rewrite <- (Hmin e' v' Hold). symmetry.
              by eapply fl_ltb_trans.
           ++ apply fl_ltb_irrefl.
        -- intros e' v' Hlt' He'.
           destruct (Hsplit e' v' He') as [[_ Hold]|[-> _]]; [|lia].
           destruct (fl_leb v' v) eqn:E; [|done].
           rewrite <- (Hmin e' v' Hold). symmetry.
           by eapply fl_leb_ltb_trans.
        -- done.
    + (* no improvement: nothing changes *)
      assert (∀ ck, checkpoint f = Some ck →
                keeps (held ck) (next_loc w) w w'
                ∧ ∀ l, held ck l → l < next_loc w' ∧ l ∉ live (objects f'))
        as Hold.
      { intros ck Hck.
        destruct (Hframe (held ck) (next_loc w)) as [[_ Hi] Hk].
        - split; [done|]. intros l Hl. split; [by apply Halloc|].
          intros Hh. destruct (Hsep ck l Hck Hh) as [_ Hnl]. done.
        - split; [done|]. intros l Hh.
          destruct (Hsep ck l Hck Hh) as [Hl _].
          split; [destruct Hk; lia|]. intros Hlive.
          destruct (Hi l Hlive) as [_ Hge]. specialize (Hge Hh). lia. }
      split.
      * intros ck l Hck Hl. rewrite Hc in Hck. by apply (Hold ck).
      * unfold tracking in *. rewrite Hc, Hm.
        destruct (checkpoint f) as [ck|] eqn:Eck.
        -- destruct Htr as (e & ve & fe & we & He & Hve & Hmv & Hfin & Hall
                            & Hearly & Hrune & Hsnap).
           exists e, ve, fe, we. split; [lia|]. split.
           { rewrite Hx. rewrite lookup_app_l; [done|].
             by apply lookup_lt_Some in Hve. }
           split; [done|]. split; [done|]. split; [|split; [|split; [done|]]].
           ++ intros e' v' He'.
              destruct (Hsplit e' v' He') as [[_ Ho]|[_ ->]]; [by eapply Hall|].
              by rewrite <- Hmv.
           ++ intros e' v' Hlt' He'.
              destruct (Hsplit e' v' He') as [[_ Ho]|[-> _]];
                [by eapply Hearly|].
              apply lookup_lt_Some in Hve. destruct Hlen as (_ & Hl & _). lia.
           ++ destruct (Hold ck eq_refl) as [Hk _].
              eapply is_snapshot_keeps; [exact Hk | | exact Hsnap].
              intros l Hl. by apply (Hsep ck l).
        -- destruct Htr as [Hinf Hall]. split; [done|].
           intros e' v' He'.
           destruct (Hsplit e' v' He') as [[_ Ho]|[_ ->]]; [by eapply Hall|].
           by rewrite <- Hinf.
Qed.

Lemma train_and_validate_inv m opt N ua tl vl ft fv w out w' :
  train_and_validate m opt N ua tl vl ft fv w = Ok (out, w') →
  ∃ f, run_epochs ua tl vl ft fv (Z.to_nat N)
         (frame0 m opt ua, (perf_counter w).2) = Ok (f, w')
       ∧ checkpoint f = Some (best_checkpoint out)
       ∧ out = Outcome (perf_counter w).1 (best_checkpoint out)
                 (train_losses f) (val_losses f) (train_accs f)
                 (val_accs f) (objects f).
Proof.
  unfold train_and_validate, start_timer. simpl. intros H. inv_bind H.
  destruct a as [f w1]. exists f.
  destruct (checkpoint f) as [ck|] eqn:Eck; [|discriminate].
  inversion H; subst. simpl. by rewrite Hb.
Qed.

(** What a run of [N >= 1] epochs returns: four sequences of length [N],
    every epoch [k < N] having found them at length [k] and appended one
    entry to each. *)
Lemma returned_metrics_length m opt N ua tl vl ft fv w out w' :
  (1 ≤ N)%Z →
  train_and_validate m opt N ua tl vl ft fv w = Ok (out, w') →
  (Z.of_nat (length (out_train_losses out)) = N
   ∧ Z.of_nat (length (out_val_losses out)) = N
   ∧ Z.of_nat (length (out_train_accs out)) = N
   ∧ Z.of_nat (length (out_val_accs out)) = N)
  ∧ ∀ k, k < Z.to_nat N →
      ∃ fk wk fk' wk',
        run_epochs ua tl vl ft fv k
          (frame0 m opt ua, (perf_counter w).2) = Ok (fk, wk)
        ∧ run_epochs ua tl vl ft fv (S k)
            (frame0 m opt ua, (perf_counter w).2) = Ok (fk', wk')
        ∧ epoch_body ua tl vl ft fv k (fk, wk) = Ok (fk', wk')
        ∧ metrics_length fk k
        ∧ one_entry_appended fk fk'.
Proof.
  intros HN H. apply train_and_validate_inv in H as (f & Hrun & _ & ->).
  simpl. split.
  - apply run_epochs_lengths in Hrun as (H1 & H2 & H3 & H4).
    rewrite H1, H2, H3, H4. lia.
  - intros k Hk. unfold run_epochs in *.
    assert (S k ≤ Z.to_nat N) as Hle by lia.
    destruct (for_each_seq_prefix _ _ _ _ _ Hle Hrun)
      as ([fk' wk'] & Hk' & _).
    pose proof Hk' as Hk''. rewrite for_each_seq_S in Hk''.
    inv_bind Hk''. destruct a as [fk wk]. simpl in Hk''.
    exists fk, wk, fk', wk'.
    split; [done|]. split; [done|]. split; [done|].
    split; [by eapply run_epochs_lengths | by eapply epoch_body_appends].
Qed.

Lemma inv_allocated P n o w : inv P n o w → allocated o w.
Proof. intros [_ H] l Hl. by apply H. Qed.

Lemma perf_counter_allocated o w :
  allocated o w → allocated o (perf_counter w).2.
Proof. done. Qed.

(** C1, as the code has it: a run of [N >= 1] epochs that returns
    starts from the running minimum [+inf]; each epoch [k] captures fresh
    copies of the model parameters and of the optimizer state exactly
    when its validation loss is strictly below the running minimum; and
    the checkpoint returned is the snapshot taken at the end of an epoch
    [e] whose validation loss [v] is such that no epoch has a loss
    strictly below [v], [v] is below or equal to the loss of every epoch
    whose loss is not NaN, and no earlier epoch has a loss below or equal
    to [v] (so [e] is the earliest arg-min, and need not be the last
    epoch). *)
Theorem best_checkpoint_is_earliest_minimum m opt N ua tl vl ft fv w out w' :
  (1 ≤ N)%Z →
  allocated (Objs m opt (GradScaler ua)) w →
  train_and_validate m opt N ua tl vl ft fv w = Ok (out, w') →
  let run := λ j, run_epochs ua tl vl ft fv j
                    (frame0 m opt ua, (perf_counter w).2) in
  (min_val_loss (frame0 m opt ua) = PInf
   ∧ checkpoint (frame0 m opt ua) = None)
  ∧ (∀ k, k < Z.to_nat N →
       ∃ fk wk fk' wk' vk,
         run k = Ok (fk, wk) ∧ run (S k) = Ok (fk', wk')
         ∧ val_losses fk' !! k = Some vk
         ∧ checkpoint_step fk vk fk' wk')
  ∧ ∃ e v fe we,
      (Z.of_nat e < N)%Z
      ∧ out_val_losses out !! e = Some v
      ∧ fl_ltb v PInf = true
      ∧ (∀ e' v', out_val_losses out !! e' = Some v' → fl_ltb v' v = false)
      ∧ (∀ e' v', out_val_losses out !! e' = Some v' → v' ≠ NaN →
                  fl_leb v v' = true)
      ∧ (∀ e' v', e' < e → out_val_losses out !! e' = Some v' →
                  fl_leb v' v = false)
      ∧ run (S e) = Ok (fe, we)
      ∧ is_snapshot (best_checkpoint out) w' (objects fe) we.
Proof.
  intros HN Halloc H run.
  apply train_and_validate_inv in H as (f & Hrun & Hck & Hout).
  split; [done|]. split.
  - intros k Hk. unfold run, run_epochs in *.
    assert (S k ≤ Z.to_nat N) as Hle by lia.
    destruct (for_each_seq_prefix _ _ _ _ _ Hle Hrun)
      as ([fk' wk'] & Hk' & _).
    pose proof Hk' as Hk''. rewrite for_each_seq_S in Hk''.
    inv_bind Hk''. destruct a as [fk wk]. simpl in Hk''.
    pose proof Hb as Hrunk.
    apply run_epochs_tracking in Hb as (_ & Hallk & _); [|done].
    destruct (epoch_body_spec _ _ _ _ _ _ _ _ _ _ Hallk Hk'')
      as (_ & vk & Hvk & Hstep).
    by exists fk, wk, fk', wk', vk.
  - apply run_epochs_tracking in Hrun as (_ & _ & _ & Htr); [|done].
    unfold tracking in Htr. rewrite Hck in Htr.
    destruct Htr as (e & v & fe & we & He & Hv & _ & Hfin & Hall & Hearly
                     & Hrune & Hsnap).
    rewrite Hout. simpl. exists e, v, fe, we.
    split; [lia|]. split; [done|]. split; [done|]. split; [done|].
    split; [|done].
    intros e' v' He' Hnan. apply fl_leb_total; [done| |by eapply Hall].
    by apply fl_ltb_not_nan in Hfin as [? _].
Qed.

(** C5: once the loop holds a checkpoint (after [n] epochs), the values
    stored in that checkpoint are the same in every later world of the
    run (after [n + k] epochs, whatever the optimizer did to the live
    parameters and to its state in between), and an in-place write to
    any live tensor of the model or of the optimizer does not change
    them either: the checkpoint holds objects of its own. *)
Theorem checkpoint_values_isolated m opt ua tl vl ft fv w0 n k f w f' w' ck :
  allocated (Objs m opt (GradScaler ua)) w0 →
  run_epochs ua tl vl ft fv n (frame0 m opt ua, w0) = Ok (f, w) →
  checkpoint f = Some ck →
  run_epochs ua tl vl ft fv (n + k) (frame0 m opt ua, w0) = Ok (f', w') →
  (∀ key d, ck !! key = Some d → values w' d = values w d)
  ∧ (∀ key d l x, ck !! key = Some d → l ∈ live (objects f) →
                  values (store l x w) d = values w d).
Proof.
  intros Halloc0 Hn Hck Hnk.
  pose proof (run_epochs_tracking _ _ _ _ _ _ _ _ _ _ _ Halloc0 Hn)
    as (_ & Halloc & Hsep & _).
  assert (∀ key d l, ck !! key = Some d → l ∈ locs_of d → held ck l)
    as Hheld by (intros key d l ? ?; by exists key, d).
  split.
  - unfold run_epochs in *. rewrite seq_app, for_each_app, Hn in Hnk.
    simpl in Hnk.
    assert (inv (held ck) (next_loc w) (objects f') w'
            ∧ keeps (held ck) (next_loc w) w w') as [_ Hk].
    { refine (for_each_seq_ind
                (λ j s, inv (held ck) (next_loc w) (objects s.1) s.2
                        ∧ keeps (held ck) (next_loc w) w s.2)
                _ n k _ (f', w') _ _ Hnk); simpl.
      - split; [|apply keeps_refl]. split; [done|]. intros l Hl.
        split; [by apply Halloc|]. intros Hh.
        by destruct (Hsep ck l Hck Hh).
      - intros j [f1 w1] [f2 w2] _ [Hi Hk1] Hbody. simpl in *.
        destruct (epoch_body_spec _ _ _ _ _ _ _ _ _ _
                    (inv_allocated _ _ _ _ Hi) Hbody) as (Hframe & _).
        destruct (Hframe _ _ Hi) as [Hi' Hk2].
        split; [done | by eapply keeps_trans]. }
    intros key d Hd. eapply keeps_values; [exact Hk|].
    intros l Hl. split; [by eapply Hheld|].
    by destruct (Hsep ck l Hck (Hheld _ _ _ Hd Hl)).
  - intros key d l x Hd Hl.
    apply (keeps_values (held ck) (next_loc w)).
    + apply store_keeps. intros Hh. by destruct (Hsep ck l Hck Hh).
    + intros l' Hl'. split; [by eapply Hheld|].
      by destruct (Hsep ck l' Hck (Hheld _ _ _ Hd Hl')).
Qed.

Lemma train_and_validate_unfold m opt N ua tl vl ft fv w :
  train_and_validate m opt N ua tl vl ft fv w
  = run_epochs ua tl vl ft fv (Z.to_nat N)
      (frame0 m opt ua, (perf_counter w).2)
    ≫= λ s, match checkpoint s.1 with
            | None => Raise (UnboundLocalError "checkpoint")
            | Some ck =>
                Ok (Outcome (perf_counter w).1 ck (train_losses s.1)
                      (val_losses s.1) (train_accs s.1) (val_accs s.1)
                      (objects s.1), s.2)
            end.
Proof.
  unfold train_and_validate, start_timer. simpl.
  destruct (run_epochs _ _ _ _ _ _ _) as [[f w']|]; done.
Qed.

Lemma select_checkpoint_cases o v minv ck w minv' ck' w' :
  select_checkpoint o v minv ck w = (minv', ck', w') →
  (fl_ltb v minv = true ∧ is_Some ck')
  ∨ (fl_ltb v minv = false ∧ ck' = ck).
Proof.
  unfold select_checkpoint. destruct (fl_ltb v minv).
  - destruct (deepcopy _ w) as [sd w1].
    destruct (deepcopy _ w1) as [od w2].
    intros [= <- <- <-]. left. split; [done | by eexists].
  - intros [= <- <- <-]. by right.
Qed.

(** A checkpoint is bound only after some validation loss was strictly
    below infinity. *)
Lemma run_epochs_checkpoint_bound ua tl vl ft fv m opt w0 n f w :
  run_epochs ua tl vl ft fv n (frame0 m opt ua, w0) = Ok (f, w) →
  is_Some (checkpoint f) →
  ∃ e v, val_losses f !! e = Some v ∧ fl_ltb v PInf = true.
Proof.
  intros H. unfold run_epochs in H.
  refine (for_each_seq_ind
            (λ k s, is_Some (checkpoint s.1) →
                    ∃ e v, val_losses s.1 !! e = Some v
                           ∧ fl_ltb v PInf = true)
            _ 0 n _ (f, w) _ _ H); simpl.
  - by intros [? [=]].
  - intros k [f1 w1] [f2 w2] _ IH Hbody. simpl in *.
    apply epoch_body_inv in Hbody
      as (o & tr & w3 & va & w5 & v & tacc & vacc & Hbody); simpl in Hbody.
    destruct Hbody as (_ & _ & Hv & _ & _ & -> & _). simpl.
    destruct (select_checkpoint _ v _ _ w5) as [[minv ck'] w6] eqn:Esel.
    apply select_checkpoint_cases in Esel as [[Hlt _] | [_ ->]]; simpl.
    + intros _. exists k, v. split; [done | by eapply fl_ltb_PInf].
    + intros Hsome. destruct (IH Hsome) as (e & v' & He & Hlt).
      exists e, v'. split; [|done].
      rewrite lookup_app_l; [done | by apply lookup_lt_Some in He].
Qed.

(** C4: a run with [num_epochs = 0] (or negative) leaves the four metric
    sequences empty and raises when the [return] reads the unbound
    [checkpoint]; more generally, a run in which no validation loss is
    strictly below the initial infinity raises: an error of an epoch if
    one occurs, and otherwise that same error of the [return]. *)
Theorem no_improvement_raises m opt N ua tl vl ft fv w :
  let start := (frame0 m opt ua, (perf_counter w).2) in
  (∀ f w', run_epochs ua tl vl ft fv (Z.to_nat N) start = Ok (f, w') →
           ∀ e v, val_losses f !! e = Some v → fl_ltb v PInf = false) →
  (∃ err, train_and_validate m opt N ua tl vl ft fv w = Raise err)
  ∧ (∀ f w', run_epochs ua tl vl ft fv (Z.to_nat N) start = Ok (f, w') →
       train_and_validate m opt N ua tl vl ft fv w
       = Raise (UnboundLocalError "checkpoint"))
  ∧ ((N ≤ 0)%Z →
       run_epochs ua tl vl ft fv (Z.to_nat N) start = Ok start
       ∧ metrics_length start.1 0
       ∧ train_and_validate m opt N ua tl vl ft fv w
         = Raise (UnboundLocalError "checkpoint")).
Proof.
  intros start Hnever.
  assert (∀ f w', run_epochs ua tl vl ft fv (Z.to_nat N) start = Ok (f, w') →
            train_and_validate m opt N ua tl vl ft fv w
            = Raise (UnboundLocalError "checkpoint")) as Hret.
  { intros f w' Hrun. rewrite train_and_validate_unfold.
    fold start. rewrite Hrun. simpl.
    destruct (checkpoint f) as [ck|] eqn:Eck; [|done].
    destruct (run_epochs_checkpoint_bound _ _ _ _ _ _ _ _ _ _ _ Hrun)
      as (e & v & He & Hlt); [by rewrite Eck|].
    rewrite (Hnever f w' Hrun e v He) in Hlt. done. }
  split; [|split; [done|]].
  - destruct (run_epochs ua tl vl ft fv (Z.to_nat N) start)
      as [[f w']|err] eqn:Hrun.
    + eexists. by eapply Hret.
    + exists err. rewrite train_and_validate_unfold. fold start.
      by rewrite Hrun.
  - intros HN. replace (Z.to_nat N) with 0 in * by lia.
    split; [done|]. split; [by repeat split|]. by eapply Hret.
Qed.

(** *** The recorded losses *)

Lemma for_each_log {A St : Type} (body : A → St → result St)
    (log : St → list fl) (g : A → St → fl) xs s s' :
  (∀ x t t', body x t = Ok t' → log t' = log t ++ [g x t]) →
  for_each xs body s = Ok s' →
  log s' = log s ++ zip_with g xs (scan xs body s)
  ∧ length (scan xs body s) = length xs.
Proof.
  intros Hbody. revert s. induction xs as [|x xs IH]; intros s H; simpl in *.
  - inversion H; subst. by rewrite app_nil_r.
  - inv_bind H. rewrite Hb. destruct (IH _ H) as [-> Hlen].
    rewrite (Hbody _ _ _ Hb), <- app_assoc. simpl. by rewrite Hlen.
Qed.

Lemma train_batch_loss ua tl e t0 ft ib s s' :
  train_batch ua tl e t0 ft ib s = Ok s' →
  loss_perEpoch s'.1.2
  = loss_perEpoch s.1.2
    ++ [cce_sum (call_model (set_training true (model s.1.1)) ib.2 s.2)
          ib.2].
Proof.
  unfold train_batch. destruct ib as [i b], s as [[o tr] w].
  destruct (optimizer_step _ _ _ _ _ _) as [[opt sc] w1].
  intros H. inv_bind H. by inversion H; subst.
Qed.

Lemma call_model_same_heap m b w w' :
  heap w' = heap w → call_model m b w' = call_model m b w.
Proof. intros H. unfold call_model, load. by rewrite H. Qed.

Lemma val_loop_losses m vl e t0 fv ibs tr w tr' w' :
  for_each ibs (val_batch m vl e t0 fv) (tr, w) = Ok (tr', w') →
  loss_perEpoch tr'
  = loss_perEpoch tr ++ ((λ b, cce_sum (call_model m b w) b) <$> ibs.*2).
Proof.
  revert tr w. induction ibs as [|[i b] ibs IH]; intros tr w H; simpl in H.
  - inversion H; subst. simpl. by rewrite app_nil_r.
  - inv_bind H. destruct a as [tr1 w1].
    pose proof (val_batch_heap _ _ _ _ _ _ _ _ _ _ Hb) as [Hh _].
    rewrite (IH _ _ H). unfold val_batch in Hb. inv_bind Hb.
    inversion Hb; subst; clear Hb. simpl. rewrite <- app_assoc. simpl.
    do 2 f_equal. apply list_fmap_ext. intros j b' _.
    by rewrite (call_model_same_heap _ _ _ _ Hh).
Qed.

Lemma enumerate_snd {A : Type} (xs : list A) : (enumerate xs).*2 = xs.
Proof. unfold enumerate. apply snd_zip. by rewrite length_seq. Qed.

(** C3: in a completed epoch the recorded training loss is the sum, over
    the training batches of the epoch, of the sum-reduction cross-entropy
    of each batch (on the output of the model in training mode, as the
    parameters are when the batch is processed), divided by the number of
    samples of the training dataset; the recorded validation loss is the
    sum over the validation batches of the sum-reduction cross-entropy
    (model in evaluation mode, parameters as training left them), divided
    by the number of samples of the validation dataset. *)
Theorem epoch_losses_are_dataset_normalized ua tl vl ft fv e f w f' w' :
  epoch_body ua tl vl ft fv e (f, w) = Ok (f', w') →
  let t0 := (perf_counter w).1 in
  let tb := (iter_loader tl (perf_counter w).2).1 in
  let w2 := (iter_loader tl (perf_counter w).2).2 in
  let before := scan (enumerate tb) (train_batch ua tl e t0 ft)
                  (objects f, tally0, w2) in
  ∃ o tr w3,
    for_each (enumerate tb) (train_batch ua tl e t0 ft)
      (objects f, tally0, w2) = Ok (o, tr, w3)
    ∧ length before = length tb
    ∧ train_losses f'
      = train_losses f
        ++ [fl_div
              (np_sum
                 (zip_with
                    (λ ib s, cce_sum
                               (call_model (set_training true (model s.1.1))
                                  ib.2 s.2) ib.2)
                    (enumerate tb) before))
              (fl_of_nat (length (dl_dataset tl)))]
    ∧ val_losses f'
      = val_losses f
        ++ [fl_div
              (np_sum
                 ((λ b, cce_sum
                          (call_model (set_training false (model o)) b w3) b)
                  <$> (iter_loader vl w3).1))
              (fl_of_nat (length (dl_dataset vl)))].
Proof.
  intros H. apply epoch_body_inv in H
    as (o & tr & w3 & va & w5 & v & tacc & vacc & H); simpl in H.
  destruct H as (Htrain & Hval & _ & _ & _ & -> & _). simpl.
  exists o, tr, w3. split; [done|].
  destruct (for_each_log _ (λ s, loss_perEpoch s.1.2)
              (λ ib s, cce_sum
                         (call_model (set_training true (model s.1.1))
                            ib.2 s.2) ib.2) _ _ _
              (train_batch_loss ua tl e _ ft) Htrain) as [Hlog Hlen].
  simpl in Hlog. unfold enumerate in Hlen at 2.
  rewrite length_zip, length_seq, Nat.min_id in Hlen.
  split; [done|]. rewrite Hlog. split; [done|].
  apply val_loop_losses in Hval. rewrite Hval. simpl.
  rewrite enumerate_snd. do 4 f_equal.
  apply list_fmap_ext. intros i b _. f_equal.
  apply call_model_same_heap. apply iter_loader_heap.
Qed.

End EngineFacts.

(** ** Progress lines *)

Section ReportingFacts.
Context {T : Torch}.

Lemma chunks_fuel_length {A : Type} fuel n (xs : list A) :
  0 < n → length xs ≤ fuel →
  length (chunks_fuel fuel n xs) = (length xs + n - 1) `div` n.
Proof.
  intros Hn. revert xs. induction fuel as [|fuel IH]; intros xs Hlen.
  - destruct xs; [|simpl in Hlen; lia]. simpl.
    symmetry. apply Nat.div_small. lia.
  - destruct xs as [|x xs].
    + simpl. symmetry. apply Nat.div_small. lia.
    + cbn [chunks_fuel length]. rewrite IH.
      2:{ rewrite length_drop. simpl in *. lia. }
      rewrite length_drop. cbn [length].
      destruct (decide (n ≤ S (length xs))) as [Hle|Hgt].
      * replace (S (length xs) + n - 1) with (S (length xs) - n + n - 1 + 1 * n)
          by lia.
        rewrite Nat.div_add by lia. lia.
      * replace (S (length xs) - n + n - 1) with (n - 1) by lia.
        rewrite (Nat.div_small (n - 1)) by lia.
        replace (S (length xs) + n - 1) with (length xs + 1 * n) by lia.
        rewrite Nat.div_add by lia. rewrite Nat.div_small by lia. done.
Qed.

(** A pass over a loader yields [len(loader)] batches, so the last batch
    has index [len(loader) - 1]. *)
Lemma iter_loader_length ld w :
  length (iter_loader ld w).1 = len_loader ld.
Proof.
  unfold iter_loader, len_loader, chunks.
  destruct (dl_shuffle ld); simpl.
  - rewrite chunks_fuel_length; [by rewrite randperm_length | lia | done].
  - rewrite chunks_fuel_length; [done | lia | done].
Qed.

(** C6, as the code has it: for a batch of a training or validation pass
    (mode "train" or "val", non-empty dataset) and a non-zero frequency,
    [print__batch_info] prints one progress line exactly when the batch
    index is a multiple of the frequency, and nothing otherwise, also
    for the final batch; when the line printed is that of the final
    batch its current-sample count is the size of the dataset, and
    otherwise it is (batch index + 1) times the batch size.  With
    frequency zero the call raises [ZeroDivisionError]. *)
Theorem print__batch_info_stride mode batch_idx loader epoch t_0 loss
    frequency w :
  lower mode ∈ ["train"; "val"]%string →
  dl_dataset loader ≠ [] →
  (frequency = 0%Z →
     print__batch_info mode batch_idx loader epoch t_0 loss frequency w
     = Raise ZeroDivisionError)
  ∧ (frequency ≠ 0%Z →
     (Z.of_nat batch_idx `mod` frequency)%Z ≠ 0%Z →
     print__batch_info mode batch_idx loader epoch t_0 loss frequency w
     = Ok w)
  ∧ (frequency ≠ 0%Z →
     (Z.of_nat batch_idx `mod` frequency)%Z = 0%Z →
     ∃ line,
       print__batch_info mode batch_idx loader epoch t_0 loss frequency w
       = Ok (print (PrintBatch line) (perf_counter w).2)
       ∧ bl_mode line = mode ∧ bl_epoch line = epoch ∧ bl_loss line = loss
       ∧ bl_total_samples line = length (dl_dataset loader)
       ∧ bl_current_samples line
         = if decide (batch_idx + 1 = len_loader loader)
           then length (dl_dataset loader)
           else (batch_idx + 1) * Pos.to_nat (dl_batch_size loader)).
Proof.
  intros Hmode Hdata. unfold print__batch_info, format_line.
  rewrite (bool_decide_eq_true_2 _ Hmode). simpl.
  split; [|split].
  - intros ->. done.
  - intros Hf Hm. destruct (decide (frequency = 0%Z)); [done|].
    by destruct (decide _).
  - intros Hf Hm. destruct (decide (frequency = 0%Z)); [done|].
    destruct (decide _); [|done].
    unfold py_truediv. destruct (decide (length (dl_dataset loader) = 0))
      as [Hz|Hz]; [by destruct (dl_dataset loader)|]. simpl.
    eexists. split; [reflexivity|]. simpl. repeat (split; [done|]).
    destruct (decide (Z.of_nat batch_idx = _)), (decide (batch_idx + 1 = _));
      try done; lia.
Qed.

End ReportingFacts.

(** ** The confusion matrix *)

Lemma for_each_total {A St : Type} (I : list A → St → Prop) (P : A → Prop)
    (body : A → St → result St) xs s :
  Forall P xs → I [] s →
  (∀ pre x t, P x → I pre t → ∃ t', body x t = Ok t' ∧ I (pre ++ [x]) t') →
  ∃ s', for_each xs body s = Ok s' ∧ I xs s'.
Proof.
  intros HP Hs Hbody.
  cut (∀ pre t, I pre t → ∃ s', for_each xs body t = Ok s' ∧ I (pre ++ xs) s').
  { intros H. by apply (H [] s). }
  induction HP as [|x xs Hx HP IH]; intros pre t Ht; simpl.
  - exists t. by rewrite app_nil_r.
  - destruct (Hbody pre x t Hx Ht) as (t' & -> & Ht'). simpl.
    destruct (IH (pre ++ [x]) t' Ht') as (s' & Hs' & HI).
    exists s'. split; [done|]. by rewrite <- app_assoc in HI.
Qed.

Lemma fl_of_nat_succ n : fl_add (fl_of_nat n) (fl_of_Z 1) = fl_of_nat (S n).
Proof.
  unfold fl_of_nat, fl_of_Z. simpl fl_add. f_equal.
  rewrite <- Z2Qc_inj_add. f_equal. lia.
Qed.

Lemma fl_of_nat_add a b :
  fl_add (fl_of_nat a) (fl_of_nat b) = fl_of_nat (a + b).
Proof.
  unfold fl_of_nat, fl_of_Z. simpl. f_equal.
  rewrite <- Z2Qc_inj_add. f_equal. lia.
Qed.

Lemma count_cell_snoc pairs tp t p :
  count_cell (pairs ++ [tp]) t p
  = count_cell pairs t p + (if decide (tp = (t, p)) then 1 else 0).
Proof.
  unfold count_cell. rewrite filter_app, length_app. f_equal.
  rewrite filter_cons, filter_nil. by destruct (decide (tp = (t, p))).
Qed.

Lemma counts_of_lookup n pre cm t p :
  counts_of n pre cm → t < n → p < n →
  ∃ row, cm !! t = Some row ∧ length row = n
         ∧ row !! p = Some (fl_of_nat (count_cell pre t p)).
Proof.
  intros -> Ht Hp. eexists. split; [|split].
  - rewrite list_lookup_fmap, lookup_seq_lt by done. done.
  - by rewrite length_fmap, length_seq.
  - rewrite list_lookup_fmap, lookup_seq_lt by done. done.
Qed.

Lemma bump_counts n pre cm t p :
  counts_of n pre cm → t < n → p < n →
  ∃ cm', bump cm (t, p) = Ok cm' ∧ counts_of n (pre ++ [(t, p)]) cm'.
Proof.
  intros Hcm Ht Hp.
  destruct (counts_of_lookup _ _ _ _ _ Hcm Ht Hp) as (row & Hrow & Hlen & Hcell).
  unfold bump. simpl. rewrite Hrow, Hcell. eexists. split; [done|].
  unfold counts_of in *. subst cm.
  rewrite list_lookup_fmap, lookup_seq_lt in Hrow by done.
  simpl in Hrow. inversion Hrow; subst row; clear Hrow.
  apply list_eq. intros t'.
  destruct (decide (t' = t)) as [->|Hne].
  - rewrite list_lookup_insert_eq by (by rewrite length_fmap, length_seq).
    rewrite list_lookup_fmap, lookup_seq_lt by done. simpl. f_equal.
    apply list_eq. intros p'.
    destruct (decide (p' = p)) as [->|Hne'].
    + rewrite list_lookup_insert_eq by (by rewrite length_fmap, length_seq).
      rewrite list_lookup_fmap, lookup_seq_lt by done. simpl.
      rewrite <- Z2Qc_inj_add, count_cell_snoc.
      rewrite decide_True by done. unfold fl_of_nat, fl_of_Z.
      do 3 f_equal. lia.
    + rewrite list_lookup_insert_ne by done.
      rewrite !list_lookup_fmap. destruct (seq 0 n !! p') as [q|] eqn:E;
        [|done]. simpl. apply lookup_seq in E as [E _]. simpl in E. subst q.
      rewrite count_cell_snoc. rewrite decide_False by congruence.
      by rewrite Nat.add_0_r.
  - rewrite list_lookup_insert_ne by done.
    rewrite !list_lookup_fmap. destruct (seq 0 n !! t') as [q|] eqn:E;
      [|done]. simpl. apply lookup_seq in E as [E _]. simpl in E. subst q.
    f_equal.
    apply list_fmap_ext. intros i p' _. rewrite count_cell_snoc.
    rewrite decide_False by congruence. by rewrite Nat.add_0_r.
Qed.

(** The accumulation succeeds on classes in range, and each cell holds
    the number of samples with that true and predicted class. *)
Lemma accumulate_counts n pairs :
  Forall (λ tp, tp.1 < n ∧ tp.2 < n) pairs →
  ∃ cm, accumulate n pairs = Ok cm ∧ counts_of n pairs cm.
Proof.
  intros Hr. unfold accumulate.
  apply (for_each_total (counts_of n) (λ tp, tp.1 < n ∧ tp.2 < n)); [done| |].
  - unfold counts_of. apply list_eq. intros t.
    rewrite list_lookup_fmap. destruct (decide (t < n)).
    + rewrite lookup_seq_lt, lookup_replicate_2 by done. simpl. f_equal.
      apply list_eq. intros p. rewrite list_lookup_fmap.
      destruct (decide (p < n)).
      * by rewrite lookup_seq_lt, lookup_replicate_2 by done.
      * rewrite lookup_seq_ge by lia. simpl.
        apply lookup_replicate_None. lia.
    + rewrite lookup_seq_ge by lia. simpl. apply lookup_replicate_None. lia.
  - intros pre [t p] cm [Ht Hp] Hcm. by apply bump_counts.
Qed.

Lemma for_each_seq_total {St : Type} (I : nat → St → Prop)
    (body : nat → St → result St) i n s :
  I i s →
  (∀ k t, i ≤ k < i + n → I k t → ∃ t', body k t = Ok t' ∧ I (S k) t') →
  ∃ s', for_each (seq i n) body s = Ok s' ∧ I (i + n) s'.
Proof.
  intros Hs. induction n as [|n IH]; intros Hbody.
  - exists s. simpl. by rewrite Nat.add_0_r.
  - destruct IH as (t & Ht & HI).
    { intros k t Hk. apply Hbody. lia. }
    destruct (Hbody (i + n) t ltac:(lia) HI) as (t' & Ht' & HI').
    exists t'. rewrite for_each_seq_S, Ht. simpl.
    split; [done|]. by rewrite Nat.add_succ_r.
Qed.

Lemma row_sum_counts a (ns : list nat) :
  foldl fl_add (fl_of_nat a) (fl_of_nat <$> ns) = fl_of_nat (a + sum_list ns).
Proof.
  revert a. induction ns as [|n ns IH]; intros a; simpl.
  - by rewrite Nat.add_0_r.
  - change (Fin (Qc_of_Z (Z.of_nat a) + Qc_of_Z (Z.of_nat n)))
      with (fl_add (fl_of_nat a) (fl_of_nat n)).
    rewrite fl_of_nat_add, IH. f_equal. lia.
Qed.

(** The normalization loop never raises on a square matrix of counts,
    and leaves in every row the counts divided by the row total. *)
Lemma normalize_counts n pairs cm :
  counts_of n pairs cm →
  ∃ cm', for_each (seq 0 n) normalize_row cm = Ok cm'
         ∧ cm' = normalized_row n pairs <$> seq 0 n.
Proof.
  intros Hcm.
  set (raw t := (λ p, fl_of_nat (count_cell pairs t p)) <$> seq 0 n).
  destruct (for_each_seq_total
              (λ k c, length c = n
                      ∧ ∀ t, t < n →
                          c !! t = Some (if decide (t < k)
                                         then normalized_row n pairs t
                                         else raw t))
              normalize_row 0 n cm) as (cm' & Hrun & Hlen & Hrows).
  - unfold counts_of in Hcm. subst cm.
    split; [by rewrite length_fmap, length_seq|].
    intros t Ht. rewrite list_lookup_fmap, lookup_seq_lt by done. done.
  - intros k c Hk [Hlen Hrows]. unfold normalize_row.
    rewrite (Hrows k) by lia. rewrite decide_False by lia.
    eexists. split; [done|]. split; [by rewrite length_insert|].
    intros t Ht. destruct (decide (t = k)) as [->|Hne].
    + rewrite list_lookup_insert_eq by lia. rewrite decide_True by lia.
      f_equal. unfold raw, normalized_row. rewrite <- list_fmap_compose.
      apply list_fmap_ext. intros i p _. simpl. f_equal.
      change (fl_of_Z 0) with (fl_of_nat 0).
      rewrite (list_fmap_compose (count_cell pairs k) fl_of_nat).
      by rewrite row_sum_counts.
    + rewrite list_lookup_insert_ne by done. rewrite (Hrows t Ht).
      f_equal. destruct (decide (t < k)), (decide (t < S k)); try done; lia.
  - exists cm'. split; [done|]. apply list_eq. intros t.
    rewrite list_lookup_fmap. destruct (decide (t < n)).
    + rewrite (Hrows t) by done. rewrite decide_True by lia.
      by rewrite lookup_seq_lt.
    + rewrite lookup_seq_ge by lia. simpl. apply lookup_ge_None. lia.
Qed.

Lemma confusion_of_pairs_spec n pairs :
  Forall (λ tp, tp.1 < n ∧ tp.2 < n) pairs →
  ∃ counts,
    accumulate n pairs = Ok counts ∧ counts_of n pairs counts
    ∧ confusion_of_pairs n pairs = Ok (normalized_row n pairs <$> seq 0 n).
Proof.
  intros Hr. destruct (accumulate_counts n pairs Hr) as (counts & Hacc & Hc).
  exists counts. split; [done|]. split; [done|].
  unfold confusion_of_pairs. rewrite Hacc. simpl.
  by destruct (normalize_counts n pairs counts Hc) as (cm' & -> & ->).
Qed.

Lemma Qc_of_nat_nonzero (s : nat) : s ≠ 0 → Qc_of_Z (Z.of_nat s) ≠ 0%Qc.
Proof.
  intros Hs Hq. rewrite <- Z2Qc_inj_0 in Hq. apply Z2Qc_inj in Hq. lia.
Qed.

Lemma fl_div_counts (c s : nat) :
  s ≠ 0 →
  fl_div (fl_of_nat c) (fl_of_nat s)
  = Fin (Qc_of_Z (Z.of_nat c) / Qc_of_Z (Z.of_nat s))%Qc.
Proof.
  intros Hs. unfold fl_of_nat, fl_of_Z, fl_div, Qc_eqb.
  rewrite bool_decide_eq_false_2; [done|]. by apply Qc_of_nat_nonzero.
Qed.




(** *** Rounding to single precision *)














(** 0 and 1 are binary32 numbers. *)
Lemma f32_round_zero : f32_round (fl_of_Z 0) = fl_of_Z 0.
Proof. done. Qed.

Lemma f32_round_one : f32_round (fl_of_Z 1) = fl_of_Z 1.
Proof.
  unfold f32_round, fl_of_Z. cbn [Qcompare]. f_equal.
  apply Qc_is_canon. by vm_compute.
Qed.




Lemma count_cell_pos pairs t p : (t, p) ∈ pairs → 0 < count_cell pairs t p.
Proof.
  intros H. unfold count_cell.
  assert ((t, p) ∈ filter (λ tp, tp = (t, p)) pairs) as Hin
    by (by apply list_elem_of_filter).
  destruct (filter _ pairs); [by apply elem_of_nil in Hin | simpl; lia].
Qed.

Lemma count_cell_absent pairs t p : (t, p) ∉ pairs → count_cell pairs t p = 0.
Proof.
  intros H. unfold count_cell.
  destruct (filter _ pairs) as [|x l] eqn:E; [done|].
  assert (x ∈ filter (λ tp, tp = (t, p)) pairs) as Hin
    by (rewrite E; by left).
  apply list_elem_of_filter in Hin as [-> Hin]. done.
Qed.


Lemma row_total_absent n pairs t :
  (∀ p, (t, p) ∉ pairs) → row_total pairs n t = 0.
Proof.
  intros H. unfold row_total.
  induction (seq 0 n) as [|p l IH]; [done|]. rewrite fmap_cons.
  change (count_cell pairs t p + sum_list (count_cell pairs t <$> l) = 0).
  by rewrite IH, count_cell_absent.
Qed.

Lemma fmap_const_replicate {A B : Type} (f : A → B) (y : B) (l : list A) :
  (∀ x, x ∈ l → f x = y) → f <$> l = replicate (length l) y.
Proof.
  induction l as [|x l IH]; intros H; [done|]. simpl.
  rewrite (H x) by (by left). f_equal. apply IH.
  intros x' Hx'. apply H. by right.
Qed.

Section EvaluationFacts.
Context {T : Torch}.

Lemma iter_loader_stdout ld w : stdout (iter_loader ld w).2 = stdout w.
Proof. unfold iter_loader. by destruct (dl_shuffle ld). Qed.

Lemma produce_and_print_confusion_matrix_Ok num_classes test_loader m w cm :
  confusion_of_pairs num_classes
    (evaluated_pairs (set_training false m) (iter_loader test_loader w).1
       (iter_loader test_loader w).2) = Ok cm →
  produce_and_print_confusion_matrix num_classes test_loader m w
  = Ok (cm, set_training false m,
        print (PrintMatrix cm) (iter_loader test_loader w).2).
Proof.
  unfold produce_and_print_confusion_matrix.
  destruct (iter_loader test_loader w) as [batches w1]. simpl.
  by intros ->.
Qed.


(** C8: when a class [c] of the matrix never occurs as a true class in
    the evaluated set (the classes of the samples being classes of the
    matrix), [produce_and_print_confusion_matrix] raises nothing: the
    row sum of [c] is zero, every cell of the row is 0/0, and the matrix
    is printed and returned with row [c] made of NaN. *)
Theorem absent_class_gives_nan_row num_classes test_loader m w c :
  let pairs := evaluated_pairs (set_training false m)
                 (iter_loader test_loader w).1 (iter_loader test_loader w).2 in
  Forall (λ tp, tp.1 < num_classes ∧ tp.2 < num_classes) pairs →
  c < num_classes →
  (∀ p, (c, p) ∉ pairs) →
  ∃ counts cm w',
    accumulate num_classes pairs = Ok counts
    ∧ counts !! c = Some (replicate num_classes (fl_of_Z 0))
    ∧ produce_and_print_confusion_matrix num_classes test_loader m w
      = Ok (cm, set_training false m, w')
    ∧ cm !! c = Some (replicate num_classes NaN)
    ∧ stdout w' = stdout w ++ [PrintMatrix cm].
Proof.
  intros pairs Hrange Hc Habs.
  destruct (confusion_of_pairs_spec num_classes pairs Hrange)
    as (counts & Hacc & Hcounts & Hcm).
  assert (∀ p, count_cell pairs c p = 0) as Hzero
    by (intros p; by apply count_cell_absent).
  exists counts. eexists. eexists. split; [done|]. split.
  { unfold counts_of in Hcounts. subst counts.
    rewrite list_lookup_fmap, lookup_seq_lt by done. simpl. f_equal.
    rewrite <- (length_seq num_classes 0) at 2.
    apply fmap_const_replicate. intros p _. by rewrite Hzero. }
  split; [by apply produce_and_print_confusion_matrix_Ok|]. split.
  - rewrite list_lookup_fmap, lookup_seq_lt by done. simpl. f_equal.
    unfold normalized_row. rewrite <- (length_seq num_classes 0) at 2.
    apply fmap_const_replicate. intros p _.
    rewrite Hzero, row_total_absent by done. by vm_compute.
  - simpl. f_equal. apply iter_loader_stdout.
Qed.

End EvaluationFacts.

(** ** When the run returns *)

Section ReturnFacts.
Context {T : Torch}.

Lemma chunks_fuel_samples {A : Type} fuel n (xs : list A) :
  0 < n → length xs ≤ fuel →
  sum_list (length <$> chunks_fuel fuel n xs) = length xs.
Proof.
  intros Hn. revert xs. induction fuel as [|fuel IH]; intros xs Hlen.
  - by destruct xs; [|simpl in Hlen; lia].
  - destruct xs as [|x xs]; [done|].
    cbn [chunks_fuel]. rewrite fmap_cons.
    change (sum_list (?a :: ?l)) with (a + sum_list l).
    rewrite IH by (rewrite length_drop; simpl in *; lia).
    rewrite length_take, length_drop. lia.
Qed.

(** The batches of a pass hold every sample of the dataset once. *)
Lemma iter_loader_samples ld w :
  sum_list (length <$> (iter_loader ld w).1) = length (dl_dataset ld).
Proof.
  unfold iter_loader, chunks. destruct (dl_shuffle ld); simpl.
  - rewrite chunks_fuel_samples; [apply randperm_length | lia | done].
  - rewrite chunks_fuel_samples; [done | lia | done].
Qed.

Lemma print__batch_info_total mode i ld e t0 loss fr w :
  lower mode ∈ ["train"; "val"]%string → fr ≠ 0%Z → dl_dataset ld ≠ [] →
  ∃ w', print__batch_info mode i ld e t0 loss fr w = Ok w'.
Proof.
  intros Hmode Hfr Hdata. unfold print__batch_info, format_line.
  rewrite (bool_decide_eq_true_2 _ Hmode). simpl.
  destruct (decide (fr = 0%Z)); [done|].
  destruct (decide _); [|by eexists].
  unfold py_truediv. destruct (decide (length (dl_dataset ld) = 0));
    [by destruct (dl_dataset ld)|]. simpl. by eexists.
Qed.

Lemma np_sum_finite xs : Forall finite xs → finite (np_sum xs).
Proof.
  unfold np_sum. generalize 0%Qc as a. intros a H. revert a.
  induction H as [|x xs [q ->] _ IH]; intros a; simpl; [by exists a|].
  apply IH.
Qed.

Lemma fl_div_finite x n : finite x → n ≠ 0 → finite (fl_div x (fl_of_nat n)).
Proof.
  intros [q ->] Hn. unfold fl_of_nat, fl_of_Z, fl_div, Qc_eqb.
  rewrite bool_decide_eq_false_2; [by eexists|]. by apply Qc_of_nat_nonzero.
Qed.

Lemma finite_below_infinity x : finite x → fl_ltb x PInf = true.
Proof. by intros [q ->]. Qed.

Section WellBehaved.
(** The network gives one output row per sample and the summed loss of a
    batch is a number. *)
Hypothesis rows : ∀ tr ps b, length (argmax (forward tr ps b)) = length b.
Hypothesis losses : ∀ out b, finite (cce_sum out b).

Lemma train_batch_total ua tl e t0 ft i b o tr w :
  ft ≠ 0%Z → dl_dataset tl ≠ [] →
  ∃ o' tr' w',
    train_batch ua tl e t0 ft (i, b) (o, tr, w) = Ok (o', tr', w')
    ∧ num_samples tr' = num_samples tr + length b.
Proof.
  intros Hft Hdata. unfold train_batch.
  destruct (optimizer_step _ _ _ _ _ _) as [[opt sc] w1].
  destruct (print__batch_info_total "train" i tl e t0
              (cce_mean (call_model (set_training true (model o)) b w) b)
              ft w1) as [w2 ->]; [by left | done | done |].
  simpl. eexists _, _, _. split; [done|]. simpl.
  unfold num_rows, call_model. by rewrite rows.
Qed.

Lemma train_loop_total ua tl e t0 ft ibs o tr w :
  ft ≠ 0%Z → dl_dataset tl ≠ [] →
  ∃ o' tr' w',
    for_each ibs (train_batch ua tl e t0 ft) (o, tr, w) = Ok (o', tr', w')
    ∧ num_samples tr' = num_samples tr + sum_list (length <$> ibs.*2).
Proof.
  intros Hft Hdata. revert o tr w.
  induction ibs as [|[i b] ibs IH]; intros o tr w.
  - exists o, tr, w. split; [done | simpl; lia].
  - destruct (train_batch_total ua tl e t0 ft i b o tr w Hft Hdata)
      as (o1 & tr1 & w1 & Hstep & Hn1).
    destruct (IH o1 tr1 w1) as (o' & tr' & w' & Hloop & Hn).
    exists o', tr', w'. split.
    + cbn [for_each]. rewrite Hstep. exact Hloop.
    + rewrite Hn, Hn1, !fmap_cons.
      change (sum_list (?a :: ?l)) with (a + sum_list l). cbn [snd]. lia.
Qed.

Lemma val_batch_total m vl e t0 fv i b tr w :
  fv ≠ 0%Z → dl_dataset vl ≠ [] → Forall finite (loss_perEpoch tr) →
  ∃ tr' w',
    val_batch m vl e t0 fv (i, b) (tr, w) = Ok (tr', w')
    ∧ num_samples tr' = num_samples tr + length b
    ∧ Forall finite (loss_perEpoch tr').
Proof.
  intros Hfv Hdata Hfin. unfold val_batch.
  destruct (print__batch_info_total "val" i vl e t0
              (cce_mean (call_model m b w) b) fv w)
    as [w2 ->]; [by right; left | done | done |].
  simpl. eexists _, _. split; [done|]. simpl. split.
  - unfold num_rows, call_model. by rewrite rows.
  - apply Forall_app. split; [done|]. by apply Forall_singleton.
Qed.

Lemma val_loop_total m vl e t0 fv ibs tr w :
  fv ≠ 0%Z → dl_dataset vl ≠ [] → Forall finite (loss_perEpoch tr) →
  ∃ tr' w',
    for_each ibs (val_batch m vl e t0 fv) (tr, w) = Ok (tr', w')
    ∧ num_samples tr' = num_samples tr + sum_list (length <$> ibs.*2)
    ∧ Forall finite (loss_perEpoch tr').
Proof.
  intros Hfv Hdata. revert tr w.
  induction ibs as [|[i b] ibs IH]; intros tr w Hfin.
  - exists tr, w. split; [done|]. split; [simpl; lia | done].
  - destruct (val_batch_total m vl e t0 fv i b tr w Hfv Hdata Hfin)
      as (tr1 & w1 & Hstep & Hn1 & Hfin1).
    destruct (IH tr1 w1 Hfin1) as (tr' & w' & Hloop & Hn & Hfin').
    exists tr', w'. split; [|split; [|done]].
    + cbn [for_each]. rewrite Hstep. exact Hloop.
    + rewrite Hn, Hn1, !fmap_cons.
      change (sum_list (?a :: ?l)) with (a + sum_list l). cbn [snd]. lia.
Qed.

(** An epoch completes; it leaves a checkpoint bound if one was bound, or
    if the running minimum was still the initial infinity. *)
Lemma epoch_body_total ua tl vl ft fv e f w :
  ft ≠ 0%Z → fv ≠ 0%Z → dl_dataset tl ≠ [] → dl_dataset vl ≠ [] →
  metrics_length f e →
  ∃ f' w',
    epoch_body ua tl vl ft fv e (f, w) = Ok (f', w')
    ∧ (min_val_loss f = PInf ∨ is_Some (checkpoint f) →
       is_Some (checkpoint f')).
Proof.
  intros Hft Hfv Htl Hvl (Hl1 & Hl2 & Hl3 & Hl4). unfold epoch_body.
  destruct (perf_counter w) as [t0 w1].
  pose proof (iter_loader_samples tl w1) as Hts.
  destruct (iter_loader tl w1) as [tb w2]. simpl in Hts.
  destruct (train_loop_total ua tl e t0 ft (enumerate tb) (objects f)
              tally0 w2 Hft Htl) as (o & tr & w3 & -> & Hntr).
  simpl. rewrite enumerate_snd, Hts in Hntr. simpl in Hntr.
  pose proof (iter_loader_samples vl w3) as Hvs.
  destruct (iter_loader vl w3) as [vb w4]. simpl in Hvs.
  destruct (val_loop_total (set_training false (model o)) vl e t0 fv
              (enumerate vb) tally0 w4 Hfv Hvl (Forall_nil_2 _))
    as (va & w5 & -> & Hnva & Hfin).
  simpl. rewrite enumerate_snd, Hvs in Hnva. simpl in Hnva.
  assert (∀ (xs : list fl) x, length xs = e →
            list_index (xs ++ [x]) e = Ok x) as Hidx.
  { intros xs x Hlen. unfold list_index.
    rewrite lookup_app_r by lia. by rewrite Hlen, Nat.sub_diag. }
  set (v := fl_div (np_sum (loss_perEpoch va))
              (fl_of_nat (length (dl_dataset vl)))).
  rewrite (Hidx _ v Hl2). simpl.
  assert (finite v) as Hv.
  { apply fl_div_finite; [by apply np_sum_finite | by destruct (dl_dataset vl)]. }
  destruct (select_checkpoint _ v _ _ w5) as [[minv ck] w6] eqn:Esel.
  unfold py_truediv. rewrite Hntr, Hnva.
  destruct (decide (length (dl_dataset tl) = 0)); [by destruct (dl_dataset tl)|].
  destruct (decide (length (dl_dataset vl) = 0)); [by destruct (dl_dataset vl)|].
  simpl.
  repeat match goal with
         | |- context [list_index (?xs ++ [?x]) e] =>
             rewrite (Hidx xs x) by assumption; simpl
         end.
  eexists _, _. split; [done|]. simpl.
  apply select_checkpoint_cases in Esel as [[_ Hsome] | [Hlt ->]]; [done|].
  intros [Hinf | Hsome]; [|done].
  rewrite Hinf, (finite_below_infinity _ Hv) in Hlt. discriminate.
Qed.

(** A run of at least one epoch on non-empty datasets, with non-zero
    printing frequencies, returns. *)
Lemma train_and_validate_returns m opt N ua tl vl ft fv w :
  (1 ≤ N)%Z → ft ≠ 0%Z → fv ≠ 0%Z →
  dl_dataset tl ≠ [] → dl_dataset vl ≠ [] →
  ∃ out w', train_and_validate m opt N ua tl vl ft fv w = Ok (out, w').
Proof.
  intros HN Hft Hfv Htl Hvl. rewrite train_and_validate_unfold.
  destruct (for_each_seq_total
              (λ k s, metrics_length s.1 k
                      ∧ ((k = 0 ∧ min_val_loss s.1 = PInf)
                         ∨ is_Some (checkpoint s.1)))
              (epoch_body ua tl vl ft fv) 0 (Z.to_nat N)
              (frame0 m opt ua, (perf_counter w).2))
    as ([f w'] & Hrun & _ & Hck).
  - split; [by repeat split | by left].
  - intros k [f1 w1] _ [Hlen Hck]. simpl in *.
    destruct (epoch_body_total ua tl vl ft fv k f1 w1 Hft Hfv Htl Hvl Hlen)
      as (f2 & w2 & Hbody & Hsome).
    exists (f2, w2). split; [done|]. simpl. split.
    + eapply one_entry_appended_length; [|done].
      by eapply epoch_body_appends.
    + right. apply Hsome. destruct Hck as [[_ ?] | ?]; [by left | by right].
  - unfold run_epochs. rewrite Hrun. simpl in *.
    destruct Hck as [[H0 _] | [ck Hck]]; [lia|]. rewrite Hck. by eexists _, _.
Qed.

End WellBehaved.

(** C2: for [N >= 1] epochs, what [train_and_validate] returns are four
    metric sequences of length exactly [N], every epoch [k < N] having
    completed and appended exactly one entry to each sequence, which had
    length [k] before it; and it does return when the datasets are not
    empty, the printing frequencies are not zero, the network gives one
    output row per sample and the summed loss of a batch is a number. *)
Theorem metric_sequences_length m opt N ua tl vl ft fv w :
  (1 ≤ N)%Z →
  (∀ out w',
     train_and_validate m opt N ua tl vl ft fv w = Ok (out, w') →
     (Z.of_nat (length (out_train_losses out)) = N
      ∧ Z.of_nat (length (out_val_losses out)) = N
      ∧ Z.of_nat (length (out_train_accs out)) = N
      ∧ Z.of_nat (length (out_val_accs out)) = N)
     ∧ ∀ k, k < Z.to_nat N →
         ∃ fk wk fk' wk',
           run_epochs ua tl vl ft fv k
             (frame0 m opt ua, (perf_counter w).2) = Ok (fk, wk)
           ∧ run_epochs ua tl vl ft fv (S k)
               (frame0 m opt ua, (perf_counter w).2) = Ok (fk', wk')
           ∧ epoch_body ua tl vl ft fv k (fk, wk) = Ok (fk', wk')
           ∧ metrics_length fk k
           ∧ one_entry_appended fk fk')
  ∧ ((∀ tr ps b, length (argmax (forward tr ps b)) = length b) →
     (∀ out b, finite (cce_sum out b)) →
     ft ≠ 0%Z → fv ≠ 0%Z → dl_dataset tl ≠ [] → dl_dataset vl ≠ [] →
     ∃ out w', train_and_validate m opt N ua tl vl ft fv w = Ok (out, w')).
Proof.
  intros HN. split.
  - intros out w' H. by eapply returned_metrics_length.
  - intros Hrows Hlosses Hft Hfv Htl Hvl.
    by apply train_and_validate_returns.
Qed.

End ReturnFacts.

(** ** Checkpoint restoration *)

Section CheckpointFacts.
Context {T : Torch}.

Lemma load_same_lookup (w w' : world) l :
  heap w' !! l = heap w !! l → load w' l = load w l.
Proof. intros H. unfold load. by rewrite !lookup_total_alt, H. Qed.

(** The copy loop of [load_state_dict]: it writes the parameters of the
    model and nothing else, and each parameter ends with the value of
    the entry of its name. *)
Lemma copy_params_spec (sd ps : state_dict) (w w' : world) :
  NoDup (locs_of ps) →
  (∀ l, l ∈ locs_of sd → l ∉ locs_of ps) →
  for_each ps (copy_param sd) w = Ok w' →
  (∀ l, l ∉ locs_of ps → heap w' !! l = heap w !! l)
  ∧ next_loc w' = next_loc w
  ∧ stdout w' = stdout w
  ∧ ∀ k l, (k, l) ∈ ps →
      ∃ src, assoc k sd = Some src ∧ load w' l = load w src.
Proof.
  revert w. induction ps as [|[k l] ps IH]; intros w Hnd Hdisj H;
    simpl in H.
  - inversion H; subst. repeat split; try done.
    intros k l Hin. by apply elem_of_nil in Hin.
  - inv_bind H. unfold copy_param in Hb. simpl in Hb.
    destruct (assoc k sd) as [src|] eqn:Ek; [|discriminate].
    destruct (decide _); [|discriminate]. inversion Hb; subst a; clear Hb.
    unfold locs_of in Hnd. simpl in Hnd. apply NoDup_cons in Hnd as [Hl Hnd].
    apply IH in H as (Hframe & Hnext & Hout & Hvals); [|done|].
    2:{ intros l' Hl' Hin. apply (Hdisj l' Hl'). by right. }
    split; [|split; [done|split; [done|]]].
    + intros l' Hl'. rewrite Hframe.
      * simpl. apply lookup_insert_ne. intros ->. apply Hl'. by left.
      * intros Hin. apply Hl'. by right.
    + intros k' l' Hin. apply elem_of_cons in Hin as [[= -> ->] | Hin].
      * exists src. split; [done|].
        rewrite (load_same_lookup _ _ _ (Hframe l Hl)).
        unfold load; simpl. by rewrite lookup_total_insert_eq.
      * destruct (Hvals k' l' Hin) as (src' & Hk' & Hload).
        exists src'. split; [done|]. rewrite Hload.
        unfold load; simpl. apply lookup_total_insert_ne.
        intros ->. apply (Hdisj src'); [by eapply assoc_locs_of | by left].
Qed.

(** C10: [load_checkpoint] with the optimizer argument omitted, on a
    model whose parameters are distinct tensor objects, none of them an
    object of the checkpoint's state dict: when it returns, every
    parameter of the model holds the value of the entry of its name in
    [checkpoint["state_dict"]]; no other tensor object was written and
    none was created, so the state of any optimizer (its state tensors
    are not parameters of the model) shows the same values as before;
    the result does not depend on the "optimizer" entry of the
    checkpoint, which may even be missing, whereas with an optimizer
    passed a missing entry raises [KeyError]. *)
Theorem load_checkpoint_without_optimizer m ck (o : Optimizer) w r w' :
  NoDup (locs_of (parameters m)) →
  (∀ sd l, ck !! "state_dict" = Some sd → l ∈ locs_of sd →
           l ∉ locs_of (parameters m)) →
  (∀ l, l ∈ locs_of (state o) → l ∉ locs_of (parameters m)) →
  load_checkpoint m ck None w = Ok (r, w') →
  r = None
  ∧ (∃ sd, ck !! "state_dict" = Some sd
       ∧ ∀ k l, (k, l) ∈ parameters m →
           ∃ src, assoc k sd = Some src ∧ load w' l = load w src)
  ∧ values w' (optimizer_state_dict o) = values w (optimizer_state_dict o)
  ∧ (∀ l, l ∉ locs_of (parameters m) → heap w' !! l = heap w !! l)
  ∧ next_loc w' = next_loc w
  ∧ (∀ ck', ck' !! "state_dict" = ck !! "state_dict" →
       load_checkpoint m ck' None w = load_checkpoint m ck None w)
  ∧ (ck !! "optimizer" = None →
       load_checkpoint m ck (Some o) w = Raise (KeyError "optimizer")).
Proof.
  intros Hnd Hdisj Hopt H. unfold load_checkpoint in H.
  inv_bind H. rename a into sd. unfold getitem in Hb.
  destruct (ck !! "state_dict") as [sd'|] eqn:Esd; [|discriminate].
  inversion Hb; subst sd'; clear Hb.
  inv_bind H. rename a into w1. simpl in H. inversion H; subst r w'; clear H.
  unfold load_state_dict in Hb. destruct (bool_decide _) eqn:Ekeys;
    [|discriminate].
  pose proof Hb as Hloop.
  apply copy_params_spec in Hb as (Hframe & Hnext & Hout & Hvals);
    [|done|intros l; by apply (Hdisj sd l)].
  split; [done|]. split; [by exists sd|]. split; [|split; [done|split; [done|split]]].
  - unfold values, optimizer_state_dict. apply list_fmap_ext.
    intros i [k l] Hi. unfold prod_map; simpl. f_equal.
    apply load_same_lookup. simpl. apply Hframe. apply Hopt.
    unfold locs_of. apply list_elem_of_fmap. exists (k, l).
    split; [done | by eapply list_elem_of_lookup_2].
  - intros ck' Hsame. unfold load_checkpoint, getitem.
    rewrite Hsame. by rewrite ?Esd.
  - intros Hnone. unfold load_checkpoint, getitem.
    rewrite Esd. simpl. unfold load_state_dict. rewrite Ekeys, Hloop. simpl.
    by rewrite Hnone.
Qed.

End CheckpointFacts.

(** ** Startup validation *)

(** C9, evaluated on the code: with the defaults of [TrainOptions]
    (dropout rate 0.0) [check_args] raises the dropout assertion, since
    [0 < 0.0] is false; a dropout rate strictly inside (0,1), the other
    options unchanged, passes. *)
Theorem check_args_rejects_default_dropout :
  check_args TrainOptions_defaults [] =
    Raise (AssertionError "dropout_rate should be chosen between 0 and 1")
  ∧ is_ok (check_args
      {| compile_mode := None; dropout_rate := Fin (Q2Qc (1 # 2));
         freq_output__train := 1%Z; freq_output__val := 1%Z;
         num_workers := 0%Z; pin_memory := false; saving_path := "";
         seed_number := None; hidden_size := 256%Z; num_layers := 3%Z;
         channels_img := 1%Z; learning_rate := Fin (Q2Qc (1 # 10000));
         num_epochs := 10%Z; batch_size := 1024%Z; loading_path := None;
         bidirectional := false; train_split := Fin (Q2Qc (5 # 6));
         use_amp := false |} []) = true.
Proof. split; vm_compute; reflexivity. Qed.

(** ** Concrete runs

    The statements above, applied to the small backend of [Toy]: three
    epochs with the distance loss give the validation losses 1, 1, 3, so
    the checkpoint kept is that of the first epoch. *)

Lemma toy_allocated loss_of :
  allocated (T := Toy.backend loss_of)
    (Objs (Toy.net loss_of) (Toy.adam loss_of) (GradScaler false))
    (Toy.world0 loss_of).
Proof.
  intros l Hl. unfold live in Hl. simpl in Hl.
  apply elem_of_cons in Hl as [->|Hl]; [simpl; lia|].
  apply elem_of_cons in Hl as [->|Hl]; [simpl; lia|].
  by apply elem_of_nil in Hl.
Qed.

Lemma toy_run_returns : is_ok (Toy.run Toy.distance_loss 3%Z) = true.
Proof. vm_compute. reflexivity. Qed.

Lemma metric_sequences_length_witness :
  match Toy.run Toy.distance_loss 3%Z with
  | Ok (out, _) =>
      Z.of_nat (length (out_train_losses out)) = 3%Z
      ∧ Z.of_nat (length (out_val_losses out)) = 3%Z
      ∧ Z.of_nat (length (out_train_accs out)) = 3%Z
      ∧ Z.of_nat (length (out_val_accs out)) = 3%Z
  | Raise _ => False
  end.
Proof.
  destruct (Toy.run Toy.distance_loss 3%Z) as [[out w']|e] eqn:E.
  - assert (1 ≤ 3)%Z as H13 by lia.
    exact (proj1 (proj1 (metric_sequences_length
                           (T := Toy.backend Toy.distance_loss) _ _ 3%Z _
                           _ _ _ _ _ H13) out w' E)).
  - pose proof toy_run_returns as H. rewrite E in H. discriminate H.
Defined.

Lemma best_checkpoint_is_earliest_minimum_witness :
  match Toy.run Toy.distance_loss 3%Z with
  | Ok (out, w') =>
      ∃ e v fe we,
        (Z.of_nat e < 3)%Z
        ∧ out_val_losses out !! e = Some v
        ∧ fl_ltb v PInf = true
        ∧ (∀ e' v', out_val_losses out !! e' = Some v' →
                    fl_ltb v' v = false)
        ∧ (∀ e' v', out_val_losses out !! e' = Some v' → v' ≠ NaN →
                    fl_leb v v' = true)
        ∧ (∀ e' v', e' < e → out_val_losses out !! e' = Some v' →
                    fl_leb v' v = false)
        ∧ Toy.epochs Toy.distance_loss (S e) = Ok (fe, we)
        ∧ is_snapshot (best_checkpoint out) w' (objects fe) we
  | Raise _ => False
  end.
Proof.
  destruct (Toy.run Toy.distance_loss 3%Z) as [[out w']|e] eqn:E.
  - assert (1 ≤ 3)%Z as H13 by lia.
    exact (proj2 (proj2 (best_checkpoint_is_earliest_minimum
                           (T := Toy.backend Toy.distance_loss) _ _ 3%Z _ _
                           _ _ _ _ _ _ H13 (toy_allocated _) E))).
  - pose proof toy_run_returns as H. rewrite E in H. discriminate H.
Defined.

(** The checkpoint kept after three epochs holds the weight 2 of the first
    epoch, while the live weight is 6. *)
Example toy_best_is_first_epoch :
  match Toy.run Toy.distance_loss 3%Z with
  | Ok (out, w') =>
      (values w' <$> best_checkpoint out) !! "state_dict"
        = Some [("weight"%string, 2%Z)]
      ∧ values w' (model_state_dict (model (out_objects out)))
        = [("weight"%string, 6%Z)]
      ∧ (λ v, fl_leb v (fl_of_Z 1)) <$> out_val_losses out
        = [true; true; false]
  | Raise _ => False
  end.
Proof. vm_compute. done. Qed.

(** C1 as stated fails on a run whose first validation loss is NaN: the
    run returns the checkpoint captured in the second epoch, with loss 1,
    and 1 is not below or equal to NaN. *)
Lemma captured_loss_not_below_nan_epoch :
  is_ok (Toy.run Toy.nan_loss 2%Z) = true
  ∧ match Toy.epochs Toy.nan_loss 2 with
    | Ok (f, _) =>
        is_Some (checkpoint f)
        ∧ val_losses f !! 0 = Some NaN
        ∧ fl_leb (fl_of_Z 1) (min_val_loss f) = true
        ∧ fl_leb (min_val_loss f) (fl_of_Z 1) = true
        ∧ ¬ captured_below_all f
    | Raise _ => False
    end.
Proof.
  split; [vm_compute; reflexivity|]. vm_compute.
  split; [by eexists|]. split; [done|]. split; [done|]. split; [done|].
  intros H. specialize (H 0 NaN eq_refl). discriminate H.
Qed.

Lemma toy_first_epoch_completes :
  is_ok (epoch_body (T := Toy.backend Toy.distance_loss) false
           (Toy.train_set Toy.distance_loss) (Toy.val_set Toy.distance_loss)
           1%Z 1%Z 0
           (frame0 (Toy.net Toy.distance_loss) (Toy.adam Toy.distance_loss)
              false,
            Toy.world0 Toy.distance_loss)) = true.
Proof. vm_compute. reflexivity. Qed.

Lemma epoch_losses_are_dataset_normalized_witness :
  match epoch_body (T := Toy.backend Toy.distance_loss) false
          (Toy.train_set Toy.distance_loss) (Toy.val_set Toy.distance_loss)
          1%Z 1%Z 0
          (frame0 (Toy.net Toy.distance_loss) (Toy.adam Toy.distance_loss)
             false,
           Toy.world0 Toy.distance_loss) with
  | Ok (f', w') =>
      ∃ (o : objs (T := Toy.backend Toy.distance_loss))
        (w3 : world (T := Toy.backend Toy.distance_loss)),
        val_losses f'
        = [] ++ [fl_div
                   (np_sum
                      ((λ b, cce_sum
                               (call_model (set_training false (model o)) b
                                  w3) b)
                       <$> (iter_loader (Toy.val_set Toy.distance_loss)
                              w3).1))
                   (fl_of_nat 3)]
  | Raise _ => False
  end.
Proof.
  destruct (epoch_body _ _ _ _ _ _ _) as [[f' w']|e] eqn:E.
  - destruct (epoch_losses_are_dataset_normalized
                (T := Toy.backend Toy.distance_loss) _ _ _ _ _ _ _ _ _ _ E)
      as (o & tr & w3 & _ & _ & _ & H).
    exists o, w3. exact H.
  - pose proof toy_first_epoch_completes as H. rewrite E in H.
    discriminate H.
Defined.

Lemma toy_infinite_losses :
  match Toy.epochs Toy.inf_loss (Z.to_nat 2) with
  | Ok (f, _) => val_losses f
  | Raise _ => []
  end = [PInf; PInf].
Proof. vm_compute. reflexivity. Qed.

Lemma no_improvement_raises_witness :
  (∃ err, Toy.run Toy.inf_loss 2%Z = Raise err)
  ∧ Toy.run Toy.inf_loss 2%Z = Raise (UnboundLocalError "checkpoint")
  ∧ Toy.run Toy.distance_loss 0%Z = Raise (UnboundLocalError "checkpoint").
Proof.
  split; [|split; vm_compute; reflexivity].
  refine (proj1 (no_improvement_raises (T := Toy.backend Toy.inf_loss)
                   (Toy.net _) (Toy.adam _) 2%Z false (Toy.train_set _)
                   (Toy.val_set _) 1%Z 1%Z (Toy.world0 _) _)).
  intros f w' Hrun e v Hv.
  pose proof toy_infinite_losses as HL. rewrite Hrun in HL.
  rewrite HL in Hv.
  destruct e as [|[|e]]; simpl in Hv; [| |discriminate Hv];
    inversion Hv; reflexivity.
Defined.

Lemma toy_epochs_complete :
  is_ok (Toy.epochs Toy.distance_loss 1) = true
  ∧ is_ok (Toy.epochs Toy.distance_loss (1 + 2)) = true
  ∧ match Toy.epochs Toy.distance_loss 1 with
    | Ok (f, _) => is_Some (checkpoint f)
    | Raise _ => False
    end.
Proof. vm_compute. split; [done|]. split; [done|]. by eexists. Qed.

Lemma checkpoint_values_isolated_witness :
  match Toy.epochs Toy.distance_loss 1,
        Toy.epochs Toy.distance_loss (1 + 2) with
  | Ok (f, w), Ok (f', w') =>
      is_Some (checkpoint f)
      ∧ ∀ ck key d, checkpoint f = Some ck → ck !! key = Some d →
                    values w' d = values w d
  | _, _ => False
  end.
Proof.
  destruct toy_epochs_complete as (H1 & H3 & Hck).
  destruct (Toy.epochs Toy.distance_loss 1) as [[f w]|e] eqn:E1;
    [|discriminate H1].
  destruct (Toy.epochs Toy.distance_loss (1 + 2)) as [[f' w']|e] eqn:E3;
    [|discriminate H3].
  split; [exact Hck|]. intros ck key d Hf Hd.
  exact (proj1 (checkpoint_values_isolated
                  (T := Toy.backend Toy.distance_loss) _ _ _ _ _ _ _ _
                  1 2 _ _ _ _ _
                  (perf_counter_allocated _ _ (toy_allocated _)) E1 Hf E3)
           key d Hd).
Defined.

(** C6 as stated fails on the final batch of a loader with two batches
    and frequency 2: batch 1 is the last one and nothing is printed for
    it. *)
Lemma final_batch_skipped_off_stride :
  1 + 1 = len_loader (Toy.train_set Toy.distance_loss)
  ∧ print__batch_info (T := Toy.backend Toy.distance_loss) "train" 1
      (Toy.train_set Toy.distance_loss) 0 (fl_of_Z 0) (fl_of_Z 0) 2%Z
      (Toy.world0 Toy.distance_loss)
    = Ok (Toy.world0 Toy.distance_loss).
Proof. split; vm_compute; reflexivity. Qed.

Lemma print__batch_info_stride_witness :
  ∃ line,
    print__batch_info (T := Toy.backend Toy.distance_loss) "train" 1
      (Toy.train_set Toy.distance_loss) 0 (fl_of_Z 0) (fl_of_Z 0) 1%Z
      (Toy.world0 Toy.distance_loss)
    = Ok (print (PrintBatch line)
            (perf_counter (Toy.world0 Toy.distance_loss)).2)
    ∧ bl_current_samples line = 2.
Proof.
  assert (lower "train" ∈ ["train"; "val"]%string) as Hmode by (by left).
  assert (dl_dataset (Toy.train_set Toy.distance_loss) ≠ []) as Hdata
    by discriminate.
  destruct (print__batch_info_stride (T := Toy.backend Toy.distance_loss)
              "train" 1 (Toy.train_set Toy.distance_loss) 0 (fl_of_Z 0)
              (fl_of_Z 0) 1%Z (Toy.world0 Toy.distance_loss) Hmode Hdata)
    as (_ & _ & H).
  destruct H as (line & Hline & _ & _ & _ & _ & Hcur); [lia | done |].
  exists line. split; [exact Hline | exact Hcur].
Defined.



Lemma absent_class_gives_nan_row_witness :
  ∃ cm w',
    produce_and_print_confusion_matrix (T := Toy.backend Toy.distance_loss)
      3 (Toy.val_set Toy.distance_loss) (Toy.net Toy.distance_loss)
      (Toy.world0 Toy.distance_loss)
    = Ok (cm, set_training false (Toy.net Toy.distance_loss), w')
    ∧ cm !! 2 = Some [NaN; NaN; NaN].
Proof.
  destruct (absent_class_gives_nan_row (T := Toy.backend Toy.distance_loss)
              3 (Toy.val_set Toy.distance_loss) (Toy.net Toy.distance_loss)
              (Toy.world0 Toy.distance_loss) 2)
    as (counts & cm & w' & _ & _ & Hcm & Hrow & _).
  - vm_compute. repeat constructor.
  - lia.
  - assert (2 ∉ (evaluated_pairs (T := Toy.backend Toy.distance_loss)
                    (set_training false (Toy.net Toy.distance_loss))
                    (iter_loader (Toy.val_set Toy.distance_loss)
                       (Toy.world0 Toy.distance_loss)).1
                    (iter_loader (Toy.val_set Toy.distance_loss)
                       (Toy.world0 Toy.distance_loss)).2).*1) as Hno
      by compute_done.
    intros p Hin. apply Hno.
    exact (list_elem_of_fmap_2 fst _ _ Hin).
  - exists cm, w'. split; [exact Hcm | exact Hrow].
Defined.

Lemma toy_restore_returns :
  match load_checkpoint (T := Toy.backend Toy.distance_loss)
          (Toy.net Toy.distance_loss) Toy.saved None
          (Toy.restore_world Toy.distance_loss) with
  | Ok (_, w') => load w' 0 = 42%Z ∧ load w' 1 = 7%Z
  | Raise _ => False
  end.
Proof. vm_compute. done. Qed.

Lemma load_checkpoint_without_optimizer_witness :
  match load_checkpoint (T := Toy.backend Toy.distance_loss)
          (Toy.net Toy.distance_loss) Toy.saved None
          (Toy.restore_world Toy.distance_loss) with
  | Ok (r, w') =>
      r = None
      ∧ values w' (optimizer_state_dict (Toy.adam_stepped Toy.distance_loss))
        = values (Toy.restore_world Toy.distance_loss)
            (optimizer_state_dict (Toy.adam_stepped Toy.distance_loss))
      ∧ next_loc w' = next_loc (Toy.restore_world Toy.distance_loss)
  | Raise _ => False
  end.
Proof.
  pose proof toy_restore_returns as Hret.
  destruct (load_checkpoint _ _ _ _) as [[r w']|e] eqn:E; [|exact Hret].
  assert (NoDup (locs_of (parameters (Toy.net Toy.distance_loss)))) as Hnd
    by (apply NoDup_singleton).
  assert (∀ sd l, Toy.saved !! "state_dict"%string = Some sd →
                  l ∈ locs_of sd →
                  l ∉ locs_of (parameters (Toy.net Toy.distance_loss)))
    as Hdisj.
  { intros sd l Hsd Hl. unfold Toy.saved in Hsd.
    rewrite lookup_singleton_eq in Hsd. inversion Hsd; subst sd.
    apply list_elem_of_singleton in Hl. subst l.
    intros Hin. apply list_elem_of_singleton in Hin. discriminate Hin. }
  assert (∀ l, l ∈ locs_of (state (Toy.adam_stepped Toy.distance_loss)) →
               l ∉ locs_of (parameters (Toy.net Toy.distance_loss)))
    as Hopt.
  { intros l Hl. apply list_elem_of_singleton in Hl. subst l.
    intros Hin. apply list_elem_of_singleton in Hin. discriminate Hin. }
  destruct (load_checkpoint_without_optimizer
              (T := Toy.backend Toy.distance_loss) _ _
              (Toy.adam_stepped Toy.distance_loss) _ _ _ Hnd Hdisj Hopt E)
    as (Hr & _ & Hvals & _ & Hnext & _).
  split; [exact Hr|]. split; [exact Hvals | exact Hnext].
Defined.

(** * Further properties *)

(** ** The result monad *)

Lemma result_bind_Ok {A B : Type} (a : A) (k : A → result B) :
  Ok a ≫= k = k a.
Proof. done. Qed.

Lemma result_bind_Raise {A B : Type} (x : exn) (k : A → result B) :
  Raise x ≫= k = Raise x.
Proof. done. Qed.

(** ** Startup validation, in full *)

Lemma strictly_inside_unit x :
  fl_ltb (fl_of_Z 0) x && fl_ltb x (fl_of_Z 1) = true
  ↔ ∃ q, x = Fin q ∧ (0 < q)%Qc ∧ (q < 1)%Qc.
Proof.
  unfold fl_of_Z. rewrite andb_true_iff. split.
  - intros [H0 H1]. destruct x as [q| | |]; try done. exists q.
    simpl in H0, H1. apply Qc_ltb_lt in H0, H1.
    rewrite Z2Qc_inj_0 in H0. rewrite Z2Qc_inj_1 in H1. done.
  - intros (q & -> & H0 & H1). simpl. rewrite !Qc_ltb_lt.
    by rewrite Z2Qc_inj_0, Z2Qc_inj_1.
Qed.

(** X1: [check_args] returns, having printed the namespace and nothing else,
    exactly on the configurations whose compile mode is one of the four
    known ones, whose worker count is positive when memory is pinned,
    and whose dropout rate and train split are numbers strictly between
    0 and 1 (NaN and the infinities are refused); on every other
    configuration it raises an [AssertionError]. *)
Theorem check_args_accepts_exactly args out :
  (valid_args args → check_args args out = Ok (out ++ [PrintArgs args]))
  ∧ (¬ valid_args args →
     ∃ msg, check_args args out = Raise (AssertionError msg)).
Proof.
  unfold valid_args, check_args, assert.
  rewrite <- !strictly_inside_unit.
  set (bd := fl_ltb (fl_of_Z 0) (dropout_rate args)
             && fl_ltb (dropout_rate args) (fl_of_Z 1)).
  set (bt := fl_ltb (fl_of_Z 0) (train_split args)
             && fl_ltb (train_split args) (fl_of_Z 1)).
  destruct (bool_decide (compile_mode args ∈ valid_compile_modes)) eqn:Ec;
    [apply bool_decide_eq_true in Ec | apply bool_decide_eq_false in Ec];
    simpl; [|split; [tauto | by eexists]].
  assert ((pin_memory args = true → (0 < num_workers args)%Z)
          ∨ (pin_memory args = true ∧ ¬ (0 < num_workers args)%Z)) as [Hp|Hp].
  { destruct (pin_memory args); [|by left].
    destruct (decide (0 < num_workers args)%Z); [by left | by right]. }
  2:{ destruct Hp as [-> Hw]. rewrite bool_decide_eq_false_2 by done. simpl.
      split; [intros (_ & Hc & _); by destruct Hw; apply Hc | by eexists]. }
  assert ((if pin_memory args
           then if bool_decide (0 < num_workers args)%Z then Ok ()
                else Raise (AssertionError
                  "With pinned memory, num_workers > 0 should be chosen")
           else Ok ()) = Ok ()) as ->.
  { destruct (pin_memory args); [|done].
    by rewrite bool_decide_eq_true_2 by auto. }
  destruct bd, bt; simpl.
  - split; [done|]. intros H. by destruct H.
  - split; [intros (_ & _ & _ & [=]) | by eexists].
  - split; [intros (_ & _ & [=] & _) | by eexists].
  - split; [intros (_ & _ & [=] & _) | by eexists].
Qed.
(** ** Ratios of counts *)

Lemma Qc_ratio_bounds (k c s : Z) :
  (0 < s)%Z → (0 ≤ c)%Z → (c ≤ k * s)%Z →
  (Qc_of_Z 0 ≤ Qc_of_Z c / Qc_of_Z s)%Qc
  ∧ (Qc_of_Z c / Qc_of_Z s ≤ Qc_of_Z k)%Qc.
Proof.
  intros Hs Hc Hk.
  assert (0 < Qc_of_Z s)%Qc as Hs'.
  { rewrite <- Z2Qc_inj_0. by apply (proj1 (Z2Qc_inj_lt 0 s)). }
  assert (Qc_of_Z s ≠ 0%Qc) as Hs0.
  { intros E. rewrite E in Hs'. by apply Qclt_not_eq in Hs'. }
  assert (Qc_of_Z c / Qc_of_Z s * Qc_of_Z s = Qc_of_Z c)%Qc as E.
  { rewrite Qcmult_comm. by apply Qcmult_div_r. }
  split; apply (Qcmult_lt_0_le_reg_r _ _ (Qc_of_Z s) Hs'); rewrite E.
  - rewrite <- Z2Qc_inj_mul. apply (proj1 (Z2Qc_inj_le _ _)). lia.
  - rewrite <- Z2Qc_inj_mul. by apply (proj1 (Z2Qc_inj_le _ _)).
Qed.

Lemma ratio_between (k : Z) (c s : nat) :
  s ≠ 0 → (Z.of_nat c ≤ k * Z.of_nat s)%Z →
  between_0_and k (fl_div (fl_of_nat c) (fl_of_nat s)).
Proof.
  intros Hs Hk. rewrite fl_div_counts by done.
  destruct (Qc_ratio_bounds k (Z.of_nat c) (Z.of_nat s)) as [H0 H1];
    [lia..|].
  split; simpl; apply negb_true_iff, Qc_ltb_ge; done.
Qed.

Lemma ratio_reaches (k : Z) (c s : nat) :
  s ≠ 0 →
  fl_leb (fl_of_Z k) (fl_div (fl_of_nat c) (fl_of_nat s)) = true
  ↔ (k * Z.of_nat s ≤ Z.of_nat c)%Z.
Proof.
  intros Hs. rewrite fl_div_counts by done. simpl.
  rewrite negb_true_iff, Qc_ltb_ge.
  assert (0 < Qc_of_Z (Z.of_nat s))%Qc as Hs'.
  { rewrite <- Z2Qc_inj_0. apply (proj1 (Z2Qc_inj_lt 0 _)). lia. }
  assert (Qc_of_Z (Z.of_nat c) / Qc_of_Z (Z.of_nat s) * Qc_of_Z (Z.of_nat s)
          = Qc_of_Z (Z.of_nat c))%Qc as E.
  { rewrite Qcmult_comm. apply Qcmult_div_r. by apply Qc_of_nat_nonzero. }
  rewrite Z2Qc_inj_le, Z2Qc_inj_mul. split.
  - intros H. rewrite <- E.
    apply Qcmult_le_compat_r; [done | by apply Qclt_le_weak].
  - intros H. apply (Qcmult_lt_0_le_reg_r _ _ _ Hs'). by rewrite E.
Qed.

(** ** Progress lines stay within the dataset *)

Section ProgressFacts.
Context {T : Torch}.

Lemma len_loader_bound (loader : DataLoader) i :
  i + 1 < len_loader loader →
  (i + 1) * Pos.to_nat (dl_batch_size loader) < length (dl_dataset loader).
Proof.
  unfold len_loader.
  pose proof (Pos2Nat.is_pos (dl_batch_size loader)) as Hb.
  set (b := Pos.to_nat (dl_batch_size loader)) in *.
  set (n := length (dl_dataset loader)).
  intros H.
  pose proof (Nat.Div0.mul_div_le (n + b - 1) b) as Hd.
  nia.
Qed.

Lemma len_loader_pos (loader : DataLoader) :
  0 < len_loader loader → dl_dataset loader ≠ [].
Proof.
  unfold len_loader. intros H E. rewrite E in H. simpl in H.
  pose proof (Pos2Nat.is_pos (dl_batch_size loader)) as Hb.
  rewrite Nat.div_small in H; lia.
Qed.

(** X2: For a batch index of the loader, whatever [print__batch_info]
    prints is a line whose sample count is at most the dataset size and
    whose percentage is between 0 and 100; the count equals the dataset
    size, and the percentage reaches 100, exactly on the final batch. *)
Theorem progress_line_within_dataset mode batch_idx loader epoch t_0 loss
    frequency w w' :
  batch_idx < len_loader loader →
  print__batch_info mode batch_idx loader epoch t_0 loss frequency w = Ok w' →
  ((Z.of_nat batch_idx `mod` frequency)%Z ≠ 0%Z ∧ w' = w)
  ∨ ((Z.of_nat batch_idx `mod` frequency)%Z = 0%Z
     ∧ ∃ line,
         stdout w' = stdout w ++ [PrintBatch line]
         ∧ bl_total_samples line = length (dl_dataset loader)
         ∧ bl_current_samples line ≤ bl_total_samples line
         ∧ (bl_current_samples line = bl_total_samples line
            ↔ batch_idx + 1 = len_loader loader)
         ∧ between_0_and 100 (bl_percentage line)
         ∧ (fl_leb (fl_of_Z 100) (bl_percentage line) = true
            ↔ batch_idx + 1 = len_loader loader)).
Proof.
  intros Hi H.
  assert (dl_dataset loader ≠ []) as Hne by (apply len_loader_pos; lia).
  assert (length (dl_dataset loader) ≠ 0) as Hn by by destruct (dl_dataset loader).
  unfold print__batch_info, assert in H.
  destruct (bool_decide (lower mode ∈ ["train"; "val"]%string)) eqn:Hm;
    [|discriminate].
  cbn [mbind result_bind] in H.
  destruct (decide (frequency = 0%Z)); [discriminate|].
  destruct (decide ((Z.of_nat batch_idx `mod` frequency)%Z = 0%Z)) as [Hs|Hs];
    [right | left; split; [done | congruence]].
  split; [done|].
  set (cur := if decide (Z.of_nat batch_idx
                         = (Z.of_nat (len_loader loader) - 1)%Z)
              then length (dl_dataset loader)
              else (batch_idx + 1) * Pos.to_nat (dl_batch_size loader)) in *.
  assert (cur ≤ length (dl_dataset loader)
          ∧ (cur = length (dl_dataset loader)
             ↔ batch_idx + 1 = len_loader loader)) as [Hle Hiff].
  { unfold cur. destruct (decide _) as [E|E].
    - split; [done|]. split; [lia | done].
    - assert (batch_idx + 1 < len_loader loader) as Hlt by lia.
      apply len_loader_bound in Hlt. split; [lia|]. split; lia. }
  unfold py_truediv, format_line, assert in H.
  destruct (decide (length (dl_dataset loader) = 0)); [done|].
  rewrite Hm in H.
  remember (fl_div (fl_of_nat (100 * cur))
              (fl_of_nat (length (dl_dataset loader)))) as perc eqn:Hperc.
  simpl in H. injection H as <-.
  eexists. split; [reflexivity|].
  cbn [bl_total_samples bl_current_samples bl_percentage]. subst perc.
  split; [done|]. split; [done|]. split; [done|]. split.
  - apply ratio_between; [done | lia].
  - rewrite ratio_reaches by done. rewrite <- Hiff. lia.
Qed.

End ProgressFacts.

(** ** Accuracies are proportions *)

Section AccuracyFacts.
Context {T : Torch}.

Lemma num_hits_le out (b : list sample) : num_hits out b ≤ num_rows out.
Proof.
  unfold num_hits, num_rows.
  etrans; [apply length_filter|]. rewrite length_zip_with. lia.
Qed.

Lemma py_truediv_between c s x :
  c ≤ s → py_truediv c s = Ok x → between_0_and 1 x.
Proof.
  unfold py_truediv. intros Hle H. destruct (decide (s = 0)); [done|].
  injection H as <-. apply ratio_between; [done | lia].
Qed.

Lemma train_batch_tally ua tl e t0 ft ib o tr w o' tr' w' :
  train_batch ua tl e t0 ft ib (o, tr, w) = Ok (o', tr', w') →
  num_correct tr ≤ num_samples tr → num_correct tr' ≤ num_samples tr'.
Proof.
  unfold train_batch. destruct ib as [i b].
  destruct (optimizer_step _ _ _ _ _ _) as [[opt sc] w1].
  intros H Hle. inv_bind H. injection H as <- <- <-. simpl.
  pose proof (num_hits_le (call_model (set_training true (model o)) b w) b).
  lia.
Qed.

Lemma val_batch_tally m vl e t0 fv ib tr w tr' w' :
  val_batch m vl e t0 fv ib (tr, w) = Ok (tr', w') →
  num_correct tr ≤ num_samples tr → num_correct tr' ≤ num_samples tr'.
Proof.
  unfold val_batch. destruct ib as [i b].
  intros H Hle. inv_bind H. injection H as <- <-. simpl.
  pose proof (num_hits_le (call_model m b w) b). lia.
Qed.

Lemma train_loop_tally ua tl e t0 ft ibs s s' :
  for_each ibs (train_batch ua tl e t0 ft) s = Ok s' →
  num_correct s.1.2 ≤ num_samples s.1.2 →
  num_correct s'.1.2 ≤ num_samples s'.1.2.
Proof.
  intros H H0.
  refine (for_each_inv (λ s, num_correct s.1.2 ≤ num_samples s.1.2)
            _ _ _ _ _ H0 H).
  intros ib [[o tr] w] [[o' tr'] w'] _ Hle Hb. simpl in *.
  by eapply train_batch_tally.
Qed.

Lemma val_loop_tally m vl e t0 fv ibs s s' :
  for_each ibs (val_batch m vl e t0 fv) s = Ok s' →
  num_correct s.1 ≤ num_samples s.1 →
  num_correct s'.1 ≤ num_samples s'.1.
Proof.
  intros H H0.
  refine (for_each_inv (λ s, num_correct s.1 ≤ num_samples s.1)
            _ _ _ _ _ H0 H).
  intros ib [tr w] [tr' w'] _ Hle Hb. simpl in *.
  by eapply val_batch_tally.
Qed.

(** X3: Every training and validation accuracy that [train_and_validate]
    returns is a number between 0 and 1: the correct predictions of an
    epoch never outnumber the rows the network produced. *)
Theorem accuracies_are_proportions m opt N ua tl vl ft fv w out w' :
  train_and_validate m opt N ua tl vl ft fv w = Ok (out, w') →
  Forall (between_0_and 1) (out_train_accs out)
  ∧ Forall (between_0_and 1) (out_val_accs out).
Proof.
  intros H. apply train_and_validate_inv in H as (f & Hrun & _ & ->).
  simpl. unfold run_epochs in Hrun.
  refine (for_each_inv
            (λ s : frame * world,
               Forall (between_0_and 1) (train_accs s.1)
               ∧ Forall (between_0_and 1) (val_accs s.1))
            _ _ _ (f, w') _ _ Hrun); [|by split].
  intros e [f1 w1] [f2 w2] _ [Ht Hv] Hb. simpl in *.
  apply epoch_body_inv in Hb
    as (o & tr & w3 & va & w5 & v & tacc & vacc
        & Htr & Hva & _ & Hta & Hvb & -> & _).
  simpl. apply train_loop_tally in Htr; [|simpl; lia].
  apply val_loop_tally in Hva; [|simpl; lia]. simpl in *.
  split; (apply Forall_app; split; [done|]; apply Forall_singleton).
  - exact (py_truediv_between _ _ _ Htr Hta).
  - exact (py_truediv_between _ _ _ Hva Hvb).
Qed.

End AccuracyFacts.

(** ** Training works on the caller's objects *)

Section InPlaceFacts.
Context {T : Torch}.

Lemma write_state_prefix new st w st' w' :
  write_state new st w = (st', w') → st `prefix_of` st'.
Proof.
  revert st w. induction new as [|[k v] new IH]; intros st w H; simpl in H.
  - by injection H as <- _.
  - destruct (assoc k st) as [l|].
    + by eapply IH.
    + apply IH in H. etrans; [|exact H]. by apply prefix_app_r.
Qed.

Lemma optimizer_step_in_place ua sc out b opt w opt' sc' w' :
  optimizer_step ua sc out b opt w = (opt', sc', w') →
  param_groups opt' = param_groups opt ∧ state opt `prefix_of` state opt'.
Proof.
  unfold optimizer_step. destruct (amp_step _ _ _ _ _ _) as [[ps st] sc1].
  destruct (write_state _ _ _) as [st1 w1] eqn:Hw.
  intros H. injection H as <- _ _. simpl. split; [done|].
  by eapply write_state_prefix.
Qed.

Lemma trained_from_refl o : trained_from o o.
Proof. by split. Qed.

Lemma train_batch_in_place ua tl e t0 ft ib o0 o tr w o' tr' w' :
  train_batch ua tl e t0 ft ib (o, tr, w) = Ok (o', tr', w') →
  trained_from o0 o → trained_from o0 o'.
Proof.
  unfold train_batch. destruct ib as [i b].
  destruct (optimizer_step _ _ _ _ _ _) as [[opt sc] w1] eqn:Hs.
  apply optimizer_step_in_place in Hs as [Hg Hp].
  intros H (Hm & Ho & Hst). inv_bind H. injection H as <- _ _.
  split; [done|]. simpl. split; [congruence|]. by etrans.
Qed.

Lemma train_loop_in_place ua tl e t0 ft ibs o0 s s' :
  for_each ibs (train_batch ua tl e t0 ft) s = Ok s' →
  trained_from o0 s.1.1 → trained_from o0 s'.1.1.
Proof.
  intros H H0.
  refine (for_each_inv (λ s, trained_from o0 s.1.1) _ _ _ _ _ H0 H).
  intros ib [[o tr] w] [[o' tr'] w'] _ Hle Hb. simpl in *.
  by eapply train_batch_in_place.
Qed.

Lemma epoch_body_in_place ua tl vl ft fv e o0 f w f' w' :
  epoch_body ua tl vl ft fv e (f, w) = Ok (f', w') →
  trained_from o0 (objects f) →
  trained_from o0 (objects f') ∧ training (model (objects f')) = true.
Proof.
  intros Hb H0.
  apply epoch_body_inv in Hb
    as (o & tr & w3 & va & w5 & v & tacc & vacc
        & Htr & _ & _ & _ & _ & -> & _).
  apply (train_loop_in_place _ _ _ _ _ _ o0) in Htr; [|done].
  simpl in *. by destruct Htr as (? & ? & ?).
Qed.

Lemma run_epochs_in_place ua tl vl ft fv n m opt w0 f w :
  run_epochs ua tl vl ft fv n (frame0 m opt ua, w0) = Ok (f, w) →
  trained_from (Objs m opt (GradScaler ua)) (objects f)
  ∧ (n = 0 → checkpoint f = None)
  ∧ (0 < n → training (model (objects f)) = true).
Proof.
  unfold run_epochs. intros Hrun.
  pose (I := λ (k : nat) (s : frame * world),
          trained_from (Objs m opt (GradScaler ua)) (objects s.1)
          ∧ (k = 0 → checkpoint s.1 = None)
          ∧ (0 < k → training (model (objects s.1)) = true)).
  change (I (0 + n) (f, w)).
  refine (for_each_seq_ind I _ _ _ _ _ _ _ Hrun).
  - split; [apply trained_from_refl|]. split; [done | lia].
  - intros k [f1 w1] [f2 w2] _ (Hin & _) Hb. simpl in *.
    destruct (epoch_body_in_place _ _ _ _ _ _ _ _ _ _ _ Hb Hin).
    split; [done|]. split; [lia | done].
Qed.

(** X4: When [train_and_validate] returns, at least one epoch has run, the
    model it was given is in training mode and has the parameter tensors
    it had, and the optimizer has its parameter groups and every state
    entry it had, possibly followed by new ones. *)
Theorem training_is_in_place m opt N ua tl vl ft fv w out w' :
  train_and_validate m opt N ua tl vl ft fv w = Ok (out, w') →
  (1 ≤ N)%Z
  ∧ model (out_objects out) = set_training true m
  ∧ param_groups (optimizer (out_objects out)) = param_groups opt
  ∧ state opt `prefix_of` state (optimizer (out_objects out)).
Proof.
  intros H. apply train_and_validate_inv in H as (f & Hrun & Hck & ->).
  simpl. apply run_epochs_in_place in Hrun as (Hin & H0 & Ht).
  assert (1 ≤ N)%Z as HN.
  { destruct (decide (Z.to_nat N = 0)) as [E|E]; [|lia].
    rewrite H0 in Hck by done. discriminate. }
  destruct Hin as (Hp & Hg & Hs). simpl in *.
  split; [done|]. split; [|done].
  destruct (model (objects f)) as [ps tr]. unfold set_training. simpl in *.
  rewrite Hp, Ht by lia. done.
Qed.

End InPlaceFacts.

(** ** The returned checkpoint is the validated network *)

Section BestCheckpointFacts.
Context {T : Torch}.

Lemma values_snd (w : world) d : (values w d).*2 = load w <$> locs_of d.
Proof.
  unfold values, locs_of. rewrite <- !list_fmap_compose.
  apply list_fmap_ext. by intros i [k l] _.
Qed.

Lemma values_fst (w : world) d : (values w d).*1 = d.*1.
Proof.
  unfold values. rewrite <- !list_fmap_compose.
  apply list_fmap_ext. by intros i [k l] _.
Qed.

Lemma run_epochs_S ua tl vl ft fv n s f' w' :
  run_epochs ua tl vl ft fv (S n) s = Ok (f', w') →
  ∃ f w, run_epochs ua tl vl ft fv n s = Ok (f, w)
         ∧ epoch_body ua tl vl ft fv n (f, w) = Ok (f', w').
Proof.
  unfold run_epochs. rewrite for_each_seq_S. intros H. inv_bind H.
  destruct a as [f w]. by exists f, w.
Qed.

Lemma run_epochs_val_losses_prefix ua tl vl ft fv k n s f1 w1 f2 w2 :
  k ≤ n →
  run_epochs ua tl vl ft fv k s = Ok (f1, w1) →
  run_epochs ua tl vl ft fv n s = Ok (f2, w2) →
  val_losses f1 `prefix_of` val_losses f2.
Proof.
  unfold run_epochs. intros Hk H1 H2.
  destruct (for_each_seq_prefix _ _ _ _ _ Hk H2) as (t & Ht & Hrest).
  rewrite H1 in Ht. injection Ht as <-.
  refine (for_each_inv (λ s : frame * world,
                          val_losses f1 `prefix_of` val_losses s.1)
            _ _ _ (f2, w2) _ _ Hrest); [|done].
  intros e [f w] [f' w'] _ Hp Hb. simpl in *.
  apply epoch_body_appends in Hb as (_ & [x ->] & _).
  by apply prefix_app_r.
Qed.

(** The validation loss an epoch appends is the loss, over one pass of
    the validation loader, of the parameter values the epoch ends
    with. *)
Lemma epoch_body_validation ua tl vl ft fv e f w f' w' :
  allocated (objects f) w → length (val_losses f) = e →
  epoch_body ua tl vl ft fv e (f, w) = Ok (f', w') →
  ∃ w3,
    val_losses f' !! e
    = Some (validation_loss_of
              (load w' <$> locs_of (parameters (model (objects f'))))
              (iter_loader vl w3).1 (length (dl_dataset vl))).
Proof.
  intros Halloc Hlen H. apply epoch_body_inv in H
    as (o & tr & w3 & va & w5 & v & tacc & vacc & H); simpl in H.
  destruct H as (Htrain & Hval & Hv & _ & _ & -> & Hh' & Hn').
  destruct (iter_loader_heap tl
              (World (heap w) (next_loc w) (stdout w) (S (ticks w))
                 (draws w))) as [Hh2 Hn2]; simpl in Hh2, Hn2.
  destruct (iter_loader_heap vl w3) as [Hh4 Hn4].
  pose proof (val_loop_losses _ _ _ _ _ _ _ _ _ _ Hval) as Hlosses.
  apply val_loop_heap in Hval as [Hh5 Hn5].
  destruct (select_checkpoint _ v _ _ w5) as [[minv ck] w6] eqn:Esel.
  simpl in *.
  assert (inv (λ _, False) 0 o w3) as Hi.
  { apply (train_loop_keeps (λ _, False) 0) in Htrain as [Hi _]; [done|].
    eapply inv_transfer; [done | exact Hn2 | by apply allocated_inv]. }
  assert (allocated
            (Objs (set_training false (model o)) (optimizer o) (scaler o))
            w5) as Halloc5.
  { apply allocated_inv.
    eapply inv_transfer; [done | | exact Hi]. by rewrite Hn5, Hn4. }
  apply select_checkpoint_spec in Esel as [Hk6 _]; [|done].
  exists w3.
  rewrite lookup_app_r in Hv by lia.
  rewrite Hlen, Nat.sub_diag in Hv. simpl in Hv. injection Hv as <-.
  rewrite lookup_app_r by lia. rewrite Hlen, Nat.sub_diag. simpl.
  f_equal. unfold validation_loss_of. f_equal. f_equal.
  rewrite Hlosses, enumerate_snd. simpl.
  apply list_fmap_ext. intros i b _. f_equal.
  unfold call_model. simpl. f_equal.
  apply list_fmap_ext. intros j l Hl.
  assert (l ∈ live (Objs (set_training false (model o)) (optimizer o)
                      (scaler o))) as Hlive.
  { unfold live. simpl. apply elem_of_app. left.
    by eapply list_elem_of_lookup_2. }
  apply Halloc5 in Hlive.
  transitivity (load w5 l).
  - apply load_same_lookup. by rewrite Hh5, Hh4.
  - symmetry. apply load_same_lookup. rewrite Hh'.
    destruct Hk6 as [_ Hk6]. by apply Hk6.
Qed.

(** What the loop knows about the checkpoint it returns. *)
Lemma best_checkpoint_loss m opt N ua tl vl ft fv w out w' :
  allocated (Objs m opt (GradScaler ua)) w →
  train_and_validate m opt N ua tl vl ft fv w = Ok (out, w') →
  ∃ e v sd w3,
    out_val_losses out !! e = Some v
    ∧ (∀ e' v', out_val_losses out !! e' = Some v' → fl_ltb v' v = false)
    ∧ best_checkpoint out !! "state_dict" = Some sd
    ∧ sd.*1 = (parameters m).*1
    ∧ (∀ l, l ∈ locs_of sd → l ∉ locs_of (parameters m))
    ∧ v = validation_loss_of (load w' <$> locs_of sd) (iter_loader vl w3).1
            (length (dl_dataset vl)).
Proof.
  intros Halloc H.
  apply train_and_validate_inv in H as (f & Hrun & Hck & ->). simpl in *.
  apply perf_counter_allocated in Halloc.
  destruct (run_epochs_tracking _ _ _ _ _ _ _ _ _ _ _ Halloc Hrun)
    as (_ & _ & Hsep & Htr).
  unfold tracking in Htr. rewrite Hck in Htr.
  destruct Htr as (e & v & fe & we & He & Hv & _ & _ & Hmin & _ & Hrune
                   & sd & od & Eck & Hsd & _).
  destruct (run_epochs_S _ _ _ _ _ _ _ _ _ Hrune) as (fk & wk & Hrunk & Hb).
  destruct (run_epochs_tracking _ _ _ _ _ _ _ _ _ _ _ Halloc Hrunk)
    as ((_ & Hlen & _) & Hallock & _).
  destruct (epoch_body_validation _ _ _ _ _ _ _ _ _ _ Hallock Hlen Hb)
    as (w3 & Hloss).
  assert (S e ≤ Z.to_nat N) as Hle by lia.
  pose proof (run_epochs_val_losses_prefix _ _ _ _ _ _ _ _ _ _ _ _
                Hle Hrune Hrun) as [rest Hrest].
  assert (best_checkpoint out !! "state_dict" = Some sd) as Hlook
    by by rewrite Eck, lookup_insert_ne, lookup_singleton.
  exists e, v, sd, w3. split; [done|]. split; [done|]. split; [done|].
  assert (parameters (model (objects fe)) = parameters m) as Hps.
  { apply run_epochs_in_place in Hrune as [[Hp _] _]. exact Hp. }
  assert (parameters (model (objects f)) = parameters m) as Hpf.
  { apply run_epochs_in_place in Hrun as [[Hp _] _]. exact Hp. }
  split; [|split].
  - rewrite <- (values_fst w' sd), Hsd, values_fst.
    unfold model_state_dict. by rewrite Hps.
  - intros l Hl Hin.
    destruct (Hsep _ l Hck) as [_ Hnl]; [by exists "state_dict"%string, sd|].
    apply Hnl. unfold live. rewrite Hpf. apply elem_of_app. by left.
  - rewrite Hrest in Hv.
    rewrite lookup_app_l in Hv by by eapply lookup_lt_Some.
    rewrite Hloss in Hv. injection Hv as <-.
    by rewrite <- !values_snd, Hsd.
Qed.

(** X5: The checkpoint that [train_and_validate] returns reproduces the
    smallest validation loss of the run: evaluated over the validation
    batches of the epoch that captured it, the values stored under
    "state_dict", which carry the parameter names of the model, give the
    loss of that epoch, and no epoch has a strictly smaller one. *)
Theorem returned_checkpoint_reproduces_best_loss m opt N ua tl vl ft fv w
    out w' :
  allocated (Objs m opt (GradScaler ua)) w →
  train_and_validate m opt N ua tl vl ft fv w = Ok (out, w') →
  ∃ e v sd w3,
    out_val_losses out !! e = Some v
    ∧ (∀ e' v', out_val_losses out !! e' = Some v' → fl_ltb v' v = false)
    ∧ best_checkpoint out !! "state_dict" = Some sd
    ∧ sd.*1 = (parameters m).*1
    ∧ v = validation_loss_of (load w' <$> locs_of sd) (iter_loader vl w3).1
            (length (dl_dataset vl)).
Proof.
  intros Halloc H.
  destruct (best_checkpoint_loss _ _ _ _ _ _ _ _ _ _ _ Halloc H)
    as (e & v & sd & w3 & H1 & H2 & H3 & H4 & _ & H6).
  by exists e, v, sd, w3.
Qed.

End BestCheckpointFacts.

(** ** Degenerate inputs *)

Section DegenerateFacts.
Context {T : Torch}.

Lemma for_each_raises {A St : Type} (body : A → St → result St)
    (P : exn → Prop) xs s x :
  (∀ a t y, body a t = Raise y → P y) →
  for_each xs body s = Raise x → P x.
Proof.
  intros Hbody. revert s. induction xs as [|a xs IH]; intros s H; [done|].
  simpl in H. destruct (body a s) as [t|y] eqn:Hb; simpl in H.
  - by eapply IH.
  - injection H as <-. by eapply Hbody.
Qed.

Lemma print__batch_info_raises mode i ld e t0 loss fr (w : world) x :
  lower mode ∈ ["train"; "val"]%string →
  print__batch_info mode i ld e t0 loss fr w = Raise x →
  x = ZeroDivisionError.
Proof.
  unfold print__batch_info, format_line, assert. intros Hm.
  rewrite !bool_decide_eq_true_2 by done. rewrite result_bind_Ok.
  destruct (decide (fr = 0%Z)); [by intros [= <-]|].
  destruct (decide _); [|done].
  unfold py_truediv. destruct (decide (length (dl_dataset ld) = 0));
    [by intros [= <-] | done].
Qed.

Lemma print__batch_info_zero mode i ld e t0 loss (w : world) :
  lower mode ∈ ["train"; "val"]%string →
  print__batch_info mode i ld e t0 loss 0 w = Raise ZeroDivisionError.
Proof.
  unfold print__batch_info, assert. intros Hm.
  by rewrite !bool_decide_eq_true_2 by done.
Qed.

Lemma mode_train : lower "train" ∈ ["train"; "val"]%string.
Proof. by left. Qed.

Lemma mode_val : lower "val" ∈ ["train"; "val"]%string.
Proof. right. by left. Qed.

Lemma train_batch_raises ua tl e t0 ft ib s x :
  train_batch ua tl e t0 ft ib s = Raise x → x = ZeroDivisionError.
Proof.
  unfold train_batch. destruct ib as [i b]. destruct s as [[o tr] w].
  destruct (optimizer_step _ _ _ _ _ _) as [[opt sc] w1].
  destruct (print__batch_info _ _ _ _ _ _ _ _) as [w2|y] eqn:Hp; [done|].
  intros [= <-]. by eapply print__batch_info_raises; [apply mode_train|].
Qed.

Lemma val_batch_raises m vl e t0 fv ib s x :
  val_batch m vl e t0 fv ib s = Raise x → x = ZeroDivisionError.
Proof.
  unfold val_batch. destruct ib as [i b]. destruct s as [tr w].
  destruct (print__batch_info _ _ _ _ _ _ _ _) as [w2|y] eqn:Hp; [done|].
  intros [= <-]. by eapply print__batch_info_raises; [apply mode_val|].
Qed.

Lemma train_batch_zero ua tl e t0 ib s :
  train_batch ua tl e t0 0 ib s = Raise ZeroDivisionError.
Proof.
  unfold train_batch. destruct ib as [i b]. destruct s as [[o tr] w].
  destruct (optimizer_step _ _ _ _ _ _) as [[opt sc] w1].
  by rewrite print__batch_info_zero by apply mode_train.
Qed.

Lemma val_batch_zero m vl e t0 ib s :
  val_batch m vl e t0 0 ib s = Raise ZeroDivisionError.
Proof.
  unfold val_batch. destruct ib as [i b]. destruct s as [tr w].
  by rewrite print__batch_info_zero by apply mode_val.
Qed.

Lemma iter_loader_empty ld (w : world) :
  dl_dataset ld = [] → (iter_loader ld w).1 = [].
Proof.
  intros Hd. apply length_zero_iff_nil. rewrite iter_loader_length.
  unfold len_loader. rewrite Hd. simpl length. apply Nat.div_small.
  pose proof (Pos2Nat.is_pos (dl_batch_size ld)). lia.
Qed.

Lemma iter_loader_nonempty ld (w : world) :
  dl_dataset ld ≠ [] → ∃ b bs, (iter_loader ld w).1 = b :: bs.
Proof.
  intros Hd. pose proof (iter_loader_length ld w) as Hl.
  assert (0 < len_loader ld) as Hpos.
  { unfold len_loader.
    pose proof (Pos2Nat.is_pos (dl_batch_size ld)).
    assert (0 < length (dl_dataset ld)) by (destruct (dl_dataset ld);
      [done | simpl; lia]).
    apply Nat.div_str_pos. lia. }
  destruct (iter_loader ld w).1 as [|b bs]; [simpl in Hl; lia|].
  by exists b, bs.
Qed.

(** The first epoch on degenerate inputs. *)
Lemma first_epoch_raises ua tl vl ft fv m opt (w : world) :
  dl_dataset tl = [] ∨ dl_dataset vl = [] ∨ ft = 0%Z ∨ fv = 0%Z →
  epoch_body ua tl vl ft fv 0 (frame0 m opt ua, w) = Raise ZeroDivisionError.
Proof.
  intros Hdeg. unfold epoch_body.
  destruct (perf_counter w) as [t0 w1].
  pose proof (iter_loader_empty tl w1) as Hte.
  pose proof (iter_loader_nonempty tl w1) as Htn.
  destruct (iter_loader tl w1) as [tb w2]. simpl in Hte, Htn.
  destruct (for_each (enumerate tb) _ _) as [[[o tr] w3]|x] eqn:Htrain.
  2:{ rewrite result_bind_Raise. f_equal.
      refine (for_each_raises _ (λ x, x = ZeroDivisionError) _ _ _ _ Htrain).
      intros a t y. apply train_batch_raises. }
  rewrite result_bind_Ok.
  pose proof (iter_loader_empty vl w3) as Hve.
  pose proof (iter_loader_nonempty vl w3) as Hvn.
  destruct (iter_loader vl w3) as [vb w4]. simpl in Hve, Hvn.
  destruct (for_each (enumerate vb) _ _) as [[va w5]|x] eqn:Hval.
  2:{ rewrite result_bind_Raise. f_equal.
      refine (for_each_raises _ (λ x, x = ZeroDivisionError) _ _ _ _ Hval).
      intros a t y. apply val_batch_raises. }
  rewrite result_bind_Ok.
  change (val_losses (frame0 m opt ua)) with (@nil fl).
  change (list_index ([] ++ [?x]) 0) with (Ok x).
  rewrite result_bind_Ok.
  destruct (select_checkpoint _ _ _ _ _) as [[minv ck] w6].
  assert (num_samples tr = 0 ∨ num_samples va = 0) as Hzero.
  { destruct (decide (dl_dataset tl = [])) as [Et|Et].
    { left. rewrite (Hte Et) in Htrain. by injection Htrain as _ <- _. }
    destruct (Htn Et) as (b & bs & ->).
    destruct (decide (ft = 0%Z)) as [->|Hft].
    { exfalso. unfold enumerate in Htrain.
      cbn [length seq zip_with for_each] in Htrain.
      by rewrite train_batch_zero in Htrain. }
    destruct (decide (dl_dataset vl = [])) as [Ev|Ev].
    { right. rewrite (Hve Ev) in Hval. by injection Hval as <- _. }
    destruct (Hvn Ev) as (b' & bs' & ->).
    destruct (decide (fv = 0%Z)) as [->|Hfv];
      [|by destruct Hdeg as [?|[?|[?|?]]]].
    exfalso. unfold enumerate in Hval.
    cbn [length seq zip_with for_each] in Hval.
    by rewrite val_batch_zero in Hval. }
  destruct (py_truediv (num_correct tr) (num_samples tr)) as [ta|x] eqn:Hta.
  2:{ unfold py_truediv in Hta.
      destruct (decide _); [by injection Hta as <- | done]. }
  rewrite result_bind_Ok.
  destruct (py_truediv (num_correct va) (num_samples va)) as [vacc|x] eqn:Hva.
  2:{ unfold py_truediv in Hva.
      destruct (decide _); [by injection Hva as <- | done]. }
  exfalso. unfold py_truediv in Hta, Hva.
  destruct (decide (num_samples tr = 0)); [done|].
  destruct (decide (num_samples va = 0)); [done|]. by destruct Hzero.
Qed.

(** X15: With an empty training or validation set, or a printing frequency
    of zero, a run of at least one epoch raises [ZeroDivisionError],
    in its first epoch. *)
Theorem degenerate_inputs_raise m opt N ua tl vl ft fv w :
  (1 ≤ N)%Z →
  dl_dataset tl = [] ∨ dl_dataset vl = [] ∨ ft = 0%Z ∨ fv = 0%Z →
  train_and_validate m opt N ua tl vl ft fv w = Raise ZeroDivisionError.
Proof.
  intros HN Hdeg. rewrite train_and_validate_unfold. unfold run_epochs.
  destruct (Z.to_nat N) as [|n] eqn:En; [lia|].
  change (seq 0 (S n)) with (0 :: seq 1 n). cbn [for_each].
  by rewrite first_epoch_raises.
Qed.

End DegenerateFacts.

(** ** Restoring a checkpoint *)

Section RestoreFacts.
Context {T : Torch}.

Lemma assoc_lookup {V : Type} (d : list (string * V)) i k v :
  NoDup d.*1 → d !! i = Some (k, v) → assoc k d = Some v.
Proof.
  revert i. induction d as [|[k' v'] d IH]; intros i Hnd Hi; [done|].
  rewrite fmap_cons in Hnd. apply NoDup_cons in Hnd as [Hk Hnd]. simpl.
  destruct i as [|i]; simpl in Hi.
  - injection Hi as -> ->. by rewrite decide_True.
  - rewrite decide_False; [by eapply IH|].
    intros ->. apply Hk. apply list_elem_of_fmap. exists (k', v).
    split; [done | by eapply list_elem_of_lookup_2].
Qed.

Lemma assoc_is_Some {V : Type} (d : list (string * V)) k :
  k ∈ d.*1 ↔ is_Some (assoc k d).
Proof.
  induction d as [|[k' v'] d IH]; simpl.
  - split; [by intros ?%elem_of_nil | by intros [? ?]].
  - rewrite elem_of_cons. destruct (decide (k = k')) as [->|Hne].
    + split; [by eexists | by left].
    + rewrite <- IH. split; [by intros [?|?] | by right].
Qed.

(** With every parameter name present in the state dict, the copy loop
    can only fail on a size mismatch. *)
Lemma copy_params_raise (sd ps : state_dict) (w : world) e :
  ps.*1 ⊆ sd.*1 → for_each ps (copy_param sd) w = Raise e →
  e = RuntimeError "size mismatch".
Proof.
  revert w. induction ps as [|[k l] ps IH]; intros w Hsub H; [done|].
  assert (is_Some (assoc k sd)) as [src Hsrc].
  { apply assoc_is_Some, Hsub. rewrite fmap_cons. by left. }
  simpl in H. destruct (copy_param sd (k, l) w) as [w1|e1] eqn:Hc;
    simpl in H.
  - eapply IH; [|exact H].
    intros k' Hk'. apply Hsub. rewrite fmap_cons. by right.
  - injection H as <-. unfold copy_param in Hc. simpl in Hc.
    rewrite Hsrc in Hc. destruct (decide _); [done|]. by injection Hc as <-.
Qed.

(** [load_checkpoint] without optimizer, on a state dict that has the
    parameter names of the model in the same order and shares no tensor
    with it: the parameters end with the values of the state dict, or a
    size mismatch is raised. *)
Lemma restore_by_name m (ck : gmap string state_dict) (sd : state_dict) w :
  NoDup (parameters m).*1 → NoDup (locs_of (parameters m)) →
  ck !! "state_dict" = Some sd →
  sd.*1 = (parameters m).*1 →
  (∀ l, l ∈ locs_of sd → l ∉ locs_of (parameters m)) →
  (∃ w', load_checkpoint m ck None w = Ok (None, w')
         ∧ load w' <$> locs_of (parameters m) = load w <$> locs_of sd
         ∧ stdout w' = stdout w ++ [PrintText "=> Checkpoint loaded."])
  ∨ load_checkpoint m ck None w = Raise (RuntimeError "size mismatch").
Proof.
  intros Hnames Hlocs Hsd Heq Hdisj.
  unfold load_checkpoint, getitem. rewrite Hsd. simpl.
  unfold load_state_dict. rewrite bool_decide_eq_true_2 by by rewrite Heq.
  destruct (for_each (parameters m) (copy_param sd) w) as [w1|e] eqn:Hloop.
  - left. simpl. eexists. split; [done|]. simpl.
    apply copy_params_spec in Hloop as (_ & _ & Hout & Hvals); [|done..].
    split; [|by rewrite Hout].
    unfold locs_of, state_dict in *. apply list_eq. intros i.
    rewrite !list_lookup_fmap.
    destruct (lookup (M := list (string * loc)) i (parameters m))
      as [[k l]|] eqn:Hi; simpl.
    + assert (∃ src, sd !! i = Some (k, src)) as [src Hsrc].
      { assert (sd.*1 !! i = Some k) as Hk
          by by rewrite Heq, list_lookup_fmap, Hi.
        rewrite list_lookup_fmap in Hk.
        destruct (sd !! i) as [[k' src]|]; [|done].
        injection Hk as ->. by exists src. }
      rewrite Hsrc. simpl. f_equal.
      destruct (Hvals k l) as (src' & Ha & Hl);
        [by eapply list_elem_of_lookup_2|].
      rewrite (assoc_lookup sd i k src) in Ha by by rewrite ?Heq.
      by injection Ha as <-.
    + assert (sd !! i = None) as ->; [|done].
      apply lookup_ge_None. apply lookup_ge_None in Hi.
      rewrite <- (length_fmap fst sd), Heq, length_fmap. done.
  - right. simpl. f_equal.
    eapply copy_params_raise; [|exact Hloop]. by rewrite Heq.
Qed.

(** X6: Restoring the checkpoint that [train_and_validate] returned into the
    model it trained either raises a size mismatch or gives that model
    the smallest validation loss of the run back: its parameters then
    hold the values with which that loss was computed. *)
Theorem restored_model_has_best_loss m opt N ua tl vl ft fv w out w' :
  allocated (Objs m opt (GradScaler ua)) w →
  NoDup (parameters m).*1 → NoDup (locs_of (parameters m)) →
  train_and_validate m opt N ua tl vl ft fv w = Ok (out, w') →
  (∃ w'' e v w3,
     load_checkpoint (model (out_objects out)) (best_checkpoint out) None w'
     = Ok (None, w'')
     ∧ out_val_losses out !! e = Some v
     ∧ (∀ e' v', out_val_losses out !! e' = Some v' → fl_ltb v' v = false)
     ∧ v = validation_loss_of
             (load w'' <$> locs_of (parameters (model (out_objects out))))
             (iter_loader vl w3).1 (length (dl_dataset vl)))
  ∨ load_checkpoint (model (out_objects out)) (best_checkpoint out) None w'
    = Raise (RuntimeError "size mismatch").
Proof.
  intros Halloc Hnames Hlocs H.
  destruct (best_checkpoint_loss _ _ _ _ _ _ _ _ _ _ _ Halloc H)
    as (e & v & sd & w3 & Hv & Hmin & Hsd & Heq & Hdisj & Hloss).
  apply train_and_validate_inv in H as (f & Hrun & _ & Hout).
  apply (f_equal out_objects) in Hout. simpl in Hout.
  assert (parameters (model (out_objects out)) = parameters m) as Hpf.
  { rewrite Hout. apply run_epochs_in_place in Hrun as [[Hp _] _]. exact Hp. }
  destruct (restore_by_name (model (out_objects out)) (best_checkpoint out)
              sd w')
    as [(w'' & Hload & Hvals & _)|Hraise];
    try (rewrite Hpf; done); [done | left | by right].
  exists w'', e, v, w3. split; [done|]. split; [done|]. split; [done|].
  by rewrite Hvals.
Qed.

End RestoreFacts.

Section IdempotenceFacts.
Context {T : Torch}.

Lemma store_same l v (w : world) : heap w !! l = Some v → store l v w = w.
Proof.
  intros H. destruct w as [h n o t d]. unfold store. simpl in *.
  f_equal. by apply insert_id.
Qed.

Lemma load_Some (w : world) l v : heap w !! l = Some v → load w l = v.
Proof. intros H. unfold load. by rewrite lookup_total_alt, H. Qed.

(** A copy loop whose targets already hold the values of their sources
    changes nothing. *)
Lemma copy_params_fixpoint (sd ps : state_dict) (w : world) :
  (∀ k l, (k, l) ∈ ps →
     ∃ src, assoc k sd = Some src ∧ heap w !! l = Some (load w src)) →
  for_each ps (copy_param sd) w = Ok w.
Proof.
  induction ps as [|[k l] ps IH]; intros H; [done|]. simpl.
  destruct (H k l) as (src & Hsrc & Hl); [by left|].
  assert (copy_param sd (k, l) w = Ok w) as ->.
  { unfold copy_param. simpl. rewrite Hsrc.
    rewrite (load_Some _ _ _ Hl), decide_True by done.
    by rewrite (store_same _ _ _ Hl). }
  simpl. apply IH.
  intros k' l' Hin. apply H. by right.
Qed.

Lemma copy_params_allocated (sd ps : state_dict) (w w' : world) :
  for_each ps (copy_param sd) w = Ok w' →
  ∀ l, l ∈ locs_of ps ∨ is_Some (heap w !! l) → is_Some (heap w' !! l).
Proof.
  revert w. induction ps as [|[k l] ps IH]; intros w H l' Hl'.
  - injection H as <-. destruct Hl' as [Hl'|Hl']; [|done].
    by apply elem_of_nil in Hl'.
  - simpl in H. apply bind_Ok in H as (w1 & Hc & H).
    unfold copy_param in Hc. simpl in Hc.
    destruct (assoc k sd) as [src|]; [|discriminate].
    destruct (decide _); [|discriminate]. injection Hc as <-.
    apply (IH _ H). destruct Hl' as [Hl'|Hl'].
    + unfold locs_of in Hl'. rewrite fmap_cons in Hl'.
      apply elem_of_cons in Hl' as [->|Hl']; [right | by left].
      simpl. by rewrite lookup_insert_eq.
    + right. simpl. destruct (decide (l = l')) as [->|Hne].
      * by rewrite lookup_insert_eq.
      * by rewrite lookup_insert_ne.
Qed.

(** X12: Restoring a checkpoint is idempotent: after [load_checkpoint] has
    returned, a second call with the same checkpoint succeeds, changes
    no tensor and only prints its message again. *)
Theorem restoring_twice_changes_nothing m (ck : gmap string state_dict)
    w r w1 :
  NoDup (locs_of (parameters m)) →
  (∀ sd l, ck !! "state_dict" = Some sd → l ∈ locs_of sd →
           l ∉ locs_of (parameters m)) →
  load_checkpoint m ck None w = Ok (r, w1) →
  load_checkpoint m ck None w1
  = Ok (None, print (PrintText "=> Checkpoint loaded.") w1).
Proof.
  intros Hnd Hdisj H. unfold load_checkpoint in *.
  apply bind_Ok in H as (sd & Hsd & H). rewrite Hsd.
  rewrite result_bind_Ok.
  unfold getitem in Hsd.
  destruct (ck !! "state_dict") as [sd'|] eqn:Esd; [|discriminate].
  injection Hsd as ->.
  apply bind_Ok in H as (w0 & Hload & H).
  simpl in H. injection H as _ <-.
  unfold load_state_dict in *.
  destruct (bool_decide _); [|discriminate].
  pose proof (copy_params_allocated _ _ _ _ Hload) as Halloc.
  apply copy_params_spec in Hload as (Hframe & _ & _ & Hvals);
    [|done|intros l Hl; by apply (Hdisj sd l)].
  rewrite copy_params_fixpoint; [done|].
  intros k l Hin. destruct (Hvals k l Hin) as (src & Ha & Hl).
  exists src. split; [done|]. simpl.
  assert (l ∈ locs_of (parameters m)) as Hlin.
  { apply list_elem_of_fmap. by exists (k, l). }
  destruct (Halloc l) as [v Hv]; [by left|].
  rewrite Hv. f_equal. rewrite <- (load_Some _ _ _ Hv), Hl.
  symmetry. apply load_same_lookup. simpl. apply Hframe.
  apply (Hdisj sd src); [done|]. by eapply assoc_locs_of.
Qed.

End IdempotenceFacts.

Section RestoreOptimizerFacts.
Context {T : Torch}.

Lemma deepcopy_stdout d (w : world) : stdout (deepcopy d w).2 = stdout w.
Proof.
  revert w. induction d as [|[k l] d IH]; intros w; [done|]. simpl.
  specialize (IH (alloc (load w l) w).2).
  destruct (deepcopy d _) as [d' w1]. simpl in *. by rewrite IH.
Qed.

(** X7: [load_checkpoint] with an optimizer passed, when the call
    completes: the model parameters hold the values of the same-named
    entries of [checkpoint["state_dict"]], as without optimizer, and no
    other tensor is written; the optimizer object, changed in place,
    still updates the same parameter tensors and its state is
    [checkpoint["optimizer"]]: the very tensor objects of the
    checkpoint, not copies, so that no tensor is created and the
    optimizer and the checkpoint share their state tensors from then
    on; one message is printed.  The checkpoint's optimizer entry is one
    with the parameter groups of the optimizer, as [train_and_validate]
    saves it: the [ValueError] of the method on other groups is outside
    the model. *)
Theorem load_checkpoint_with_optimizer m (ck : gmap string state_dict) o w
    r w' :
  NoDup (locs_of (parameters m)) →
  (∀ d l, ck !! "state_dict" = Some d ∨ ck !! "optimizer" = Some d →
          l ∈ locs_of d → l ∉ locs_of (parameters m)) →
  load_checkpoint m ck (Some o) w = Ok (r, w') →
  ∃ sd od,
    ck !! "state_dict" = Some sd ∧ ck !! "optimizer" = Some od
    ∧ r = Some {| param_groups := param_groups o; state := od |}
    ∧ (∀ k l, (k, l) ∈ parameters m →
         ∃ src, assoc k sd = Some src ∧ load w' l = load w src)
    ∧ (∀ l, l ∉ locs_of (parameters m) → heap w' !! l = heap w !! l)
    ∧ next_loc w' = next_loc w
    ∧ values w' od = values w od
    ∧ stdout w' = stdout w ++ [PrintText "=> Checkpoint loaded."].
Proof.
  intros Hnd Hck H. unfold load_checkpoint in H.
  apply bind_Ok in H as (sd & Hsd & H).
  apply bind_Ok in H as (w1 & Hload & H).
  apply bind_Ok in H as ([r1 w2] & Hopt & H). injection H as <- <-.
  apply bind_Ok in Hopt as (od & Hod & Hopt).
  unfold getitem in Hsd, Hod.
  destruct (ck !! "state_dict") as [sd'|] eqn:Esd; [|discriminate].
  injection Hsd as ->.
  destruct (ck !! "optimizer") as [od'|] eqn:Eod; [|discriminate].
  injection Hod as ->.
  unfold optimizer_load_state_dict in Hopt. injection Hopt as <- <-.
  unfold load_state_dict in Hload. destruct (bool_decide _); [|discriminate].
  apply copy_params_spec in Hload as (Hframe & Hnext & Hout & Hvals);
    [|done|intros l Hl; by apply (Hck sd l); [left|]].
  exists sd, od. split; [done|]. split; [done|]. split; [done|].
  split; [done|]. split; [done|]. split; [done|]. split.
  - unfold values. apply list_fmap_ext. intros i [k l] Hi.
    unfold prod_map. simpl. f_equal. apply load_same_lookup, Hframe.
    apply (Hck od l); [by right|]. apply list_elem_of_fmap.
    exists (k, l). split; [done | by eapply list_elem_of_lookup_2].
  - simpl. by rewrite Hout.
Qed.

End RestoreOptimizerFacts.

Section StrictLoadingFacts.
Context {T : Torch}.

Lemma copy_params_names (sd ps : state_dict) (w w' : world) :
  for_each ps (copy_param sd) w = Ok w' → ps.*1 ⊆ sd.*1.
Proof.
  revert w. induction ps as [|[k l] ps IH]; intros w H.
  - intros k Hk. by apply elem_of_nil in Hk.
  - simpl in H. apply bind_Ok in H as (w1 & Hc & H).
    unfold copy_param in Hc. simpl in Hc.
    destruct (assoc k sd) as [src|] eqn:Ek; [|discriminate].
    intros k' Hk'. rewrite fmap_cons in Hk'.
    apply elem_of_cons in Hk' as [->|Hk'].
    + apply assoc_is_Some. by exists src.
    + by apply (IH _ H).
Qed.

Lemma copy_params_error (sd ps : state_dict) (w : world) e :
  for_each ps (copy_param sd) w = Raise e → ∃ msg, e = RuntimeError msg.
Proof.
  revert w. induction ps as [|[k l] ps IH]; intros w H; [done|].
  simpl in H. destruct (copy_param sd (k, l) w) as [w1|e1] eqn:Hc;
    simpl in H.
  - by eapply IH.
  - injection H as <-. unfold copy_param in Hc. simpl in Hc.
    destruct (assoc k sd); [destruct (decide _); [done|] |];
      injection Hc as <-; by eexists.
Qed.

(** X8: [load_checkpoint] is strict, with or without optimizer: a checkpoint
    without "state_dict" raises [KeyError]; a state dict whose names are
    not exactly the parameter names of the model raises [RuntimeError];
    so when the call completes, the names agree and, if an optimizer was
    passed, the checkpoint has an "optimizer" entry. *)
Theorem load_checkpoint_is_strict m (ck : gmap string state_dict) opt w :
  (ck !! "state_dict" = None →
   load_checkpoint m ck opt w = Raise (KeyError "state_dict"))
  ∧ (∀ sd : state_dict, ck !! "state_dict" = Some sd →
       ¬ (sd.*1 ⊆ (parameters m).*1 ∧ (parameters m).*1 ⊆ sd.*1) →
       ∃ msg, load_checkpoint m ck opt w = Raise (RuntimeError msg))
  ∧ (∀ r w', load_checkpoint m ck opt w = Ok (r, w') →
       ∃ sd : state_dict, ck !! "state_dict" = Some sd
             ∧ sd.*1 ⊆ (parameters m).*1 ∧ (parameters m).*1 ⊆ sd.*1
             ∧ (is_Some opt → is_Some (ck !! "optimizer"))).
Proof.
  unfold load_checkpoint, getitem, load_state_dict.
  split; [by intros ->|]. split.
  - intros sd -> Hne. simpl.
    destruct (bool_decide (sd.*1 ⊆ (parameters m).*1)) eqn:Esub;
      [apply bool_decide_eq_true in Esub | by eexists].
    destruct (for_each (parameters m) (copy_param sd) w) as [w1|e] eqn:Hloop.
    + destruct Hne. split; [done|]. by eapply copy_params_names.
    + apply copy_params_error in Hloop as [msg ->]. by eexists.
  - intros r w' H.
    destruct (ck !! "state_dict") as [sd|]; [|discriminate]. simpl in H.
    destruct (bool_decide (sd.*1 ⊆ (parameters m).*1)) eqn:Esub;
      [apply bool_decide_eq_true in Esub | discriminate].
    apply bind_Ok in H as (w1 & Hloop & H).
    exists sd. split; [done|]. split; [done|].
    split; [by eapply copy_params_names|].
    destruct opt as [o|]; simpl in H.
    + destruct (ck !! "optimizer") as [od|]; [|discriminate]. simpl in H.
      destruct (optimizer_load_state_dict o od w1) as [o' w2].
      by eexists.
    + by intros [? ?].
Qed.

End StrictLoadingFacts.

(** ** The two versions of [load_checkpoint] *)

Section LegacyFacts.
Context {T : Torch}.




End LegacyFacts.

(** ** What a run prints *)

Section ConsoleFacts.
Context {T : Torch}.

Arguments epoch_body : simpl never.
Arguments train_batch : simpl never.
Arguments val_batch : simpl never.
Arguments print__batch_info : simpl never.
Arguments select_checkpoint : simpl never.
Arguments optimizer_step : simpl never.
Arguments iter_loader : simpl never.

Lemma store_all_stdout ls vs (w : world) :
  stdout (store_all ls vs w) = stdout w.
Proof.
  unfold store_all. revert vs w.
  induction ls as [|l ls IH]; intros vs w; destruct vs as [|v vs];
    simpl; try done.
  by rewrite IH.
Qed.

Lemma write_state_stdout new st (w : world) :
  stdout (write_state new st w).2 = stdout w.
Proof.
  revert st w. induction new as [|[k v] new IH]; intros st w; [done|].
  simpl. destruct (assoc k st) as [l|]; by rewrite IH.
Qed.

Lemma optimizer_step_stdout ua sc out b opt (w : world) :
  stdout (optimizer_step ua sc out b opt w).2 = stdout w.
Proof.
  unfold optimizer_step. destruct (amp_step _ _ _ _ _ _) as [[ps st] sc1].
  pose proof (write_state_stdout st (state opt)
                (store_all (param_groups opt) ps w)) as H.
  destruct (write_state _ _ _) as [st1 w1]. simpl in *.
  by rewrite H, store_all_stdout.
Qed.

Lemma select_checkpoint_stdout o v minv ck (w : world) :
  stdout (select_checkpoint o v minv ck w).2 = stdout w.
Proof.
  unfold select_checkpoint. destruct (fl_ltb v minv); [|done].
  pose proof (deepcopy_stdout (model_state_dict (model o)) w) as H1.
  destruct (deepcopy (model_state_dict (model o)) w) as [sd w1].
  pose proof (deepcopy_stdout (optimizer_state_dict (optimizer o)) w1) as H2.
  destruct (deepcopy _ w1) as [od w2]. simpl in *. by rewrite H2, H1.
Qed.

(** The lines a call of [print__batch_info] adds to the console. *)
Lemma print__batch_info_console mode i ld e t0 loss fr (w w' : world) :
  print__batch_info mode i ld e t0 loss fr w = Ok w' →
  ∃ ls, stdout w' = stdout w ++ (PrintBatch <$> ls)
        ∧ length ls
          = length (filter (λ i, (Z.of_nat i `mod` fr)%Z = 0%Z) [i])
        ∧ Forall (λ l, bl_mode l = mode ∧ bl_epoch l = e) ls.
Proof.
  unfold print__batch_info. intros H. inv_bind H.
  destruct (decide (fr = 0%Z)); [discriminate|].
  rewrite filter_cons, filter_nil.
  destruct (decide _).
  - inv_bind H. simpl in H. inv_bind H. injection H as <-.
    unfold format_line in Hb1. inv_bind Hb1. injection Hb1 as <-.
    eexists [_]. split; [done|]. split; [done|].
    apply Forall_singleton. done.
  - injection H as <-. exists []. by rewrite app_nil_r.
Qed.

Lemma loop_console {B St : Type} (body : nat * B → St → result St)
    (out : St → list event) (fr : Z) (Q : batch_line → Prop) ibs s s' :
  (∀ ib t t', body ib t = Ok t' →
     ∃ ls, out t' = out t ++ (PrintBatch <$> ls)
           ∧ length ls
             = length (filter (λ i, (Z.of_nat i `mod` fr)%Z = 0%Z) [ib.1])
           ∧ Forall Q ls) →
  for_each ibs body s = Ok s' →
  ∃ ls, out s' = out s ++ (PrintBatch <$> ls)
        ∧ length ls
          = length (filter (λ i, (Z.of_nat i `mod` fr)%Z = 0%Z) ibs.*1)
        ∧ Forall Q ls.
Proof.
  intros Hbody. revert s. induction ibs as [|ib ibs IH]; intros s H.
  - injection H as <-. exists []. by rewrite app_nil_r.
  - simpl in H. apply bind_Ok in H as (t & Hb & H).
    destruct (Hbody _ _ _ Hb) as (ls1 & Ho1 & Hl1 & HQ1).
    destruct (IH _ H) as (ls2 & Ho2 & Hl2 & HQ2).
    exists (ls1 ++ ls2). rewrite Ho2, Ho1, fmap_app, app_assoc.
    split; [done|]. split; [|by apply Forall_app].
    rewrite length_app, Hl1, Hl2, fmap_cons.
    change (ib.1 :: ibs.*1) with ([ib.1] ++ ibs.*1).
    by rewrite filter_app, length_app.
Qed.

Lemma enumerate_fst {A : Type} (xs : list A) :
  (enumerate xs).*1 = seq 0 (length xs).
Proof. unfold enumerate. apply fst_zip. by rewrite length_seq. Qed.

Lemma train_batch_console ua tl e t0 ft ib s s' :
  train_batch ua tl e t0 ft ib s = Ok s' →
  ∃ ls, stdout s'.2 = stdout s.2 ++ (PrintBatch <$> ls)
        ∧ length ls
          = length (filter (λ i, (Z.of_nat i `mod` ft)%Z = 0%Z) [ib.1])
        ∧ Forall (λ l, bl_mode l = "train"%string ∧ bl_epoch l = e) ls.
Proof.
  unfold train_batch. destruct ib as [i b]. destruct s as [[o tr] w].
  pose proof (optimizer_step_stdout ua (scaler o)
                (call_model (set_training true (model o)) b w) b
                (optimizer o) w) as Hout.
  destruct (optimizer_step _ _ _ _ _ _) as [[opt sc] w1]. simpl in Hout.
  intros H. inv_bind H. injection H as <-.
  apply print__batch_info_console in Hb. simpl. by rewrite <- Hout.
Qed.

Lemma val_batch_console m vl e t0 fv ib s s' :
  val_batch m vl e t0 fv ib s = Ok s' →
  ∃ ls, stdout s'.2 = stdout s.2 ++ (PrintBatch <$> ls)
        ∧ length ls
          = length (filter (λ i, (Z.of_nat i `mod` fv)%Z = 0%Z) [ib.1])
        ∧ Forall (λ l, bl_mode l = "val"%string ∧ bl_epoch l = e) ls.
Proof.
  unfold val_batch. destruct ib as [i b]. destruct s as [tr w].
  intros H. inv_bind H. injection H as <-.
  by apply print__batch_info_console in Hb.
Qed.

(** What one epoch prints. *)
Lemma epoch_body_console ua tl vl ft fv e f w f' w' :
  epoch_body ua tl vl ft fv e (f, w) = Ok (f', w') →
  ∃ log, stdout w' = stdout w ++ log
         ∧ epoch_log tl vl ft fv e (train_losses f') (val_losses f')
             (train_accs f') (val_accs f') log.
Proof.
  unfold epoch_body. intros H.
  destruct (perf_counter w) as [t0 w1] eqn:E1.
  assert (stdout w1 = stdout w) as Ho1 by by injection E1 as _ <-.
  pose proof (iter_loader_stdout tl w1) as Ho2.
  pose proof (iter_loader_length tl w1) as Hl2.
  destruct (iter_loader tl w1) as [tb w2] eqn:E2. simpl in Ho2, Hl2.
  apply bind_Ok in H as ([[o tr] w3] & Htrain & H).
  pose proof (iter_loader_stdout vl w3) as Ho4.
  pose proof (iter_loader_length vl w3) as Hl4.
  destruct (iter_loader vl w3) as [vb w4] eqn:E3. simpl in Ho4, Hl4.
  apply bind_Ok in H as ([va w5] & Hval & H).
  apply bind_Ok in H as (v & Hv & H).
  pose proof (select_checkpoint_stdout
                (Objs (set_training false (model o)) (optimizer o)
                   (scaler o)) v (min_val_loss f) (checkpoint f) w5) as Ho6.
  destruct (select_checkpoint _ v _ _ w5) as [[minv ck] w6] eqn:E4.
  simpl in Ho6.
  apply bind_Ok in H as (tacc & Hta & H).
  apply bind_Ok in H as (vacc & Hva & H).
  destruct (perf_counter w6) as [now w7] eqn:E5.
  assert (stdout w7 = stdout w6) as Ho7 by by injection E5 as _ <-.
  apply bind_Ok in H as (tle & Htle & H).
  apply bind_Ok in H as (vle & Hvle & H).
  apply bind_Ok in H as (tae & Htae & H).
  apply bind_Ok in H as (vae & Hvae & H).
  injection H as <- <-.
  apply list_index_Ok in Htle, Hvle, Htae, Hvae.
  destruct (loop_console _ (λ s : objs * tally * world, stdout s.2) ft
              (λ l, bl_mode l = "train"%string ∧ bl_epoch l = e)
              _ _ _ (train_batch_console ua tl e t0 ft) Htrain)
    as (tls & Hot & Hlt & HQt).
  destruct (loop_console _ (λ s : tally * world, stdout s.2) fv
              (λ l, bl_mode l = "val"%string ∧ bl_epoch l = e)
              _ _ _ (val_batch_console _ vl e t0 fv) Hval)
    as (vls & Hov & Hlv & HQv).
  simpl in Hot, Hov.
  rewrite enumerate_fst, Hl2 in Hlt. rewrite enumerate_fst, Hl4 in Hlv.
  eexists. split.
  - simpl. rewrite Ho7, Ho6, Hov, Ho4, Hot, Ho2, Ho1.
    rewrite <- !app_assoc. reflexivity.
  - exists tls, vls. eexists. split; [reflexivity|].
    split; [done|]. split; [done|]. split; [done|]. split; [done|].
    simpl. split; [done|]. split; [done|]. split; [done|].
    rewrite !list_lookup_fmap, Htae, Hvae. done.
Qed.

Lemma epoch_log_extends tl vl ft fv k a b c d x y z u log :
  epoch_log tl vl ft fv k a b c d log →
  epoch_log tl vl ft fv k (a ++ [x]) (b ++ [y]) (c ++ [z]) (d ++ [u]) log.
Proof.
  intros (tls & vls & line & -> & H1 & H2 & H3 & H4 & H5 & Ha & Hb & Hc & Hd).
  exists tls, vls, line. split; [done|].
  split; [done|]. split; [done|]. split; [done|]. split; [done|].
  split; [done|]. rewrite !fmap_app.
  split; [by apply lookup_app_l_Some|]. split; [by apply lookup_app_l_Some|].
  split; by apply lookup_app_l_Some.
Qed.

(** X14: The console of a run that returns: [train_and_validate] prints, for
    each epoch in turn, the progress lines of the training batches on
    the stride, those of the validation batches on theirs, and one
    summary line that shows the losses and, in per cent, the accuracies
    returned for that epoch; it prints nothing else. *)
Theorem console_reports_returned_metrics m opt N ua tl vl ft fv w out w' :
  train_and_validate m opt N ua tl vl ft fv w = Ok (out, w') →
  ∃ logs,
    stdout w' = stdout w ++ concat logs
    ∧ Z.of_nat (length logs) = N
    ∧ ∀ k log, logs !! k = Some log →
        epoch_log tl vl ft fv k (out_train_losses out) (out_val_losses out)
          (out_train_accs out) (out_val_accs out) log.
Proof.
  intros H.
  apply train_and_validate_inv in H as (f & Hrun & Hck & ->). simpl.
  assert (1 ≤ N)%Z as HN.
  { destruct (run_epochs_in_place _ _ _ _ _ _ _ _ _ _ _ Hrun)
      as (_ & H0 & _).
    destruct (decide (Z.to_nat N = 0)) as [E|E]; [|lia].
    rewrite H0 in Hck by done. discriminate. }
  unfold run_epochs in Hrun.
  pose (I := λ (k : nat) (s : frame * world),
          ∃ logs,
            stdout s.2 = stdout w ++ concat logs
            ∧ length logs = k
            ∧ ∀ j log, logs !! j = Some log →
                epoch_log tl vl ft fv j (train_losses s.1) (val_losses s.1)
                  (train_accs s.1) (val_accs s.1) log).
  assert (I (0 + Z.to_nat N) (f, w')) as (logs & Hout & Hlen & Hlogs).
  { refine (for_each_seq_ind I _ _ _ _ _ _ _ Hrun).
    - exists []. simpl. by rewrite app_nil_r.
    - intros k [f1 w1] [f2 w2] _ (logs & Hout & Hlen & Hlogs) Hb.
      simpl in *.
      destruct (epoch_body_console _ _ _ _ _ _ _ _ _ _ Hb)
        as (log & Ho & Hlog).
      pose proof (epoch_body_appends _ _ _ _ _ _ _ _ _ _ Hb)
        as ([a Ha] & [b Hb'] & [c Hc] & [d Hd]).
      exists (logs ++ [log]). simpl. rewrite Ho, Hout, concat_app. simpl.
      rewrite app_nil_r, app_assoc. split; [done|].
      split; [rewrite length_app; simpl; lia|].
      intros j lg Hj. apply lookup_app_Some in Hj as [Hj|[Hge Hj]].
      + rewrite Ha, Hb', Hc, Hd. apply epoch_log_extends. by apply Hlogs.
      + apply list_lookup_singleton_Some in Hj as [Hj <-].
        assert (j = k) as -> by lia. done. }
  exists logs. split; [done|]. split; [lia | done].
Qed.

End ConsoleFacts.

(** ** The confusion matrix: indices and diagonal *)

Lemma bump_shape n cm tp cm' :
  length cm = n → Forall (λ row, length row = n) cm →
  bump cm tp = Ok cm' →
  length cm' = n ∧ Forall (λ row, length row = n) cm'.
Proof.
  unfold bump. intros Hl Hrows H.
  destruct (cm !! tp.1) as [row|] eqn:Er; [|discriminate].
  destruct (row !! tp.2) as [x|]; [|discriminate]. injection H as <-.
  split; [by rewrite length_insert|]. apply Forall_insert; [done|].
  rewrite length_insert. by eapply (Forall_lookup_1 _ _ _ _ Hrows).
Qed.

Lemma bump_outside n cm tp :
  length cm = n → Forall (λ row, length row = n) cm →
  ¬ (tp.1 < n ∧ tp.2 < n) → bump cm tp = Raise IndexError.
Proof.
  unfold bump. intros Hl Hrows Hout.
  destruct (cm !! tp.1) as [row|] eqn:Er; [|done].
  destruct (row !! tp.2) as [x|] eqn:Ex; [|done].
  destruct Hout. split.
  - apply lookup_lt_Some in Er. lia.
  - apply lookup_lt_Some in Ex.
    by rewrite (Forall_lookup_1 _ _ _ _ Hrows Er) in Ex.
Qed.

Lemma bump_error cm tp e : bump cm tp = Raise e → e = IndexError.
Proof.
  unfold bump. destruct (cm !! tp.1) as [row|]; [|by intros [= <-]].
  destruct (row !! tp.2); [done | by intros [= <-]].
Qed.

Lemma accumulate_outside n pairs cm :
  length cm = n → Forall (λ row, length row = n) cm →
  ¬ Forall (λ tp, tp.1 < n ∧ tp.2 < n) pairs →
  for_each pairs (λ tp cm, bump cm tp) cm = Raise IndexError.
Proof.
  revert cm. induction pairs as [|tp pairs IH]; intros cm Hl Hrows Hout.
  - by destruct Hout.
  - simpl. destruct (bump cm tp) as [cm'|e] eqn:Hb; simpl.
    + destruct (bump_shape _ _ _ _ Hl Hrows Hb) as [Hl' Hrows'].
      apply IH; [done..|]. intros Hall. apply Hout.
      apply Forall_cons. split; [|done].
      destruct (decide (tp.1 < n ∧ tp.2 < n)) as [|Hno]; [done|].
      by rewrite (bump_outside n) in Hb.
    + by rewrite (bump_error _ _ _ Hb).
Qed.

Lemma sum_list_fmap_single (f : nat → nat) c (l : list nat) :
  NoDup l → c ∈ l → (∀ p, p ∈ l → p ≠ c → f p = 0) →
  sum_list (f <$> l) = f c.
Proof.
  induction l as [|x l IH]; intros Hnd Hc Hz.
  - by apply elem_of_nil in Hc.
  - apply NoDup_cons in Hnd as [Hx Hnd]. rewrite fmap_cons. simpl.
    destruct (decide (x = c)) as [->|Hne].
    + assert (sum_list (f <$> l) = 0) as ->; [|lia].
      assert (f <$> l = replicate (length l) 0) as ->.
      { apply fmap_const_replicate. intros p Hp. apply Hz; [by right|].
        by intros ->. }
      clear. induction (length l); simpl; lia.
    + rewrite (Hz x) by (done || by left). simpl. apply IH; [done| |].
      * apply elem_of_cons in Hc as [->|Hc]; done.
      * intros p Hp. apply Hz. by right.
Qed.

Lemma fl_div_same (k : nat) :
  k ≠ 0 → fl_div (fl_of_nat k) (fl_of_nat k) = fl_of_Z 1.
Proof.
  intros Hk. rewrite fl_div_counts by done. unfold fl_of_Z. f_equal.
  rewrite Z2Qc_inj_1. apply Qcmult_inv_r. by apply Qc_of_nat_nonzero.
Qed.

Lemma fl_div_zero (k : nat) :
  k ≠ 0 → fl_div (fl_of_nat 0) (fl_of_nat k) = fl_of_Z 0.
Proof.
  intros Hk. rewrite fl_div_counts by done. unfold fl_of_Z. f_equal.
  simpl. rewrite Z2Qc_inj_0. apply Qcmult_0_l.
Qed.

(** 1 and 0 are binary32 numbers: these two quotients are not
    rounded. *)
Lemma f32_div_same (k : nat) :
  k ≠ 0 → f32_div (fl_of_nat k) (fl_of_nat k) = fl_of_Z 1.
Proof.
  intros Hk. unfold f32_div. by rewrite fl_div_same, f32_round_one.
Qed.

Lemma f32_div_zero (k : nat) :
  k ≠ 0 → f32_div (fl_of_nat 0) (fl_of_nat k) = fl_of_Z 0.
Proof.
  intros Hk. unfold f32_div. by rewrite fl_div_zero, f32_round_zero.
Qed.

Section MatrixFacts.
Context {T : Torch}.

(** X9: [produce_and_print_confusion_matrix] returns exactly when every
    true and every predicted class of the evaluated samples is an index
    of the matrix; otherwise it raises [IndexError]. *)
Theorem class_outside_matrix_raises num_classes test_loader m w :
  let pairs := evaluated_pairs (set_training false m)
                 (iter_loader test_loader w).1 (iter_loader test_loader w).2 in
  (Forall (λ tp, tp.1 < num_classes ∧ tp.2 < num_classes) pairs →
   is_ok (produce_and_print_confusion_matrix num_classes test_loader m w)
   = true)
  ∧ (¬ Forall (λ tp, tp.1 < num_classes ∧ tp.2 < num_classes) pairs →
     produce_and_print_confusion_matrix num_classes test_loader m w
     = Raise IndexError).
Proof.
  intros pairs. split.
  - intros Hin.
    destruct (confusion_of_pairs_spec _ _ Hin) as (counts & _ & _ & Hcm).
    by rewrite (produce_and_print_confusion_matrix_Ok _ _ _ _ _ Hcm).
  - intros Hout. unfold produce_and_print_confusion_matrix.
    destruct (iter_loader test_loader w) as [batches w1]. simpl in *.
    fold pairs. unfold confusion_of_pairs, accumulate.
    rewrite (accumulate_outside num_classes); [done | | | done].
    + by rewrite length_replicate.
    + apply Forall_replicate. by rewrite length_replicate.
Qed.

(** X10: A class that occurs among the true labels and whose samples are all
    predicted correctly has the unit vector as its row: 1 on the
    diagonal and 0 elsewhere. *)
Theorem correct_class_gives_unit_row num_classes test_loader m w c :
  let pairs := evaluated_pairs (set_training false m)
                 (iter_loader test_loader w).1 (iter_loader test_loader w).2 in
  Forall (λ tp, tp.1 < num_classes ∧ tp.2 < num_classes) pairs →
  (c, c) ∈ pairs →
  (∀ p, (c, p) ∈ pairs → p = c) →
  ∃ cm w',
    produce_and_print_confusion_matrix num_classes test_loader m w
    = Ok (cm, set_training false m, w')
    ∧ cm !! c
      = Some ((λ p, if decide (p = c) then fl_of_Z 1 else fl_of_Z 0)
              <$> seq 0 num_classes).
Proof.
  intros pairs Hin Hc Hall.
  destruct (confusion_of_pairs_spec _ _ Hin) as (counts & _ & _ & Hcm).
  rewrite (produce_and_print_confusion_matrix_Ok _ _ _ _ _ Hcm).
  do 2 eexists. split; [done|].
  assert (c < num_classes) as Hlt.
  { rewrite Forall_forall in Hin. by destruct (Hin _ Hc). }
  rewrite list_lookup_fmap, lookup_seq_lt by done. simpl. f_equal.
  unfold normalized_row. apply list_fmap_ext. intros i p Hp.
  apply lookup_seq in Hp as [-> Hi]. cbn [plus].
  assert (row_total pairs num_classes c = count_cell pairs c c) as ->.
  { unfold row_total. apply sum_list_fmap_single.
    - apply NoDup_seq.
    - apply elem_of_seq. lia.
    - intros p _ Hne. apply count_cell_absent. intros Hp.
      by apply Hall in Hp. }
  pose proof (count_cell_pos _ _ _ Hc) as Hpos.
  destruct (decide (i = c)) as [->|Hne].
  - apply f32_div_same. lia.
  - rewrite (count_cell_absent pairs c i); [apply f32_div_zero; lia|].
    intros Hp. by apply Hall in Hp.
Qed.

End MatrixFacts.

(** ** The accuracy check counts every sample once *)

Section AccuracyCheckFacts.
Context {T : Torch}.
Variable format_2f : fl → string.



End AccuracyCheckFacts.

(** ** Further concrete runs *)

Lemma check_args_accepts_exactly_witness :
  check_args ToyReport.args [] = Ok [PrintArgs ToyReport.args].
Proof.
  apply (proj1 (check_args_accepts_exactly ToyReport.args [])).
  split; [by left|]. split; [discriminate|].
  split; eexists; (split; [reflexivity|]); split; reflexivity.
Defined.

Lemma toy_progress_line_returns :
  is_ok (print__batch_info (T := Toy.backend Toy.distance_loss) "train" 1
           (Toy.train_set Toy.distance_loss) 0 (fl_of_Z 0) (fl_of_Z 0) 1%Z
           (Toy.world0 Toy.distance_loss)) = true.
Proof. vm_compute. reflexivity. Qed.

Lemma progress_line_within_dataset_witness :
  match print__batch_info (T := Toy.backend Toy.distance_loss) "train" 1
          (Toy.train_set Toy.distance_loss) 0 (fl_of_Z 0) (fl_of_Z 0) 1%Z
          (Toy.world0 Toy.distance_loss) with
  | Ok w' =>
      ∃ line,
        stdout w' = stdout (Toy.world0 Toy.distance_loss) ++ [PrintBatch line]
        ∧ bl_current_samples line = bl_total_samples line
        ∧ between_0_and 100 (bl_percentage line)
  | Raise _ => False
  end.
Proof.
  destruct (print__batch_info _ _ _ _ _ _ _ _) as [w'|e] eqn:E.
  - assert (1 < len_loader (Toy.train_set Toy.distance_loss)) as Hlt
      by (vm_compute; lia).
    destruct (progress_line_within_dataset
                (T := Toy.backend Toy.distance_loss) _ _ _ _ _ _ _ _ _ Hlt E)
      as [[Hmod _]|[_ (line & Hout & _ & _ & Hfinal & Hperc & _)]].
    + exfalso. apply Hmod. reflexivity.
    + exists line. split; [exact Hout|]. split; [|exact Hperc].
      apply Hfinal. reflexivity.
  - pose proof toy_progress_line_returns as H. rewrite E in H.
    discriminate H.
Defined.

Lemma accuracies_are_proportions_witness :
  match Toy.run Toy.distance_loss 3%Z with
  | Ok (out, _) =>
      Forall (between_0_and 1) (out_train_accs out)
      ∧ Forall (between_0_and 1) (out_val_accs out)
  | Raise _ => False
  end.
Proof.
  destruct (Toy.run Toy.distance_loss 3%Z) as [[out w']|e] eqn:E.
  - exact (accuracies_are_proportions
             (T := Toy.backend Toy.distance_loss) _ _ _ _ _ _ _ _ _ _ _ E).
  - pose proof toy_run_returns as H. rewrite E in H. discriminate H.
Defined.

Lemma training_is_in_place_witness :
  match Toy.run Toy.distance_loss 3%Z with
  | Ok (out, _) =>
      model (out_objects out) = set_training true (Toy.net Toy.distance_loss)
      ∧ param_groups (optimizer (out_objects out)) = [0]
  | Raise _ => False
  end.
Proof.
  destruct (Toy.run Toy.distance_loss 3%Z) as [[out w']|e] eqn:E.
  - destruct (training_is_in_place
                (T := Toy.backend Toy.distance_loss) _ _ _ _ _ _ _ _ _ _ _ E)
      as (_ & Hm & Hg & _).
    split; [exact Hm | exact Hg].
  - pose proof toy_run_returns as H. rewrite E in H. discriminate H.
Defined.

Lemma returned_checkpoint_reproduces_best_loss_witness :
  match Toy.run Toy.distance_loss 3%Z with
  | Ok (out, w') =>
      ∃ e v sd w3,
        out_val_losses out !! e = Some v
        ∧ best_checkpoint out !! "state_dict"%string = Some sd
        ∧ v = validation_loss_of (T := Toy.backend Toy.distance_loss)
                (load w' <$> locs_of sd)
                (iter_loader (Toy.val_set Toy.distance_loss) w3).1 3
  | Raise _ => False
  end.
Proof.
  destruct (Toy.run Toy.distance_loss 3%Z) as [[out w']|e] eqn:E.
  - destruct (returned_checkpoint_reproduces_best_loss
                (T := Toy.backend Toy.distance_loss) _ _ _ _ _ _ _ _ _ _ _
                (toy_allocated _) E)
      as (e & v & sd & w3 & Hv & _ & Hsd & _ & Hloss).
    exists e, v, sd, w3. split; [exact Hv|]. split; [exact Hsd|exact Hloss].
  - pose proof toy_run_returns as H. rewrite E in H. discriminate H.
Defined.

Lemma restored_model_has_best_loss_witness :
  match Toy.run Toy.distance_loss 3%Z with
  | Ok (out, w') =>
      (∃ w'',
         load_checkpoint (T := Toy.backend Toy.distance_loss)
           (model (out_objects out)) (best_checkpoint out) None w'
         = Ok (None, w''))
      ∨ load_checkpoint (T := Toy.backend Toy.distance_loss)
          (model (out_objects out)) (best_checkpoint out) None w'
        = Raise (RuntimeError "size mismatch")
  | Raise _ => False
  end.
Proof.
  destruct (Toy.run Toy.distance_loss 3%Z) as [[out w']|e] eqn:E.
  - assert (NoDup (parameters (Toy.net Toy.distance_loss)).*1) as Hn
      by apply NoDup_singleton.
    assert (NoDup (locs_of (parameters (Toy.net Toy.distance_loss)))) as Hl
      by apply NoDup_singleton.
    destruct (restored_model_has_best_loss
                (T := Toy.backend Toy.distance_loss) _ _ _ _ _ _ _ _ _ _ _
                (toy_allocated _) Hn Hl E)
      as [(w'' & _ & _ & _ & Hload & _)|Hraise].
    + left. exists w''. exact Hload.
    + right. exact Hraise.
  - pose proof toy_run_returns as H. rewrite E in H. discriminate H.
Defined.

Lemma class_outside_matrix_raises_witness :
  produce_and_print_confusion_matrix (T := Toy.backend Toy.distance_loss)
    1 (Toy.val_set Toy.distance_loss) (Toy.net Toy.distance_loss)
    (Toy.world0 Toy.distance_loss)
  = Raise IndexError.
Proof.
  apply (proj2 (class_outside_matrix_raises
                  (T := Toy.backend Toy.distance_loss) 1
                  (Toy.val_set Toy.distance_loss) (Toy.net Toy.distance_loss)
                  (Toy.world0 Toy.distance_loss))).
  intros H. apply Forall_cons in H as [[H _] _]. simpl in H. lia.
Defined.

Lemma correct_class_gives_unit_row_witness :
  ∃ cm w',
    produce_and_print_confusion_matrix (T := Toy.backend Toy.distance_loss)
      2 (Toy.val_set Toy.distance_loss) (Toy.net Toy.distance_loss)
      (Toy.world0 Toy.distance_loss)
    = Ok (cm, set_training false (Toy.net Toy.distance_loss), w')
    ∧ cm !! 0 = Some [fl_of_Z 1; fl_of_Z 0].
Proof.
  destruct (correct_class_gives_unit_row
              (T := Toy.backend Toy.distance_loss) 2
              (Toy.val_set Toy.distance_loss) (Toy.net Toy.distance_loss)
              (Toy.world0 Toy.distance_loss) 0)
    as (cm & w' & Hcm & Hrow).
  - vm_compute. repeat constructor.
  - vm_compute. right. left.
  - intros p Hin. vm_compute in Hin.
    apply elem_of_cons in Hin as [Hin|Hin]; [discriminate Hin|].
    apply elem_of_cons in Hin as [Hin|Hin];
      [injection Hin as ->; reflexivity|].
    apply elem_of_cons in Hin as [Hin|Hin]; [discriminate Hin|].
    by apply elem_of_nil in Hin.
  - exists cm, w'. split; [exact Hcm | exact Hrow].
Defined.

Lemma toy_restore_both_returns :
  is_ok (load_checkpoint (T := Toy.backend Toy.distance_loss)
           (Toy.net Toy.distance_loss) ToyReport.saved_both
           (Some (Toy.adam_stepped Toy.distance_loss))
           (Toy.restore_world Toy.distance_loss)) = true.
Proof. vm_compute. reflexivity. Qed.

Lemma toy_saved_both_separate d l :
  ToyReport.saved_both !! "state_dict"%string = Some d
  ∨ ToyReport.saved_both !! "optimizer"%string = Some d →
  l ∈ locs_of d →
  l ∉ locs_of (parameters (Toy.net Toy.distance_loss)).
Proof.
  unfold ToyReport.saved_both.
  rewrite lookup_insert_ne, lookup_singleton_eq, lookup_insert_eq by done.
  intros [[= <-]|[= <-]] Hl; unfold locs_of in Hl; simpl in Hl;
    apply list_elem_of_singleton in Hl; subst l;
    intros Hin; apply list_elem_of_singleton in Hin;
    discriminate Hin.
Qed.

Lemma load_checkpoint_with_optimizer_witness :
  match load_checkpoint (T := Toy.backend Toy.distance_loss)
          (Toy.net Toy.distance_loss) ToyReport.saved_both
          (Some (Toy.adam_stepped Toy.distance_loss))
          (Toy.restore_world Toy.distance_loss) with
  | Ok (r, w') =>
      ∃ od, ToyReport.saved_both !! "optimizer"%string = Some od
            ∧ r = Some {| param_groups := [0]; state := od |}
            ∧ next_loc w' = next_loc (Toy.restore_world Toy.distance_loss)
            ∧ values w' od = values (Toy.restore_world Toy.distance_loss) od
  | Raise _ => False
  end.
Proof.
  destruct (load_checkpoint _ _ _ _) as [[r w']|e] eqn:E.
  - assert (NoDup (locs_of (parameters (Toy.net Toy.distance_loss)))) as Hnd
      by (apply NoDup_singleton).
    destruct (load_checkpoint_with_optimizer
                (T := Toy.backend Toy.distance_loss) _ _ _ _ _ _ Hnd
                toy_saved_both_separate E)
      as (sd & od & _ & Hod & Hr & _ & _ & Hnext & Hv & _).
    exists od. split; [exact Hod|]. split; [exact Hr|].
    split; [exact Hnext|exact Hv].
  - pose proof toy_restore_both_returns as H. rewrite E in H.
    discriminate H.
Defined.

Lemma load_checkpoint_is_strict_witness :
  match load_checkpoint (T := Toy.backend Toy.distance_loss)
          (Toy.net Toy.distance_loss) ToyReport.saved_both
          (Some (Toy.adam_stepped Toy.distance_loss))
          (Toy.restore_world Toy.distance_loss) with
  | Ok (r, w') =>
      ∃ sd : state_dict,
        ToyReport.saved_both !! "state_dict"%string = Some sd
        ∧ sd.*1 ⊆ (parameters (Toy.net Toy.distance_loss)).*1
        ∧ (parameters (Toy.net Toy.distance_loss)).*1 ⊆ sd.*1
        ∧ is_Some (ToyReport.saved_both !! "optimizer"%string)
  | Raise _ => False
  end.
Proof.
  destruct (load_checkpoint _ _ _ _) as [[r w']|e] eqn:E.
  - destruct (proj2 (proj2 (load_checkpoint_is_strict
                              (T := Toy.backend Toy.distance_loss) _ _ _ _))
                r w' E) as (sd & Hsd & Hsub & Hsup & Hopt).
    exists sd. split; [exact Hsd|]. split; [exact Hsub|].
    split; [exact Hsup|]. apply Hopt. by eexists.
  - pose proof toy_restore_both_returns as H. rewrite E in H.
    discriminate H.
Defined.


Lemma restoring_twice_changes_nothing_witness :
  match load_checkpoint (T := Toy.backend Toy.distance_loss)
          (Toy.net Toy.distance_loss) Toy.saved None
          (Toy.restore_world Toy.distance_loss) with
  | Ok (_, w1) =>
      load_checkpoint (T := Toy.backend Toy.distance_loss)
        (Toy.net Toy.distance_loss) Toy.saved None w1
      = Ok (None, print (PrintText "=> Checkpoint loaded.") w1)
  | Raise _ => False
  end.
Proof.
  pose proof toy_restore_returns as Hret.
  destruct (load_checkpoint _ _ _ _) as [[r w']|e] eqn:E; [|exact Hret].
  assert (NoDup (locs_of (parameters (Toy.net Toy.distance_loss)))) as Hnd
    by (apply NoDup_singleton).
  assert (∀ sd l, Toy.saved !! "state_dict"%string = Some sd →
                  l ∈ locs_of sd →
                  l ∉ locs_of (parameters (Toy.net Toy.distance_loss)))
    as Hdisj.
  { intros sd l Hsd Hl. unfold Toy.saved in Hsd.
    rewrite lookup_singleton_eq in Hsd. inversion Hsd; subst sd.
    apply list_elem_of_singleton in Hl. subst l.
    intros Hin. apply list_elem_of_singleton in Hin. discriminate Hin. }
  exact (restoring_twice_changes_nothing
           (T := Toy.backend Toy.distance_loss) _ _ _ _ _ Hnd Hdisj E).
Defined.

Lemma console_reports_returned_metrics_witness :
  match Toy.run Toy.distance_loss 3%Z with
  | Ok (out, w') =>
      ∃ logs,
        stdout w' = stdout (Toy.world0 Toy.distance_loss) ++ concat logs
        ∧ Z.of_nat (length logs) = 3%Z
  | Raise _ => False
  end.
Proof.
  destruct (Toy.run Toy.distance_loss 3%Z) as [[out w']|e] eqn:E.
  - destruct (console_reports_returned_metrics
                (T := Toy.backend Toy.distance_loss) _ _ _ _ _ _ _ _ _ _ _ E)
      as (logs & Hout & Hlen & _).
    exists logs. split; [exact Hout | exact Hlen].
  - pose proof toy_run_returns as H. rewrite E in H. discriminate H.
Defined.

Lemma degenerate_inputs_raise_witness :
  train_and_validate (T := Toy.backend Toy.distance_loss)
    (Toy.net Toy.distance_loss) (Toy.adam Toy.distance_loss) 1 false
    (Toy.train_set Toy.distance_loss) (Toy.val_set Toy.distance_loss)
    0%Z 1%Z (Toy.world0 Toy.distance_loss)
  = Raise ZeroDivisionError.
Proof.
  apply degenerate_inputs_raise; [lia|]. right. right. left. reflexivity.
Defined.
